(** * fpl_dashboard: the score store and the cumulative recalculation

    A shallow embedding of [models.py] and of the score handlers of [main.py]
    ([scores], [create_scores_bulk], [update_score], [delete_score],
    [delete_score_form]), followed by the properties of the cumulative
    total [overall_points] that the handlers establish, preserve or break.

    The two tables are lists of rows in rowid order.  A handler runs inside
    one database session: it reads and writes the session's view of the
    tables, [commit] publishes that view, and closing the session (which
    [get_db] does on every exit path) discards whatever was not committed. *)

From Stdlib Require Import ZArith List String Ascii Bool Lia.
From Stdlib Require Import DecimalString.
Import ListNotations.
Open Scope string_scope.
Open Scope list_scope.
Open Scope Z_scope.

(** ** models.py *)

Module Player.

Record t : Type := mk {
  id : Z;
  name : string;
  team : string
}.

End Player.

Module Score.

Record t : Type := mk {
  id : Z;
  player_id : Z;
  gameweek : Z;
  week_points : Z;
  week_cost : Z;
  overall_points : Z
}.

(** The four [CheckConstraint]s of the [scores] table.  The foreign key to
    [players] is not among the checks: SQLite enforces none unless asked to,
    and the application does not ask.  Integers are Python's; the 64-bit
    range of a stored integer is not modelled. *)
Definition check_gameweek (v : Z) : bool := (1 <=? v) && (v <=? 38).
Definition check_week_points (v : Z) : bool := 0 <=? v.
Definition check_week_cost (v : Z) : bool := 0 <=? v.
Definition check_overall_points (v : Z) : bool := 0 <=? v.

(** An INSERT verifies every constraint of the new row. *)
Definition check_insert (r : t) : bool :=
  check_gameweek (gameweek r) && check_week_points (week_points r)
  && check_week_cost (week_cost r) && check_overall_points (overall_points r).

(** An UPDATE sets the columns whose value changed, and SQLite verifies the
    constraints that mention one of them. *)
Definition check_update (old new : t) : bool :=
  ((gameweek old =? gameweek new) || check_gameweek (gameweek new))
  && ((week_points old =? week_points new) || check_week_points (week_points new))
  && ((week_cost old =? week_cost new) || check_week_cost (week_cost new))
  && ((overall_points old =? overall_points new)
      || check_overall_points (overall_points new)).

(** Attribute assignments on a loaded row. *)
Definition set_overall_points (v : Z) (r : t) : t :=
  mk (id r) (player_id r) (gameweek r) (week_points r) (week_cost r) v.

Definition set_week (points cost : Z) (r : t) : t :=
  mk (id r) (player_id r) (gameweek r) points cost (overall_points r).

Definition set_all (player gw points cost overall : Z) (r : t) : t :=
  mk (id r) player gw points cost overall.

End Score.

(** ** The database and the session *)

Record Database : Type := mkDatabase {
  players_table : list Player.t;
  scores_table : list Score.t
}.

(** What a request can raise: [HTTPException], the [ValueError] of [int],
    the [IntegrityError] of a flush that violates a check constraint, and the
    [RequestValidationError] (answered 422) of a form field that [Form(...)]
    requires and the request leaves empty. *)
Inductive exn : Type :=
| HTTPException (status_code : Z) (detail : string)
| ValueError
| IntegrityError
| RequestValidationError.

(** SQLite keeps an INTEGER in 64 bits, and its driver raises
    [OverflowError] when a statement hands it any other integer as the value
    of a parameter, before the statement runs.  Integers are unbounded here,
    as they are in Python, and the session below has no such error: it is
    the session of the requests whose integers SQLite can take.
    [sqlite_integer] is that range; a property that says what a request is
    answered assumes it of the integers the request hands to the
    database. *)
Definition sqlite_integer (n : Z) : Prop :=
  -9223372036854775808 <= n <= 9223372036854775807.

(** A row as SQLite holds it. *)
Definition sqlite_score (r : Score.t) : Prop :=
  sqlite_integer (Score.id r)
  /\ sqlite_integer (Score.player_id r)
  /\ sqlite_integer (Score.gameweek r)
  /\ sqlite_integer (Score.week_points r)
  /\ sqlite_integer (Score.week_cost r)
  /\ sqlite_integer (Score.overall_points r).

Inductive Response : Type :=
| RedirectResponse (url : string) (status_code : Z).

(** [stored] is what the database file holds, [view] what this session sees:
    its own uncommitted writes applied on top. *)
Record Session : Type := mkSession {
  stored : Database;
  view : Database
}.

Definition M (A : Type) : Type := Session -> (exn + A) * Session.

Definition ret {A : Type} (a : A) : M A := fun s => (inr a, s).

Definition raise {A : Type} (e : exn) : M A := fun s => (inl e, s).

Definition bind {A B : Type} (m : M A) (k : A -> M B) : M B :=
  fun s =>
    match m s with
    | (inl e, s') => (inl e, s')
    | (inr a, s') => k a s'
    end.

Declare Scope session_scope.
Delimit Scope session_scope with session.
Notation "x <- m ;; k" := (bind m (fun x => k))
  (at level 100, m at next level, right associativity) : session_scope.
Notation "m ;; k" := (bind m (fun _ => k))
  (at level 100, right associativity) : session_scope.
Open Scope session_scope.

(** [for x in l: body x] *)
Fixpoint for_each {A : Type} (l : list A) (body : A -> M unit) : M unit :=
  match l with
  | [] => ret tt
  | x :: l' => body x ;; for_each l' body
  end.

(** [Depends(get_db)]: open a session on the database, run the handler, close
    the session.  The database afterwards is what was committed. *)
Definition run {A : Type} (handler : M A) (db : Database) : (exn + A) * Database :=
  let (r, s) := handler (mkSession db db) in (r, stored s).

(** [session.get(Score, id)] *)
Definition find_score (id : Z) (l : list Score.t) : option Score.t :=
  find (fun r => Score.id r =? id) l.

Definition session_get (id : Z) : M (option Score.t) :=
  fun s => (inr (find_score id (scores_table (view s))), s).

(** [session.exec(select(Score).where(...)).all()] *)
Definition exec (where_ : Score.t -> bool) : M (list Score.t) :=
  fun s => (inr (filter where_ (scores_table (view s))), s).

(** [.order_by(Score.gameweek)] *)
Fixpoint insert_by_gameweek (r : Score.t) (l : list Score.t) : list Score.t :=
  match l with
  | [] => [r]
  | x :: l' =>
      if Score.gameweek r <=? Score.gameweek x then r :: l
      else x :: insert_by_gameweek r l'
  end.

Definition order_by_gameweek (l : list Score.t) : list Score.t :=
  fold_right insert_by_gameweek [] l.

Definition exec_order_by_gameweek (where_ : Score.t -> bool) : M (list Score.t) :=
  fun s => (inr (order_by_gameweek (filter where_ (scores_table (view s)))), s).

(** [session.exec(select(Player)).all()] *)
Definition exec_players : M (list Player.t) :=
  fun s => (inr (players_table (view s)), s).

(** Assigning attributes of the loaded row [id] and [session.add]ing it: the
    UPDATE is flushed before the next query or at the commit, and nothing is
    observed in between, so it is applied here.  A row is addressed by its
    primary key. *)
Definition update_rows (id : Z) (f : Score.t -> Score.t) (l : list Score.t)
  : list Score.t :=
  map (fun r => if Score.id r =? id then f r else r) l.

Definition update_ok (id : Z) (f : Score.t -> Score.t) (l : list Score.t) : bool :=
  forallb (fun r => negb (Score.id r =? id) || Score.check_update r (f r)) l.

Definition set_scores (l : list Score.t) (s : Session) : Session :=
  mkSession (stored s) (mkDatabase (players_table (view s)) l).

Definition modify (id : Z) (f : Score.t -> Score.t) : M unit :=
  fun s =>
    if update_ok id f (scores_table (view s))
    then (inr tt, set_scores (update_rows id f (scores_table (view s))) s)
    else (inl IntegrityError, s).

(** [session.add] of a new [Score]: SQLite gives the row the rowid after the
    largest one in use (1 in an empty table). *)
Definition next_id (l : list Score.t) : Z :=
  match l with
  | [] => 1
  | r :: l' => fold_left Z.max (map Score.id l') (Score.id r) + 1
  end.

Definition insert (player_id gameweek week_points week_cost overall_points : Z)
  : M unit :=
  fun s =>
    let l := scores_table (view s) in
    let r := Score.mk (next_id l) player_id gameweek week_points week_cost
                      overall_points in
    if Score.check_insert r
    then (inr tt, set_scores (l ++ [r]) s)
    else (inl IntegrityError, s).

(** [session.delete(score)] *)
Definition delete (id : Z) : M unit :=
  fun s =>
    (inr tt,
     set_scores (filter (fun r => negb (Score.id r =? id)) (scores_table (view s))) s).

(** [session.commit()] *)
Definition commit : M unit :=
  fun s => (inr tt, mkSession (view s) (view s)).

(** [sum(...)] over a result list: Python adds left to right from 0. *)
Definition net (s : Score.t) : Z := Score.week_points s - Score.week_cost s.

Definition sum_net (l : list Score.t) : Z :=
  fold_left (fun acc s => acc + net s) l 0.

(** ** main.py: update_score

    [session.refresh(score)] and the [print] after the commit leave the
    database alone and are not modelled. *)

(** The body of [for subsequent_score in subsequent_scores]. *)
Definition recompute_subsequent (player_id : Z) (subsequent_score : Score.t)
  : M unit :=
  scores_up_to_week <-
    exec (fun s => (Score.player_id s =? player_id)
                   && (Score.gameweek s <=? Score.gameweek subsequent_score)) ;;
  let subsequent_total := sum_net scores_up_to_week in
  modify (Score.id subsequent_score)
    (Score.set_overall_points subsequent_total).

Definition update_score (score_id player_id gameweek week_points week_cost : Z)
  : M Response :=
  score <- session_get score_id ;;
  match score with
  | None => raise (HTTPException 404 "Score not found")
  | Some _ =>
      other_scores <-
        exec (fun s => (Score.player_id s =? player_id)
                       && (Score.gameweek s <=? gameweek)
                       && negb (Score.id s =? score_id)) ;;
      let total_points := sum_net other_scores + (week_points - week_cost) in
      modify score_id
        (Score.set_all player_id gameweek week_points week_cost total_points) ;;
      subsequent_scores <-
        exec_order_by_gameweek
          (fun s => (Score.player_id s =? player_id)
                    && (gameweek <? Score.gameweek s)) ;;
      for_each subsequent_scores (recompute_subsequent player_id) ;;
      commit ;;
      ret (RedirectResponse "/scores" 302)
  end.

(** ** main.py: delete_score and delete_score_form *)

Definition delete_score (score_id : Z) : M Response :=
  score <- session_get score_id ;;
  match score with
  | None => raise (HTTPException 404 "Score not found")
  | Some _ =>
      delete score_id ;;
      commit ;;
      ret (RedirectResponse "/scores" 302)
  end.

Definition delete_score_form (score_id : Z) : M Response :=
  score <- session_get score_id ;;
  match score with
  | None => raise (HTTPException 404 "Score not found")
  | Some _ =>
      delete score_id ;;
      commit ;;
      ret (RedirectResponse "/scores" 302)
  end.

(** ** Python's [str] and [int] on form and query values

    A [str] is kept as the bytes of its UTF-8 encoding, so an ASCII string
    is the list of its characters.  [int] skips white space before and after
    the number (tab to carriage return, and the space: not the separators
    28 to 31 that [strip] also removes), reads an optional sign and then
    decimal digits, between which single underscores may stand, and raises
    a [ValueError] on anything else and on more than 4300 digits, the
    interpreter's default limit.  In a string with a character beyond ASCII,
    [int] also reads the digits and the spaces of other scripts, which
    [parse_int] does not: what is proved of the strings that [int] refuses
    is proved of ASCII strings. *)

(** [s.isascii()] *)
Definition isascii (s : string) : bool :=
  forallb (fun c => (N_of_ascii c <? 128)%N) (list_ascii_of_string s).

(** The white space of [str.strip] among the ASCII characters. *)
Definition isspace (c : ascii) : bool :=
  let n := Z.of_N (N_of_ascii c) in
  ((9 <=? n) && (n <=? 13)) || ((28 <=? n) && (n <=? 32)).

Fixpoint lstrip (l : list ascii) : list ascii :=
  match l with
  | [] => []
  | c :: l' => if isspace c then lstrip l' else l
  end.

Definition strip (s : string) : string :=
  string_of_list_ascii
    (rev (lstrip (rev (lstrip (list_ascii_of_string s))))).

(** The white space [int] skips around a number. *)
Definition int_isspace (c : ascii) : bool :=
  let n := Z.of_N (N_of_ascii c) in
  ((9 <=? n) && (n <=? 13)) || (n =? 32).

Fixpoint int_lstrip (l : list ascii) : list ascii :=
  match l with
  | [] => []
  | c :: l' => if int_isspace c then int_lstrip l' else l
  end.

Definition int_strip (l : list ascii) : list ascii :=
  rev (int_lstrip (rev (int_lstrip l))).

Definition digit_value (c : ascii) : option Z :=
  let n := Z.of_N (N_of_ascii c) in
  if (48 <=? n) && (n <=? 57) then Some (n - 48) else None.

Fixpoint digits_from (acc : Z) (after_underscore : bool) (l : list ascii)
  : option Z :=
  match l with
  | [] => if after_underscore then None else Some acc
  | c :: l' =>
      if Ascii.eqb c "_"
      then if after_underscore then None else digits_from acc true l'
      else match digit_value c with
           | Some d => digits_from (10 * acc + d) false l'
           | None => None
           end
  end.

Definition parse_digits (l : list ascii) : option Z :=
  match l with
  | [] => None
  | c :: l' =>
      match digit_value c with
      | Some d => digits_from d false l'
      | None => None
      end
  end.

(** [sys.int_info.default_max_str_digits] *)
Definition max_str_digits : Z := 4300.

Definition count_digits (l : list ascii) : Z :=
  Z.of_nat
    (List.length
       (filter (fun c => match digit_value c with
                         | Some _ => true
                         | None => false
                         end) l)).

Definition parse_int (s : string) : option Z :=
  let l := int_strip (list_ascii_of_string s) in
  if max_str_digits <? count_digits l then None
  else
    match l with
    | c :: l' =>
        if Ascii.eqb c "-" then option_map Z.opp (parse_digits l')
        else if Ascii.eqb c "+" then parse_digits l'
        else parse_digits l
    | [] => None
    end.

(** [int(s)] inside a handler *)
Definition int (s : string) : M Z :=
  match parse_int s with
  | Some n => ret n
  | None => raise ValueError
  end.

(** [str(n)], as an f-string formats an integer *)
Definition str (n : Z) : string := NilZero.string_of_int (Z.to_int n).

(** Truth value of an optional string: [None] and [""] are false. *)
Definition truthy (v : option string) : bool :=
  match v with
  | None => false
  | Some s => negb (String.eqb s "")
  end.

(** The submitted form, in the order of its fields; [get] answers with the
    last value given for a key. *)
Definition FormData : Type := list (string * string).

Fixpoint form_get (key : string) (form_data : FormData) : option string :=
  match form_data with
  | [] => None
  | (k, v) :: rest =>
      match form_get key rest with
      | Some v' => Some v'
      | None => if String.eqb k key then Some v else None
      end
  end.

(** ** main.py: create_scores_bulk *)

(** [f"week_points_{player.id}"] and [f"week_cost_{player.id}"] *)
Definition week_points_key (player : Player.t) : string :=
  ("week_points_" ++ str (Player.id player))%string.

Definition week_cost_key (player : Player.t) : string :=
  ("week_cost_" ++ str (Player.id player))%string.

(** The body of [for player in players]; a player without both fields, or
    with an empty one, is passed over ([continue]). *)
Definition bulk_player (form_data : FormData) (gameweek : Z) (player : Player.t)
  : M unit :=
  let week_points := form_get (week_points_key player) form_data in
  let week_cost := form_get (week_cost_key player) form_data in
  match week_points, week_cost with
  | Some week_points_str, Some week_cost_str =>
      if negb (truthy week_points) || negb (truthy week_cost) then ret tt
      else
        week_points <- int week_points_str ;;
        week_cost <- int week_cost_str ;;
        existing_score <-
          exec (fun s => (Score.player_id s =? Player.id player)
                         && (Score.gameweek s =? gameweek)) ;;
        match existing_score with
        | existing_score :: _ =>
            modify (Score.id existing_score)
              (Score.set_week week_points week_cost)
        | [] =>
            existing_scores <-
              exec (fun s => Score.player_id s =? Player.id player) ;;
            let total_points :=
              sum_net existing_scores + week_points - week_cost in
            insert (Player.id player) gameweek week_points week_cost
              total_points
        end
  | _, _ => ret tt
  end.

(** [int(form_data.get("gameweek", 1))] *)
Definition form_gameweek (form_data : FormData) : option Z :=
  match form_get "gameweek" form_data with
  | Some v => parse_int v
  | None => Some 1
  end.

Definition create_scores_bulk (form_data : FormData) : M Response :=
  gameweek <-
    match form_gameweek form_data with
    | Some n => ret n
    | None => raise ValueError
    end ;;
  players <- exec_players ;;
  for_each players (bulk_player form_data gameweek) ;;
  commit ;;
  ret (RedirectResponse "/scores" 302).

(** ** main.py: scores *)

(** The template context of the scores page. *)
Record ScoresContext : Type := mkScoresContext {
  ctx_scores : list Score.t;
  ctx_players : list Player.t;
  ctx_max_gameweek : Z;
  ctx_next_gameweek : Z;
  ctx_player_id : option Z;
  ctx_gameweek : option Z
}.

(** [max] of a list, 0 for the empty one as the handler has it *)
Definition max_or_zero (l : list Z) : Z :=
  match l with
  | [] => 0
  | x :: l' => fold_left Z.max l' x
  end.

(** One optional query parameter, as [if v and v.strip(): try: int(v) ...
    except ValueError: pass] reads it: the integer it denotes when it is
    given, not blank and [int] accepts it, nothing otherwise. *)
Definition filter_value (v : option string) : option Z :=
  match v with
  | Some s =>
      if truthy v && truthy (Some (strip s)) then parse_int s else None
  | None => None
  end.

(** A query value within the model: ASCII text, and when [int] reads it, an
    integer that SQLite can take. *)
Definition bindable (v : option string) : Prop :=
  match v with
  | Some s =>
      isascii s = true /\ forall n, parse_int s = Some n -> sqlite_integer n
  | None => True
  end.

(** [query.where(column == n)], added when the parameter gave an integer *)
Definition where_eq (column : Score.t -> Z) (v : option Z)
  (query : Score.t -> bool) : Score.t -> bool :=
  match v with
  | Some n => fun s => query s && (column s =? n)
  | None => query
  end.

Definition scores (player_id gameweek : option string) : M ScoresContext :=
  let query := fun _ : Score.t => true in
  let player_id_int := filter_value player_id in
  let query := where_eq Score.player_id player_id_int query in
  let gameweek_int := filter_value gameweek in
  let query := where_eq Score.gameweek gameweek_int query in
  scores <- exec query ;;
  players <- exec_players ;;
  all_scores <- exec (fun _ => true) ;;
  let gameweeks :=
    match all_scores with
    | [] => [0]
    | _ => map Score.gameweek all_scores
    end in
  let max_gameweek := max_or_zero gameweeks in
  let next_gameweek := max_gameweek + 1 in
  ret (mkScoresContext scores players max_gameweek next_gameweek
         player_id_int gameweek_int).

(** ** The cumulative total

    [cumulative l p g] is the sum of [week_points - week_cost] over the rows
    of player [p] with a gameweek up to [g]; [invariant l] says every row
    carries it as its [overall_points]. *)

Definition up_to (p g : Z) (s : Score.t) : bool :=
  (Score.player_id s =? p) && (Score.gameweek s <=? g).

Definition cumulative (l : list Score.t) (p g : Z) : Z :=
  sum_net (filter (up_to p g) l).

Definition invariant (l : list Score.t) : Prop :=
  forall r, In r l ->
    Score.overall_points r = cumulative l (Score.player_id r) (Score.gameweek r).

Definition invariantb (l : list Score.t) : bool :=
  forallb (fun r => Score.overall_points r
                    =? cumulative l (Score.player_id r) (Score.gameweek r)) l.

(** Primary keys: no two rows of a table share an id. *)
Definition unique_ids (db : Database) : Prop :=
  NoDup (map Player.id (players_table db))
  /\ NoDup (map Score.id (scores_table db)).

(** The Cumulative Recalculator as the specification words it: give the
    edited row its new fields and the total of the new player's other rows
    up to the new gameweek plus its own net points, then give every later
    row of that player the total over all of the player's rows up to its
    gameweek. *)
Definition recalculate (score_id new_player_id new_gameweek new_points new_cost : Z)
  (l : list Score.t) : list Score.t :=
  let gathered :=
    filter (fun s => up_to new_player_id new_gameweek s
                     && negb (Score.id s =? score_id)) l in
  let total := sum_net gathered + (new_points - new_cost) in
  let edited :=
    update_rows score_id
      (Score.set_all new_player_id new_gameweek new_points new_cost total) l in
  map (fun r =>
         if (Score.player_id r =? new_player_id)
            && (new_gameweek <? Score.gameweek r)
         then Score.set_overall_points
                (cumulative edited new_player_id (Score.gameweek r)) r
         else r)
      edited.

(** [recalculate] row by row. *)
Definition edited_row (score_id p g wp wc : Z) (l : list Score.t)
  : Score.t -> Score.t :=
  Score.set_all p g wp wc
    (sum_net (filter (fun s => up_to p g s && negb (Score.id s =? score_id)) l)
     + (wp - wc)).

Definition row_after (score_id p g wp wc : Z) (l : list Score.t) (r : Score.t)
  : Score.t :=
  if Score.id r =? score_id then edited_row score_id p g wp wc l r
  else if (Score.player_id r =? p) && (g <? Score.gameweek r)
       then Score.set_overall_points
              (cumulative (update_rows score_id (edited_row score_id p g wp wc l) l)
                 p (Score.gameweek r)) r
       else r.

(** Whether every row that [recalculate] rewrites passes the constraints on
    the columns it changes. *)
Fixpoint rows_ok (old new : list Score.t) : bool :=
  match old, new with
  | r :: old', r' :: new' => Score.check_update r r' && rows_ok old' new'
  | _, _ => true
  end.

(** The rows [w] once the loop of [update_score] has gone through [subs]:
    the rows whose id is in [subs] carry their recomputed total. *)
Definition recomputed (p : Z) (subs w : list Score.t) (r : Score.t) : Score.t :=
  if existsb (fun x => Score.id x =? Score.id r) subs
  then Score.set_overall_points (cumulative w p (Score.gameweek r)) r
  else r.

(** Whether a row passes a filter of the scores page: an absent filter lets
    every row through. *)
Definition matches (column : Score.t -> Z) (v : option Z) (r : Score.t) : bool :=
  match v with
  | Some n => column r =? n
  | None => true
  end.

(** ** What one round of the bulk loop does to the rows

    [bulk_effect form_data g player w w'] lists the three ways the body of the
    loop of [create_scores_bulk] ends without raising: the player is skipped,
    the first row of the player for gameweek [g] has its points and cost
    overwritten, or a row is appended. *)

(** Both fields are there and not empty. *)
Definition supplied (form_data : FormData) (player : Player.t) : bool :=
  truthy (form_get (week_points_key player) form_data)
  && truthy (form_get (week_cost_key player) form_data).

Inductive bulk_effect (form_data : FormData) (g : Z) (player : Player.t)
  (w : list Score.t) : list Score.t -> Prop :=
| bulk_skip :
    supplied form_data player = false ->
    bulk_effect form_data g player w w
| bulk_overwrite (sp sc : string) (wp wc : Z) (e : Score.t) (rest : list Score.t) :
    supplied form_data player = true ->
    form_get (week_points_key player) form_data = Some sp ->
    form_get (week_cost_key player) form_data = Some sc ->
    parse_int sp = Some wp -> parse_int sc = Some wc ->
    filter (fun s => (Score.player_id s =? Player.id player)
                     && (Score.gameweek s =? g)) w = e :: rest ->
    bulk_effect form_data g player w
      (update_rows (Score.id e) (Score.set_week wp wc) w)
| bulk_create (sp sc : string) (wp wc : Z) :
    supplied form_data player = true ->
    form_get (week_points_key player) form_data = Some sp ->
    form_get (week_cost_key player) form_data = Some sc ->
    parse_int sp = Some wp -> parse_int sc = Some wc ->
    filter (fun s => (Score.player_id s =? Player.id player)
                     && (Score.gameweek s =? g)) w = [] ->
    bulk_effect form_data g player w
      (w ++ [Score.mk (next_id w) (Player.id player) g wp wc
               (sum_net (filter (fun s => Score.player_id s =? Player.id player) w)
                + wp - wc)]).

Inductive bulk_effects (form_data : FormData) (g : Z)
  : list Player.t -> list Score.t -> list Score.t -> Prop :=
| bulk_done (w : list Score.t) : bulk_effects form_data g [] w w
| bulk_next (player : Player.t) (rest : list Player.t) (w w1 w' : list Score.t) :
    bulk_effect form_data g player w w1 ->
    bulk_effects form_data g rest w1 w' ->
    bulk_effects form_data g (player :: rest) w w'.

(** ** Reachable databases

    The databases that bulk uploads and updates produce from an empty scores
    table. *)
Inductive reachable : Database -> Prop :=
| reach_empty (pl : list Player.t) : reachable (mkDatabase pl [])
| reach_bulk (db : Database) (form_data : FormData) :
    reachable db -> reachable (snd (run (create_scores_bulk form_data) db))
| reach_update (db : Database) (score_id player_id gameweek week_points week_cost : Z) :
    reachable db ->
    reachable (snd (run (update_score score_id player_id gameweek week_points
                           week_cost) db)).

(** The two conditions under which a request is known to keep every total
    right. *)
Definition keeps_order (db : Database) (score_id p g : Z) : Prop :=
  exists old,
    find_score score_id (scores_table db) = Some old
    /\ Score.player_id old = p /\ g <= Score.gameweek old
    /\ forall r, In r (scores_table db) -> Score.player_id r = p ->
                 Score.gameweek r = g -> Score.id r = score_id.

Definition appends_gameweek (db : Database) (form_data : FormData) : Prop :=
  forall g, form_gameweek form_data = Some g ->
  forall player, In player (players_table db) ->
    supplied form_data player = true ->
    forall r, In r (scores_table db) ->
      Score.player_id r = Player.id player -> Score.gameweek r < g.

(** The databases those requests produce from an empty scores table. *)
Inductive reachable_in_order : Database -> Prop :=
| order_empty (pl : list Player.t) :
    NoDup (map Player.id pl) -> reachable_in_order (mkDatabase pl [])
| order_bulk (db : Database) (form_data : FormData) :
    reachable_in_order db -> appends_gameweek db form_data ->
    reachable_in_order (snd (run (create_scores_bulk form_data) db))
| order_update (db : Database)
    (score_id player_id gameweek week_points week_cost : Z) :
    reachable_in_order db -> keeps_order db score_id player_id gameweek ->
    reachable_in_order
      (snd (run (update_score score_id player_id gameweek week_points
                   week_cost) db)).

(** ** Example data: the player and the gameweeks of the specification *)

Definition league : list Player.t :=
  [Player.mk 1 "P" "Reds"; Player.mk 2 "Q" "Blues"].

Definition spec_example : Database :=
  mkDatabase league [Score.mk 1 1 1 50 0 50; Score.mk 2 1 2 40 5 85].

Definition week1_form : FormData :=
  [("gameweek", "1"); ("week_points_1", "50"); ("week_cost_1", "0")].

Definition week1_again_form : FormData :=
  [("gameweek", "1"); ("week_points_1", "60"); ("week_cost_1", "0")].

Definition week2_form : FormData :=
  [("gameweek", "2"); ("week_points_1", "40"); ("week_cost_1", "5")].

Definition week3_form : FormData :=
  [("gameweek", "3"); ("week_points_1", "30"); ("week_cost_1", "10")].

(** Gameweek 1 uploaded twice for player 1. *)
Definition uploaded_twice : Database :=
  snd (run (create_scores_bulk week1_again_form)
         (snd (run (create_scores_bulk week1_form) (mkDatabase league [])))).

(** Player 1 with a score for gameweek 2 only. *)
Definition late_start : Database :=
  mkDatabase league [Score.mk 1 1 2 40 5 35].

(** Two players with scores, and a second upload for gameweek 2. *)
Definition two_players : Database :=
  mkDatabase league
    [Score.mk 1 1 1 50 0 50; Score.mk 2 2 1 20 0 20; Score.mk 3 1 2 40 5 85].

Definition week2_again_form : FormData :=
  [("gameweek", "2"); ("week_points_1", "45"); ("week_cost_1", "5")].

(** ** More of main.py

    The handlers the properties above do not need: the players handlers,
    the credentials check, the dashboard. *)

From Stdlib Require DecimalPos DecimalZ.

(** ** main.py: the players handlers *)

Module PlayerForm.

Record t : Type := mk {
  name : string;
  team : string
}.

(** [PlayerForm()]: both fields default to the empty string. *)
Definition default : t := mk "" "".

End PlayerForm.

(** [session.get(Player, id)] *)
Definition find_player (id : Z) (l : list Player.t) : option Player.t :=
  find (fun p => Player.id p =? id) l.

Definition session_get_player (id : Z) : M (option Player.t) :=
  fun s => (inr (find_player id (players_table (view s))), s).

Definition set_players (l : list Player.t) (s : Session) : Session :=
  mkSession (stored s) (mkDatabase l (scores_table (view s))).

(** [session.add] of a new [Player]: the row gets the rowid after the largest
    one in use, as a new score does. *)
Definition next_player_id (l : list Player.t) : Z :=
  match l with
  | [] => 1
  | p :: l' => fold_left Z.max (map Player.id l') (Player.id p) + 1
  end.

Definition insert_player (name team : string) : M unit :=
  fun s =>
    let l := players_table (view s) in
    (inr tt, set_players (l ++ [Player.mk (next_player_id l) name team]) s).

(** Assigning attributes of the loaded player [id]. *)
Definition modify_player (id : Z) (f : Player.t -> Player.t) : M unit :=
  fun s =>
    (inr tt,
     set_players
       (map (fun p => if Player.id p =? id then f p else p)
          (players_table (view s))) s).

(** [session.delete(player)].  [Player.scores] is a relationship without a
    delete cascade: when the player is flushed away, the rows of
    [player.scores] are first given [player_id = None], and the column
    [scores.player_id], declared [int], is NOT NULL.  So the flush raises
    when the player still has a score, and removes the player otherwise. *)
Definition delete_player_row (id : Z) : M unit :=
  fun s =>
    if existsb (fun r => Score.player_id r =? id) (scores_table (view s))
    then (inl IntegrityError, s)
    else
      (inr tt,
       set_players
         (filter (fun p => negb (Player.id p =? id)) (players_table (view s))) s).

(** The template context of the players page. *)
Record PlayersContext : Type := mkPlayersContext {
  pctx_players : list Player.t;
  pctx_form : PlayerForm.t;
  pctx_title : string
}.

Definition players : M PlayersContext :=
  players <- exec_players ;;
  let form := PlayerForm.default in
  ret (mkPlayersContext players form "Players").

Definition create_player (name team : string) : M Response :=
  insert_player name team ;;
  commit ;;
  ret (RedirectResponse "/players" 302).

Definition update_player (player_id : Z) (name team : string) : M Response :=
  player <- session_get_player player_id ;;
  match player with
  | None => raise (HTTPException 404 "Player not found")
  | Some _ =>
      modify_player player_id (fun p => Player.mk (Player.id p) name team) ;;
      commit ;;
      ret (RedirectResponse "/players" 302)
  end.

Definition delete_player (player_id : Z) : M Response :=
  player <- session_get_player player_id ;;
  match player with
  | None => raise (HTTPException 404 "Player not found")
  | Some _ =>
      delete_player_row player_id ;;
      commit ;;
      ret (RedirectResponse "/players" 302)
  end.

Definition delete_player_form (player_id : Z) : M Response :=
  player <- session_get_player player_id ;;
  match player with
  | None => raise (HTTPException 404 "Player not found")
  | Some _ =>
      delete_player_row player_id ;;
      commit ;;
      ret (RedirectResponse "/players" 302)
  end.

(** ** main.py: the routes that write, and who may use them *)

(** One constructor per decorated handler that writes, with the parameters
    FastAPI has read from the path and the form. *)
Inductive Request : Type :=
| PostPlayers (name team : string)
| PostPlayer (player_id : Z) (name team : string)
| DeletePlayer (player_id : Z)
| PostPlayerDelete (player_id : Z)
| PostScores (form_data : FormData)
| PostScore (score_id player_id gameweek week_points week_cost : Z)
| DeleteScore (score_id : Z)
| PostScoreDelete (score_id : Z).

(** [Form(...)] on a [str] parameter: FastAPI takes an empty value for a
    missing one and answers 422 without calling the handler. *)
Definition required (fields : list string) (handler : M Response) : M Response :=
  if existsb (fun v => String.eqb v "") fields
  then raise RequestValidationError
  else handler.

Definition route (request : Request) : M Response :=
  match request with
  | PostPlayers name team => required [name; team] (create_player name team)
  | PostPlayer player_id name team =>
      required [name; team] (update_player player_id name team)
  | DeletePlayer player_id => delete_player player_id
  | PostPlayerDelete player_id => delete_player_form player_id
  | PostScores form_data => create_scores_bulk form_data
  | PostScore score_id player_id gameweek week_points week_cost =>
      update_score score_id player_id gameweek week_points week_cost
  | DeleteScore score_id => delete_score score_id
  | PostScoreDelete score_id => delete_score_form score_id
  end.

(** A step that does not commit, and a handler that commits nothing before
    it raises. *)
Definition keeps_stored {A : Type} (m : M A) : Prop :=
  forall s, stored (snd (m s)) = stored s.

Definition raises_before_commit {A : Type} (m : M A) : Prop :=
  forall s e s', m s = (inl e, s') -> stored s' = stored s.

(** [os.getenv(key, default)] on the environment the process started with. *)
Definition Environ : Type := list (string * string).

Fixpoint getenv (environ : Environ) (key default : string) : string :=
  match environ with
  | [] => default
  | (k, v) :: rest => if String.eqb k key then v else getenv rest key default
  end.

Definition ADMIN_USERNAME (environ : Environ) : string :=
  getenv environ "ADMIN_USERNAME" "admin".

Definition ADMIN_PASSWORD (environ : Environ) : string :=
  getenv environ "ADMIN_PASSWORD" "password".

(** [secrets.compare_digest] on two [str]: equality, and a [TypeError]
    ([None]) when one of them has a character beyond ASCII. *)
Definition compare_digest (a b : string) : option bool :=
  if isascii a && isascii b then Some (String.eqb a b) else None.

Record HTTPBasicCredentials : Type := mkCredentials {
  username : string;
  password : string
}.

Inductive auth_exn : Type :=
| Unauthorized (status_code : Z) (detail : string) (www_authenticate : string)
| TypeError.

Definition get_current_user (environ : Environ)
  (credentials : HTTPBasicCredentials) : auth_exn + string :=
  match compare_digest (username credentials) (ADMIN_USERNAME environ) with
  | None => inl TypeError
  | Some is_correct_username =>
      match compare_digest (password credentials) (ADMIN_PASSWORD environ) with
      | None => inl TypeError
      | Some is_correct_password =>
          if negb (is_correct_username && is_correct_password)
          then inl (Unauthorized 401 "Incorrect username or password" "Basic")
          else inr (username credentials)
      end
  end.

(** A writing handler declares [Depends(get_current_user)]: the dependency is
    resolved before the body runs, and the body does not run when it raises. *)
Definition authorized (environ : Environ) (credentials : HTTPBasicCredentials)
  (request : Request) (db : Database)
  : (auth_exn + (exn + Response)) * Database :=
  match get_current_user environ credentials with
  | inl e => (inl e, db)
  | inr _ => let (r, db') := run (route request) db in (inr r, db')
  end.

(** [s.split(sep)] for a separator of one character, and [s.split(":", 1)]. *)
Fixpoint split (sep : ascii) (s : string) : list string :=
  match s with
  | EmptyString => [EmptyString]
  | String c s' =>
      if Ascii.eqb c sep then EmptyString :: split sep s'
      else match split sep s' with
           | head :: tail => String c head :: tail
           | [] => [String c EmptyString]
           end
  end.

Fixpoint split_once (sep : ascii) (s : string) : list string :=
  match s with
  | EmptyString => [EmptyString]
  | String c s' =>
      if Ascii.eqb c sep then [EmptyString; s']
      else match split_once sep s' with
           | head :: tail => String c head :: tail
           | [] => [String c EmptyString]
           end
  end.

(** [get_optional_user], on the value of the [authorization] header.
    [b64decode] stands for [base64.b64decode(s).decode("utf-8")] of the
    standard library, [None] when it raises; whatever is raised inside the
    [try] gives [None]. *)
Definition get_optional_user (b64decode : string -> option string)
  (environ : Environ) (auth_header : option string) : option string :=
  match auth_header with
  | None => None
  | Some header =>
      if negb (truthy auth_header) || negb (prefix "Basic " header) then None
      else
        match nth_error (split " " header) 1 with
        | None => None
        | Some encoded_credentials =>
            match b64decode encoded_credentials with
            | None => None
            | Some decoded_credentials =>
                match split_once ":" decoded_credentials with
                | [username; password] =>
                    match compare_digest username (ADMIN_USERNAME environ),
                          compare_digest password (ADMIN_PASSWORD environ) with
                    | Some is_correct_username, Some is_correct_password =>
                        if is_correct_username && is_correct_password
                        then Some username
                        else None
                    | _, _ => None
                    end
                | _ => None
                end
            end
        end
  end.

(** What [add_auth_context] puts into a template context. *)
Record AuthContext : Type := mkAuthContext {
  is_admin : bool;
  current_user : option string
}.

Definition add_auth_context (b64decode : string -> option string)
  (environ : Environ) (auth_header : option string) : AuthContext :=
  let current_user := get_optional_user b64decode environ auth_header in
  let is_admin :=
    match current_user with
    | Some _ => true
    | None => false
    end in
  mkAuthContext is_admin current_user.

(** ** What identifies a score across an upload *)

Definition row_key (r : Score.t) : Z * Z * Z :=
  (Score.id r, Score.player_id r, Score.gameweek r).

(** ** main.py: dashboard *)

From Stdlib Require QArith_base.
From Stdlib Require Import Sorted Permutation.

(** A [dict] as the list of its items in insertion order; assigning to a key
    that is there keeps its place. *)
Section Dict.

Context {K V : Type} (eqb : K -> K -> bool).

Fixpoint dict_get (k : K) (d : list (K * V)) : option V :=
  match d with
  | [] => None
  | (k', v) :: d' => if eqb k' k then Some v else dict_get k d'
  end.

Fixpoint dict_set (k : K) (v : V) (d : list (K * V)) : list (K * V) :=
  match d with
  | [] => [(k, v)]
  | (k', v') :: d' =>
      if eqb k' k then (k', v) :: d' else (k', v') :: dict_set k v d'
  end.

(** [s.add(x)] on a [set], kept as the list of its elements. *)
Definition set_add (x : K) (s : list K) : list K :=
  if existsb (eqb x) s then s else s ++ [x].

End Dict.

(** [sorted(xs)]: a stable insertion into the sorted rest. *)
Fixpoint insert_sorted {A : Type} (leb : A -> A -> bool) (x : A) (l : list A)
  : list A :=
  match l with
  | [] => [x]
  | y :: l' => if leb x y then x :: l else y :: insert_sorted leb x l'
  end.

Definition sorted {A : Type} (leb : A -> A -> bool) (l : list A) : list A :=
  fold_right (insert_sorted leb) [] l.

(** [select(Score, Player).join(Player)]: every score with the player its
    [player_id] names, in the order
    [order_by(Score.gameweek, Player.team, Player.name)]. *)
Definition join (db : Database) : list (Score.t * Player.t) :=
  flat_map
    (fun s => map (pair s)
                (filter (fun p => Player.id p =? Score.player_id s)
                   (players_table db)))
    (scores_table db).

Definition row_leb (a b : Score.t * Player.t) : bool :=
  (Score.gameweek (fst a) <? Score.gameweek (fst b))
  || ((Score.gameweek (fst a) =? Score.gameweek (fst b))
      && (String.ltb (Player.team (snd a)) (Player.team (snd b))
          || (String.eqb (Player.team (snd a)) (Player.team (snd b))
              && String.leb (Player.name (snd a)) (Player.name (snd b))))).

Definition exec_join : M (list (Score.t * Player.t)) :=
  fun s => (inr (sorted row_leb (join (view s))), s).

(** [d[team][gameweek] += v] on a [defaultdict(lambda: defaultdict(int))], and
    [d[team].get(gameweek, 0)]. *)
Definition TeamData : Type := list (string * list (Z * Z)).

Definition team_data_get (team : string) (gameweek : Z) (d : TeamData) : Z :=
  match dict_get String.eqb team d with
  | Some inner =>
      match dict_get Z.eqb gameweek inner with
      | Some v => v
      | None => 0
      end
  | None => 0
  end.

Definition team_data_add (team : string) (gameweek v : Z) (d : TeamData)
  : TeamData :=
  let inner :=
    match dict_get String.eqb team d with
    | Some inner => inner
    | None => []
    end in
  let old :=
    match dict_get Z.eqb gameweek inner with
    | Some x => x
    | None => 0
    end in
  dict_set String.eqb team (dict_set Z.eqb gameweek (old + v) inner) d.

(** What the first loop of [dashboard] gathers. *)
Record Tally : Type := mkTally {
  teams : list string;
  gameweeks : list Z;
  team_weekly_data : TeamData;
  team_overall_data : TeamData
}.

Definition tally_row (t : Tally) (row : Score.t * Player.t) : Tally :=
  let (score, player) := row in
  mkTally
    (set_add String.eqb (Player.team player) (teams t))
    (set_add Z.eqb (Score.gameweek score) (gameweeks t))
    (team_data_add (Player.team player) (Score.gameweek score)
       (Score.week_points score) (team_weekly_data t))
    (team_data_add (Player.team player) (Score.gameweek score)
       (Score.overall_points score) (team_overall_data t)).

Definition tally (scores : list (Score.t * Player.t)) : Tally :=
  fold_left tally_row scores (mkTally [] [] [] []).

Module Dataset.

Record t : Type := mk {
  label : string;
  data : list Z;
  borderColor : string;
  backgroundColor : string;
  tension : QArith_base.Q;
  fill : bool
}.

End Dataset.

Module Chart.

Record t : Type := mk {
  labels : list Z;
  datasets : list Dataset.t
}.

End Chart.

Definition colors : list string :=
  ["#FF6384"; "#36A2EB"; "#FFCE56"; "#4BC0C0"; "#9966FF";
   "#FF9F40"; "#FF6384"; "#C9CBCF"; "#4BC0C0"; "#FF6384"].

(** [colors[i % len(colors)]] *)
Definition color (i : nat) : string :=
  nth (i mod List.length colors) colors "".

(** [enumerate(xs)] *)
Definition enumerate {A : Type} (l : list A) : list (nat * A) :=
  combine (seq 0 (List.length l)) l.

(** The dataset every chart line is: the float [0.4] of [tension] is kept as
    the fraction it is written as. *)
Definition dataset (i : nat) (team : string) (data : list Z) : Dataset.t :=
  Dataset.mk team data (color i) (color i ++ "20")%string
    (QArith_base.Qmake 4 10) false.

(** [sum(xs)] of integers *)
Definition sum_of (l : list Z) : Z := fold_left Z.add l 0.

(** The rows of a team at a gameweek: [player.team == team and
    score.gameweek == gw]. *)
Definition at_team_gameweek (team : string) (gameweek : Z)
  (row : Score.t * Player.t) : bool :=
  String.eqb (Player.team (snd row)) team
  && (Score.gameweek (fst row) =? gameweek).

(** The inner loop of the overall chart: the total of the team at a gameweek
    the team has scores for, the total before otherwise. *)
Definition cumulative_step (scores : list (Score.t * Player.t)) (team : string)
  (state : Z * list Z) (gw : Z) : Z * list Z :=
  let (cumulative_sum, cumulative_data) := state in
  let team_players_at_gw :=
    map (fun row => Score.overall_points (fst row))
      (filter (at_team_gameweek team gw) scores) in
  let cumulative_sum :=
    match team_players_at_gw with
    | [] => cumulative_sum
    | _ :: _ => sum_of team_players_at_gw
    end in
  (cumulative_sum, cumulative_data ++ [cumulative_sum]).

Definition cumulative_data (scores : list (Score.t * Player.t)) (team : string)
  (sorted_gameweeks : list Z) : list Z :=
  snd (fold_left (cumulative_step scores team) sorted_gameweeks (0, [])).

(** What a line of the overall chart shows at gameweek [g] after the value
    [before]. *)
Definition shown (scores : list (Score.t * Player.t)) (team : string)
  (before g : Z) : Z :=
  if existsb (at_team_gameweek team g) scores
  then sum_of (map (fun row => Score.overall_points (fst row))
                 (filter (at_team_gameweek team g) scores))
  else before.

(** The template context of the dashboard; the two charts are the values
    that [json.dumps] then writes out. *)
Record DashboardContext : Type := mkDashboardContext {
  dctx_title : string;
  weekly_chart_data : Chart.t;
  overall_chart_data : Chart.t;
  dctx_auth : AuthContext
}.

Definition dashboard (b64decode : string -> option string) (environ : Environ)
  (auth_header : option string) : M DashboardContext :=
  scores <- exec_join ;;
  let t := tally scores in
  let sorted_teams := sorted String.leb (teams t) in
  let sorted_gameweeks :=
    match gameweeks t with
    | [] => [1]
    | _ :: _ => sorted Z.leb (gameweeks t)
    end in
  let weekly_chart_data :=
    Chart.mk sorted_gameweeks
      (map (fun it : nat * string =>
              let (i, team) := it in
              let weekly_data :=
                map (fun gw => team_data_get team gw (team_weekly_data t))
                  sorted_gameweeks in
              dataset i team weekly_data)
         (enumerate sorted_teams)) in
  let overall_chart_data :=
    Chart.mk sorted_gameweeks
      (map (fun it : nat * string =>
              let (i, team) := it in
              dataset i team (cumulative_data scores team sorted_gameweeks))
         (enumerate sorted_teams)) in
  ret (mkDashboardContext "Dashboard" weekly_chart_data overall_chart_data
         (add_auth_context b64decode environ auth_header)).

(** * Properties *)

(** ** Sums and row lists *)

Lemma fold_net_shift (l : list Score.t) (a : Z) :
  fold_left (fun acc s => acc + net s) l a = a + sum_net l.
Proof.
  unfold sum_net. revert a.
  induction l as [|x l IH]; intro a; simpl.
  - lia.
  - rewrite (IH (a + net x)), (IH (net x)). lia.
Qed.

Lemma sum_net_cons (x : Score.t) (l : list Score.t) :
  sum_net (x :: l) = net x + sum_net l.
Proof. unfold sum_net at 1. simpl. apply fold_net_shift. Qed.

Lemma sum_net_app (l1 l2 : list Score.t) :
  sum_net (l1 ++ l2) = sum_net l1 + sum_net l2.
Proof.
  induction l1 as [|x l1 IH]; simpl.
  - reflexivity.
  - rewrite !sum_net_cons, IH. lia.
Qed.

(** A filtered sum only looks at what the filter and [net] look at. *)
Lemma sum_net_filter_map (P Q : Score.t -> bool) (f : Score.t -> Score.t)
  (l : list Score.t) :
  (forall r, In r l -> Q (f r) = P r /\ (P r = true -> net (f r) = net r)) ->
  sum_net (filter Q (map f l)) = sum_net (filter P l).
Proof.
  induction l as [|x l IH]; intro H; simpl.
  - reflexivity.
  - destruct (H x (or_introl eq_refl)) as [HQ Hn].
    assert (IH' := IH (fun r Hr => H r (or_intror Hr))).
    rewrite HQ. destruct (P x); [|exact IH'].
    rewrite !sum_net_cons, Hn, IH' by reflexivity. reflexivity.
Qed.

Lemma sum_net_filter_ext (P Q : Score.t -> bool) (l : list Score.t) :
  (forall r, In r l -> Q r = P r) ->
  sum_net (filter Q l) = sum_net (filter P l).
Proof.
  intro H. rewrite <- (map_id l) at 1.
  apply sum_net_filter_map. intros r Hr. split; [now apply H | reflexivity].
Qed.

Lemma map_id_update_rows (id : Z) (f : Score.t -> Score.t) (l : list Score.t) :
  (forall r, Score.id (f r) = Score.id r) ->
  map Score.id (update_rows id f l) = map Score.id l.
Proof.
  intro Hf. unfold update_rows. rewrite map_map. apply map_ext.
  intro r. destruct (Score.id r =? id); [apply Hf | reflexivity].
Qed.

Lemma unique_row (l : list Score.t) (x y : Score.t) :
  NoDup (map Score.id l) -> In x l -> In y l -> Score.id x = Score.id y -> x = y.
Proof.
  induction l as [|a l IH]; simpl; intros Hnd Hx Hy Hid.
  - contradiction.
  - inversion Hnd as [|a' l' Hnotin Hnd']; subst.
    destruct Hx as [Hx | Hx], Hy as [Hy | Hy]; subst.
    + reflexivity.
    + exfalso. apply Hnotin. rewrite Hid. now apply in_map.
    + exfalso. apply Hnotin. rewrite <- Hid. now apply in_map.
    + now apply IH.
Qed.

Lemma find_score_In (id : Z) (l : list Score.t) (r : Score.t) :
  find_score id l = Some r -> In r l /\ Score.id r = id.
Proof.
  unfold find_score. intro H. apply find_some in H.
  destruct H as [Hin Heq]. split; [assumption | lia].
Qed.

Lemma find_score_None (id : Z) (l : list Score.t) :
  find_score id l = None -> forall r, In r l -> Score.id r <> id.
Proof.
  unfold find_score. intros H r Hr Heq.
  pose proof (find_none _ _ H r Hr) as Hn. simpl in Hn. lia.
Qed.

Lemma find_score_unique (l : list Score.t) (r : Score.t) :
  NoDup (map Score.id l) -> In r l -> find_score (Score.id r) l = Some r.
Proof.
  intros Hnd Hin.
  destruct (find_score (Score.id r) l) as [x|] eqn:E.
  - apply find_score_In in E. destruct E as [Hx Hid].
    f_equal. now apply (unique_row l).
  - exfalso. now apply (find_score_None _ _ E r Hin).
Qed.

Lemma insert_by_gameweek_In (x r : Score.t) (l : list Score.t) :
  In x (insert_by_gameweek r l) <-> x = r \/ In x l.
Proof.
  induction l as [|y l IH]; simpl.
  - intuition congruence.
  - destruct (Score.gameweek r <=? Score.gameweek y); simpl.
    + intuition congruence.
    + rewrite IH. intuition congruence.
Qed.

Lemma order_by_gameweek_In (x : Score.t) (l : list Score.t) :
  In x (order_by_gameweek l) <-> In x l.
Proof.
  induction l as [|y l IH]; simpl.
  - reflexivity.
  - rewrite insert_by_gameweek_In, IH. intuition congruence.
Qed.

Lemma rows_ok_map (f : Score.t -> Score.t) (l : list Score.t) :
  rows_ok l (map f l) = forallb (fun r => Score.check_update r (f r)) l.
Proof. induction l as [|x l IH]; simpl; [|rewrite IH]; reflexivity. Qed.

Lemma check_update_refl (r : Score.t) : Score.check_update r r = true.
Proof. unfold Score.check_update. rewrite !Z.eqb_refl. reflexivity. Qed.

Lemma forallb_map {A B : Type} (f : B -> bool) (g : A -> B) (l : list A) :
  forallb f (map g l) = forallb (fun a => f (g a)) l.
Proof. induction l as [|x l IH]; simpl; [|rewrite IH]; reflexivity. Qed.

Lemma forallb_ext_in {A : Type} (f g : A -> bool) (l : list A) :
  (forall a, In a l -> f a = g a) -> forallb f l = forallb g l.
Proof.
  induction l as [|x l IH]; simpl; intro H.
  - reflexivity.
  - rewrite (H x) by now left. rewrite IH by (intros; apply H; now right).
    reflexivity.
Qed.

(** ** Running a handler *)


Lemma bind_inr {A B : Type} (m : M A) (k : A -> M B) (s s' : Session) (a : A) :
  m s = (inr a, s') -> bind m k s = k a s'.
Proof. unfold bind. intros ->. reflexivity. Qed.

Lemma bind_inl {A B : Type} (m : M A) (k : A -> M B) (s s' : Session) (e : exn) :
  m s = (inl e, s') -> bind m k s = (inl e, s').
Proof. unfold bind. intros ->. reflexivity. Qed.

Lemma set_scores_twice (l1 l2 : list Score.t) (s : Session) :
  set_scores l2 (set_scores l1 s) = set_scores l2 s.
Proof. reflexivity. Qed.

(** ** update_score: the loop and the whole request *)

Lemma cumulative_map (f : Score.t -> Score.t) (l : list Score.t) (p g : Z) :
  (forall r, In r l ->
     Score.player_id (f r) = Score.player_id r
     /\ Score.gameweek (f r) = Score.gameweek r /\ net (f r) = net r) ->
  cumulative (map f l) p g = cumulative l p g.
Proof.
  intro H. unfold cumulative. apply sum_net_filter_map.
  intros r Hr. destruct (H r Hr) as (H1 & H2 & H3).
  unfold up_to. rewrite H1, H2. now split.
Qed.

Lemma cumulative_update_overall (id : Z) (v : Score.t -> Z) (l : list Score.t) (p g : Z) :
  cumulative (map (fun r => if Score.id r =? id
                            then Score.set_overall_points (v r) r else r) l) p g
  = cumulative l p g.
Proof.
  apply cumulative_map. intros r _.
  destruct (Score.id r =? id); repeat split; reflexivity.
Qed.

Lemma rows_ok_refl (l : list Score.t) : rows_ok l l = true.
Proof.
  induction l as [|x l IH]; simpl; [|rewrite check_update_refl, IH]; reflexivity.
Qed.

Lemma forallb_andb {A : Type} (f g : A -> bool) (l : list A) :
  forallb (fun a => f a && g a) l = forallb f l && forallb g l.
Proof.
  induction l as [|x l IH]; simpl; [reflexivity|].
  rewrite IH. destruct (f x), (g x), (forallb f l); reflexivity.
Qed.

Lemma recompute_loop (p : Z) (subs : list Score.t) :
  forall (st : Database) (pl : list Player.t) (w : list Score.t),
  (forall x r, In x subs -> In r w -> Score.id r = Score.id x ->
               Score.gameweek r = Score.gameweek x) ->
  let w' := map (recomputed p subs w) w in
  if rows_ok w w'
  then for_each subs (recompute_subsequent p) (mkSession st (mkDatabase pl w))
       = (inr tt, mkSession st (mkDatabase pl w'))
  else exists s',
         for_each subs (recompute_subsequent p) (mkSession st (mkDatabase pl w))
         = (inl IntegrityError, s') /\ stored s' = st.
Proof.
  induction subs as [|x subs IH]; intros st pl w Hgw; cbv zeta.
  - assert (E : map (recomputed p [] w) w = w).
    { rewrite <- (map_id w) at 3. apply map_ext. reflexivity. }
    rewrite E, rows_ok_refl. reflexivity.
  - set (G := Score.set_overall_points (cumulative w p (Score.gameweek x))).
    assert (Hbody : recompute_subsequent p x (mkSession st (mkDatabase pl w))
                    = modify (Score.id x) G (mkSession st (mkDatabase pl w)))
      by reflexivity.
    set (s0 := mkSession st (mkDatabase pl w)) in *.
    assert (Hstep : for_each (x :: subs) (recompute_subsequent p) s0
                    = bind (modify (Score.id x) G)
                        (fun _ => for_each subs (recompute_subsequent p)) s0).
    { cbn [for_each]. unfold bind. rewrite Hbody. reflexivity. }
    rewrite Hstep. clear Hstep Hbody.
    set (G' := fun r => if Score.id r =? Score.id x then G r else r).
    set (w1 := update_rows (Score.id x) G w).
    assert (Hcum : forall g, cumulative w1 p g = cumulative w p g).
    { intro g. unfold w1, update_rows, G.
      apply (cumulative_update_overall (Score.id x)
               (fun _ => cumulative w p (Score.gameweek x))). }
    assert (Hsame : forall r, In r w -> Score.id r = Score.id x ->
                              recomputed p (x :: subs) w r = G r).
    { intros r Hr Hid. unfold recomputed. cbn [existsb].
      rewrite Hid, Z.eqb_refl. cbn [orb]. unfold G.
      rewrite (Hgw x r (or_introl eq_refl) Hr Hid). reflexivity. }
    assert (Hrow : forall r, In r w ->
                     recomputed p subs w1 (G' r) = recomputed p (x :: subs) w r).
    { intros r Hr. unfold G'. destruct (Z.eqb_spec (Score.id r) (Score.id x)) as [Hid|Hid].
      - rewrite (Hsame r Hr Hid). unfold recomputed, G. cbn.
        rewrite Hcum, (Hgw x r (or_introl eq_refl) Hr Hid).
        destruct (existsb _ subs); reflexivity.
      - unfold recomputed. cbn [existsb].
        replace (Score.id x =? Score.id r) with false by (symmetry; apply Z.eqb_neq; congruence).
        cbn [orb]. rewrite Hcum. reflexivity. }
    assert (Hmap : map (recomputed p subs w1) w1 = map (recomputed p (x :: subs) w) w).
    { unfold w1, update_rows. rewrite map_map. apply map_ext_in. exact Hrow. }
    assert (Hok : rows_ok w (map (recomputed p (x :: subs) w) w)
                  = update_ok (Score.id x) G w
                    && rows_ok w1 (map (recomputed p subs w1) w1)).
    { rewrite !rows_ok_map. unfold update_ok.
      rewrite (forallb_map
                 (fun r => Score.check_update r (recomputed p subs w1 r)) G' w
               : forallb _ w1 = _).
      rewrite <- forallb_andb. apply forallb_ext_in.
      intros r Hr. rewrite (Hrow r Hr). unfold G'.
      destruct (Z.eqb_spec (Score.id r) (Score.id x)) as [Hid|Hid]; cbn [negb orb].
      - rewrite (Hsame r Hr Hid), check_update_refl, andb_true_r. reflexivity.
      - reflexivity. }
    rewrite Hok. unfold bind, modify. cbn [view scores_table s0].
    destruct (update_ok (Score.id x) G w) eqn:Eok; cbn [andb].
    + fold w1. unfold set_scores. cbn [stored view players_table].
      assert (Hgw' : forall x0 r, In x0 subs -> In r w1 ->
                       Score.id r = Score.id x0 ->
                       Score.gameweek r = Score.gameweek x0).
      { intros x0 r Hx0 Hr Hid. unfold w1, update_rows in Hr.
        apply in_map_iff in Hr. destruct Hr as (r0 & <- & Hr0).
        assert (E : Score.id (G' r0) = Score.id r0 /\ Score.gameweek (G' r0) = Score.gameweek r0).
        { unfold G'. destruct (Score.id r0 =? Score.id x); split; reflexivity. }
        fold (G' r0) in Hid |- *. destruct E as [E1 E2]. rewrite E2.
        apply (Hgw x0 r0); [now right | assumption | congruence]. }
      specialize (IH st pl w1 Hgw'). cbv zeta in IH.
      destruct (rows_ok w1 (map (recomputed p subs w1) w1));
        [rewrite <- Hmap|]; exact IH.
    + exists s0. split; reflexivity.
Qed.

Lemma existsb_selected (P : Score.t -> bool) (l : list Score.t) (r : Score.t) :
  NoDup (map Score.id l) -> In r l ->
  existsb (fun x => Score.id x =? Score.id r) (order_by_gameweek (filter P l)) = P r.
Proof.
  intros Hnd Hr. destruct (P r) eqn:EP.
  - apply existsb_exists. exists r. split; [|apply Z.eqb_refl].
    apply order_by_gameweek_In, filter_In. now split.
  - destruct (existsb _ _) eqn:E; [|reflexivity].
    apply existsb_exists in E. destruct E as (x & Hx & Hid).
    apply order_by_gameweek_In, filter_In in Hx. destruct Hx as [Hx HP].
    apply Z.eqb_eq in Hid.
    rewrite (unique_row l x r Hnd Hx Hr Hid) in HP. congruence.
Qed.

(** What a request to [update_score] for an existing id does: it answers with
    the redirect and leaves the recalculated table, or a rewritten row fails a
    constraint and the database keeps its rows. *)
Lemma update_score_run (db : Database) (score_id p g wp wc : Z) (old : Score.t) :
  NoDup (map Score.id (scores_table db)) ->
  find_score score_id (scores_table db) = Some old ->
  let l' := recalculate score_id p g wp wc (scores_table db) in
  run (update_score score_id p g wp wc) db
  = if rows_ok (scores_table db) l'
    then (inr (RedirectResponse "/scores" 302), mkDatabase (players_table db) l')
    else (inl IntegrityError, db).
Proof.
  destruct db as [pl l]. cbn [scores_table players_table]. intros Hnd Hfind.
  set (E := Score.set_all p g wp wc
              (sum_net (filter (fun s => up_to p g s && negb (Score.id s =? score_id)) l)
               + (wp - wc))).
  set (E' := fun r => if Score.id r =? score_id then E r else r).
  set (w1 := update_rows score_id E l).
  set (sub := fun s => (Score.player_id s =? p) && (g <? Score.gameweek s)).
  set (subs := order_by_gameweek (filter sub w1)).
  set (H := fun r => if sub r
                     then Score.set_overall_points (cumulative w1 p (Score.gameweek r)) r
                     else r).
  assert (Hrec : recalculate score_id p g wp wc l = map H w1) by reflexivity.
  assert (Hnd1 : NoDup (map Score.id w1)).
  { unfold w1. rewrite map_id_update_rows; [assumption | reflexivity]. }
  assert (Hmap : map (recomputed p subs w1) w1 = map H w1).
  { apply map_ext_in. intros r Hr. unfold recomputed, subs.
    rewrite (existsb_selected sub w1 r Hnd1 Hr). reflexivity. }
  assert (Hok : rows_ok l (map H w1)
                = update_ok score_id E l && rows_ok w1 (map H w1)).
  { rewrite (rows_ok_map H w1). unfold update_ok.
    rewrite (forallb_map (fun r => Score.check_update r (H r)) E' l
             : forallb _ w1 = _).
    rewrite <- forallb_andb.
    change (map H w1) with (map H (map E' l)). rewrite map_map, rows_ok_map.
    apply forallb_ext_in. intros r _. unfold E'.
    destruct (Score.id r =? score_id); cbn [negb orb].
    - assert (HE : H (E r) = E r).
      { unfold H, sub, E. cbn. rewrite Z.ltb_irrefl, andb_false_r. reflexivity. }
      rewrite HE, check_update_refl, andb_true_r. reflexivity.
    - reflexivity. }
  cbv zeta. rewrite Hrec, Hok.
  unfold run, update_score.
  unfold bind at 1. unfold session_get at 1. cbn [view scores_table].
  rewrite Hfind.
  unfold bind at 1. unfold exec at 1. cbn [view scores_table].
  unfold bind at 1. unfold modify at 1. cbn [view scores_table].
  change (Score.set_all p g wp wc _) with E.
  destruct (update_ok score_id E l); cbn [andb]; [|reflexivity].
  fold w1. unfold set_scores. cbn [stored view players_table].
  unfold bind at 1. unfold exec_order_by_gameweek at 1. cbn [view scores_table].
  fold sub. fold subs.
  assert (Hgw : forall x r, In x subs -> In r w1 -> Score.id r = Score.id x ->
                            Score.gameweek r = Score.gameweek x).
  { intros x r Hx Hr Hid. apply order_by_gameweek_In, filter_In in Hx.
    destruct Hx as [Hx _]. now rewrite (unique_row w1 r x Hnd1 Hr Hx Hid). }
  pose proof (recompute_loop p subs (mkDatabase pl l) pl w1 Hgw) as Hloop.
  cbv zeta in Hloop. rewrite Hmap in Hloop.
  unfold bind at 1.
  destruct (rows_ok w1 (map H w1)).
  - rewrite Hloop. reflexivity.
  - destruct Hloop as (s' & -> & Hst). cbn. rewrite Hst. reflexivity.
Qed.

(** ** The recalculated table *)

Section Recalculate.

Variables (score_id p g wp wc : Z).

Lemma recalculate_rows (l : list Score.t) :
  recalculate score_id p g wp wc l = map (row_after score_id p g wp wc l) l.
Proof.
  unfold recalculate, update_rows. fold (edited_row score_id p g wp wc l).
  rewrite map_map. apply map_ext. intro r. unfold row_after, update_rows.
  destruct (Score.id r =? score_id); [|reflexivity].
  unfold edited_row. cbn. rewrite Z.ltb_irrefl, andb_false_r. reflexivity.
Qed.

Lemma row_after_id (l : list Score.t) (r : Score.t) :
  Score.id (row_after score_id p g wp wc l r) = Score.id r.
Proof.
  unfold row_after.
  destruct (Score.id r =? score_id); [reflexivity|].
  destruct (_ && _); reflexivity.
Qed.

Lemma row_after_other (l : list Score.t) (r : Score.t) :
  Score.id r <> score_id ->
  Score.player_id (row_after score_id p g wp wc l r) = Score.player_id r
  /\ Score.gameweek (row_after score_id p g wp wc l r) = Score.gameweek r
  /\ Score.week_points (row_after score_id p g wp wc l r) = Score.week_points r
  /\ Score.week_cost (row_after score_id p g wp wc l r) = Score.week_cost r.
Proof.
  intro Hid. unfold row_after.
  replace (Score.id r =? score_id) with false by (symmetry; now apply Z.eqb_neq).
  destruct (_ && _); repeat split; reflexivity.
Qed.

Lemma row_after_frame (l : list Score.t) (r : Score.t) :
  Score.id r <> score_id -> Score.player_id r <> p ->
  row_after score_id p g wp wc l r = r.
Proof.
  intros Hid Hp. unfold row_after.
  replace (Score.id r =? score_id) with false by (symmetry; now apply Z.eqb_neq).
  replace (Score.player_id r =? p) with false by (symmetry; now apply Z.eqb_neq).
  reflexivity.
Qed.

Lemma recalculate_ids (l : list Score.t) :
  map Score.id (recalculate score_id p g wp wc l) = map Score.id l.
Proof.
  rewrite recalculate_rows, map_map. apply map_ext. apply row_after_id.
Qed.

Lemma cumulative_recalculate (l : list Score.t) (p' g' : Z) :
  cumulative (recalculate score_id p g wp wc l) p' g'
  = cumulative (update_rows score_id (edited_row score_id p g wp wc l) l) p' g'.
Proof.
  unfold recalculate. fold (edited_row score_id p g wp wc l).
  apply cumulative_map. intros r _.
  destruct (_ && _); repeat split; reflexivity.
Qed.

Lemma gathered_recalculate (l : list Score.t) :
  sum_net (filter (fun s => up_to p g s && negb (Score.id s =? score_id))
             (recalculate score_id p g wp wc l))
  = sum_net (filter (fun s => up_to p g s && negb (Score.id s =? score_id)) l).
Proof.
  rewrite recalculate_rows. apply sum_net_filter_map. intros r _.
  rewrite row_after_id.
  destruct (Z.eqb_spec (Score.id r) score_id) as [Hid|Hid]; cbn [negb].
  - rewrite !andb_false_r. split; [reflexivity | discriminate].
  - destruct (row_after_other l r Hid) as (H1 & H2 & H3 & H4).
    unfold up_to, net. rewrite H1, H2, H3, H4. split; reflexivity.
Qed.

Lemma find_score_map (f : Score.t -> Score.t) (id : Z) (l : list Score.t) :
  (forall r, Score.id (f r) = Score.id r) ->
  find_score id (map f l) = option_map f (find_score id l).
Proof.
  intro Hf. unfold find_score. induction l as [|x l IH]; simpl.
  - reflexivity.
  - rewrite Hf. destruct (Score.id x =? id); [reflexivity | exact IH].
Qed.

Lemma find_score_recalculate (l : list Score.t) (old : Score.t) :
  find_score score_id l = Some old ->
  find_score score_id (recalculate score_id p g wp wc l)
  = Some (edited_row score_id p g wp wc l old).
Proof.
  intro Hfind. rewrite recalculate_rows, find_score_map by apply row_after_id.
  rewrite Hfind. cbn. unfold row_after.
  destruct (find_score_In _ _ _ Hfind) as [_ Hid].
  rewrite Hid, Z.eqb_refl. reflexivity.
Qed.

(** The recalculation changes nothing when it is applied again. *)
Lemma recalculate_idempotent (l : list Score.t) :
  recalculate score_id p g wp wc (recalculate score_id p g wp wc l)
  = recalculate score_id p g wp wc l.
Proof.
  set (l' := recalculate score_id p g wp wc l).
  assert (HE : forall r, edited_row score_id p g wp wc l' r
                         = edited_row score_id p g wp wc l r).
  { intro r. unfold edited_row, l'. rewrite gathered_recalculate. reflexivity. }
  assert (Hw : update_rows score_id (edited_row score_id p g wp wc l') l' = l').
  { unfold update_rows. transitivity (map (fun x => x) l'); [|apply map_id].
    apply map_ext_in. intros r' Hr'. unfold l' in Hr'.
    rewrite recalculate_rows in Hr'. apply in_map_iff in Hr'.
    destruct Hr' as (r & <- & _). rewrite row_after_id, HE.
    unfold row_after. destruct (Score.id r =? score_id); reflexivity. }
  rewrite (recalculate_rows l').
  transitivity (map (fun x => x) l'); [|apply map_id].
  apply map_ext_in. intros r' Hr'. unfold row_after at 1. rewrite Hw.
  unfold l' in Hr'. rewrite recalculate_rows in Hr'. apply in_map_iff in Hr'.
  destruct Hr' as (r & <- & _). rewrite row_after_id, HE.
  fold l'. unfold l' at 1. rewrite cumulative_recalculate.
  unfold row_after.
  destruct (Score.id r =? score_id) eqn:Eid; [reflexivity|].
  destruct ((Score.player_id r =? p) && (g <? Score.gameweek r)) eqn:Esub.
  - cbn. rewrite Esub. reflexivity.
  - rewrite Esub. reflexivity.
Qed.

End Recalculate.

Lemma update_score_missing (db : Database) (score_id p g wp wc : Z) :
  find_score score_id (scores_table db) = None ->
  run (update_score score_id p g wp wc) db
  = (inl (HTTPException 404 "Score not found"), db).
Proof.
  intro Hfind. unfold run, update_score, bind, session_get.
  cbn [view scores_table]. rewrite Hfind. reflexivity.
Qed.

Lemma delete_score_missing (db : Database) (score_id : Z) :
  find_score score_id (scores_table db) = None ->
  run (delete_score score_id) db
  = (inl (HTTPException 404 "Score not found"), db).
Proof.
  intro Hfind. unfold run, delete_score, bind, session_get.
  cbn [view scores_table]. rewrite Hfind. reflexivity.
Qed.

Lemma delete_score_present (db : Database) (score_id : Z) (r : Score.t) :
  find_score score_id (scores_table db) = Some r ->
  run (delete_score score_id) db
  = (inr (RedirectResponse "/scores" 302),
     mkDatabase (players_table db)
       (filter (fun r => negb (Score.id r =? score_id)) (scores_table db))).
Proof.
  intro Hfind. unfold run, delete_score, bind, session_get.
  cbn [view scores_table]. rewrite Hfind. reflexivity.
Qed.

Lemma delete_score_form_same (score_id : Z) :
  delete_score_form score_id = delete_score score_id.
Proof. reflexivity. Qed.

(** ** The claims about update_score *)

Lemma sum_net_nonneg (l : list Score.t) :
  (forall r, In r l -> 0 <= net r) -> 0 <= sum_net l.
Proof.
  induction l as [|x l IH]; intro H.
  - cbn. lia.
  - rewrite sum_net_cons.
    specialize (H x (or_introl eq_refl)) as Hx.
    specialize (IH (fun r Hr => H r (or_intror Hr))). lia.
Qed.

Lemma rows_ok_forall (f : Score.t -> Score.t) (l : list Score.t) :
  (forall r, In r l -> Score.check_update r (f r) = true) ->
  rows_ok l (map f l) = true.
Proof.
  intro H. rewrite rows_ok_map. apply forallb_forall. exact H.
Qed.

(** No constraint is violated when the new gameweek is one of the 38, the new
    cost is not above the new points and no row costs more than it scores:
    every total is then a sum of net points that are not negative. *)
Lemma update_score_accepted
  (db : Database) (score_id player_id gameweek week_points week_cost : Z)
  (old : Score.t) :
  NoDup (map Score.id (scores_table db)) ->
  find_score score_id (scores_table db) = Some old ->
  1 <= gameweek <= 38 -> 0 <= week_cost <= week_points ->
  (forall r, In r (scores_table db) -> Score.week_cost r <= Score.week_points r) ->
  run (update_score score_id player_id gameweek week_points week_cost) db
  = (inr (RedirectResponse "/scores" 302),
     mkDatabase (players_table db)
       (recalculate score_id player_id gameweek week_points week_cost
          (scores_table db))).
Proof.
  intros Hnd Hfind Hg Hw Hnet.
  rewrite (update_score_run _ _ _ _ _ _ old Hnd Hfind). cbv zeta.
  replace (rows_ok _ _) with true; [reflexivity|]. symmetry.
  rewrite recalculate_rows. apply rows_ok_forall. intros r Hr.
  assert (Hl : forall x, In x (scores_table db) -> 0 <= net x).
  { intros x Hx. specialize (Hnet x Hx). unfold net. lia. }
  unfold row_after. destruct (Score.id r =? score_id).
  - unfold edited_row, Score.check_update. cbn.
    assert (0 <= sum_net
                    (filter (fun s => up_to player_id gameweek s
                                      && negb (Score.id s =? score_id))
                       (scores_table db))).
    { apply sum_net_nonneg. intros x Hx. apply filter_In in Hx. now apply Hl. }
    unfold Score.check_gameweek, Score.check_week_points, Score.check_week_cost,
      Score.check_overall_points.
    repeat (apply andb_true_iff; split); apply orb_true_iff; right;
      try (apply andb_true_iff; split); apply Z.leb_le; lia.
  - destruct (_ && _); [|apply check_update_refl].
    unfold Score.check_update. cbn. rewrite !Z.eqb_refl. cbn.
    apply orb_true_iff. right. apply Z.leb_le.
    unfold cumulative. apply sum_net_nonneg. intros x Hx.
    apply filter_In in Hx. destruct Hx as [Hx _].
    unfold update_rows in Hx. apply in_map_iff in Hx.
    destruct Hx as (y & <- & Hy).
    destruct (Score.id y =? score_id); [|now apply Hl].
    unfold edited_row, net. cbn. lia.
Qed.

(** C2. An update of a row of the table goes through when the new gameweek
    is one of the 38, the new cost is not negative and not above the new
    points, no row of the table costs more than it scores, and the integers
    handed to SQLite (those of the rows, the new player, the new fields, the
    totals) are ones it can take.  After an update that goes through, under these conditions or
    others, the edited row carries the new fields and the total of the new
    player's other rows up to the new gameweek plus its own net points, and
    every later row of the new player carries the total over all of that
    player's rows up to its own gameweek. *)
Theorem update_score_cascade
  (db : Database) (score_id player_id gameweek week_points week_cost : Z)
  (old : Score.t) :
  NoDup (map Score.id (scores_table db)) ->
  find_score score_id (scores_table db) = Some old ->
  (1 <= gameweek <= 38 -> 0 <= week_cost <= week_points ->
   (forall r, In r (scores_table db) ->
      Score.week_cost r <= Score.week_points r) ->
   Forall sqlite_score (scores_table db) ->
   sqlite_integer player_id ->
   sqlite_integer (sum_net (scores_table db) + week_points) ->
   exists db',
     run (update_score score_id player_id gameweek week_points week_cost) db
     = (inr (RedirectResponse "/scores" 302), db'))
  /\ (forall response db',
        run (update_score score_id player_id gameweek week_points week_cost) db
        = (inr response, db') ->
        (exists edited,
            find_score score_id (scores_table db') = Some edited
            /\ Score.player_id edited = player_id
            /\ Score.gameweek edited = gameweek
            /\ Score.week_points edited = week_points
            /\ Score.week_cost edited = week_cost
            /\ Score.overall_points edited
               = sum_net (filter (fun s => (Score.player_id s =? player_id)
                                           && (Score.gameweek s <=? gameweek)
                                           && negb (Score.id s =? score_id))
                            (scores_table db'))
                 + (week_points - week_cost))
        /\ (forall r, In r (scores_table db') ->
              Score.player_id r = player_id -> gameweek < Score.gameweek r ->
              Score.overall_points r
              = sum_net (filter (fun s => (Score.player_id s =? player_id)
                                          && (Score.gameweek s <=? Score.gameweek r))
                           (scores_table db')))).
Proof.
  intros Hnd Hfind. split.
  { intros Hg Hw Hnet _ _ _. eexists.
    exact (update_score_accepted _ _ _ _ _ _ old Hnd Hfind Hg Hw Hnet). }
  intros response db' Hrun.
  rewrite (update_score_run _ _ _ _ _ _ old Hnd Hfind) in Hrun. cbv zeta in Hrun.
  destruct (rows_ok _ _); [|discriminate].
  injection Hrun as _ <-. cbn [scores_table]. split.
  - exists (edited_row score_id player_id gameweek week_points week_cost
              (scores_table db) old).
    split; [now apply find_score_recalculate|].
    repeat (split; [reflexivity|]).
    change (fun s => (Score.player_id s =? player_id)
                     && (Score.gameweek s <=? gameweek)
                     && negb (Score.id s =? score_id))
      with (fun s => up_to player_id gameweek s && negb (Score.id s =? score_id)).
    rewrite gathered_recalculate. reflexivity.
  - intros r' Hr' Hp Hg.
    change (sum_net (filter _ ?l)) with (cumulative l player_id (Score.gameweek r')).
    rewrite cumulative_recalculate.
    rewrite recalculate_rows in Hr'. apply in_map_iff in Hr'.
    destruct Hr' as (r & <- & _). revert Hp Hg. unfold row_after.
    destruct (Score.id r =? score_id).
    + cbn. lia.
    + destruct ((Score.player_id r =? player_id) && (gameweek <? Score.gameweek r))
        eqn:Esub.
      * reflexivity.
      * intros Hp Hg. exfalso.
        apply andb_false_iff in Esub. destruct Esub as [E|E].
        -- apply Z.eqb_neq in E. contradiction.
        -- apply Z.ltb_ge in E. lia.
Qed.

(** C5. An update leaves the players and every row of another player alone:
    a row other than the edited one that does not belong to the new
    [player_id] is found unchanged at its place afterwards, and a row that
    does not belong to the new [player_id] afterwards was there before.  The
    rows of the player the edited row is taken from are among them. *)
Theorem update_score_isolation
  (db : Database) (score_id player_id gameweek week_points week_cost : Z) :
  NoDup (map Score.id (scores_table db)) ->
  let db' :=
    snd (run (update_score score_id player_id gameweek week_points week_cost) db) in
  players_table db' = players_table db
  /\ (forall i r, nth_error (scores_table db) i = Some r ->
        Score.id r <> score_id -> Score.player_id r <> player_id ->
        nth_error (scores_table db') i = Some r)
  /\ (forall i r, nth_error (scores_table db') i = Some r ->
        Score.player_id r <> player_id ->
        nth_error (scores_table db) i = Some r).
Proof.
  intro Hnd. cbv zeta.
  destruct (find_score score_id (scores_table db)) as [old|] eqn:Hfind.
  2:{ rewrite (update_score_missing _ _ _ _ _ _ Hfind). cbn [snd]. auto. }
  rewrite (update_score_run _ _ _ _ _ _ old Hnd Hfind). cbv zeta.
  destruct (rows_ok _ _); cbn [snd players_table scores_table]; [|auto].
  rewrite recalculate_rows. split; [reflexivity|]. split.
  - intros i r Hi Hid Hp. rewrite nth_error_map, Hi. cbn.
    now rewrite row_after_frame.
  - intros i r' Hi Hp. rewrite nth_error_map in Hi.
    destruct (nth_error (scores_table db) i) as [r|]; [|discriminate].
    cbn in Hi. injection Hi as <-. f_equal. symmetry.
    destruct (Z.eq_dec (Score.id r) score_id) as [Hid|Hid].
    + exfalso. apply Hp. unfold row_after.
      rewrite (proj2 (Z.eqb_eq _ _) Hid). reflexivity.
    + apply row_after_frame; [assumption|].
      destruct (row_after_other score_id player_id gameweek week_points
                  week_cost (scores_table db) r Hid) as (H1 & _).
      congruence.
Qed.

Lemma recompute_loop_raises (p : Z) (subs : list Score.t) :
  forall (s s' : Session) (e : exn),
  for_each subs (recompute_subsequent p) s = (inl e, s') -> e = IntegrityError.
Proof.
  induction subs as [|x subs IH]; intros s s' e H.
  - discriminate.
  - cbn [for_each] in H. unfold bind at 1 in H.
    destruct (recompute_subsequent p x s) as [[e1|[]] s1] eqn:E.
    + unfold recompute_subsequent, bind, exec, modify in E.
      destruct (update_ok _ _ _); congruence.
    + now apply (IH s1 s').
Qed.

Lemma update_score_raises
  (db db' : Database) (score_id p g wp wc : Z) (old : Score.t) (e : exn) :
  find_score score_id (scores_table db) = Some old ->
  run (update_score score_id p g wp wc) db = (inl e, db') ->
  e = IntegrityError.
Proof.
  intros Hfind. unfold run, update_score.
  unfold bind at 1. unfold session_get at 1. cbn [view scores_table].
  rewrite Hfind.
  unfold bind at 1. unfold exec at 1.
  unfold bind at 1. unfold modify at 1.
  destruct (update_ok _ _ _); [|intro H; congruence].
  unfold bind at 1. unfold exec_order_by_gameweek at 1.
  unfold bind at 1.
  destruct (for_each _ _ _) as [[e1|[]] s1] eqn:E.
  - apply recompute_loop_raises in E. intro H. congruence.
  - cbn. discriminate.
Qed.

(** C7. For an id that is not in the table (an integer SQLite can take:
    another one makes [session.get] raise [OverflowError]), [update_score],
    [delete_score] and [delete_score_form] raise the 404 [HTTPException] and
    the database is what it was; for an id that is in the table none of them
    raises an [HTTPException]. *)
Theorem score_not_found
  (db : Database) (score_id player_id gameweek week_points week_cost : Z) :
  sqlite_integer score_id ->
  match find_score score_id (scores_table db) with
  | None =>
      run (update_score score_id player_id gameweek week_points week_cost) db
      = (inl (HTTPException 404 "Score not found"), db)
      /\ run (delete_score score_id) db
         = (inl (HTTPException 404 "Score not found"), db)
      /\ run (delete_score_form score_id) db
         = (inl (HTTPException 404 "Score not found"), db)
  | Some _ =>
      forall status_code detail,
        fst (run (update_score score_id player_id gameweek week_points
                    week_cost) db)
        <> inl (HTTPException status_code detail)
        /\ fst (run (delete_score score_id) db)
           <> inl (HTTPException status_code detail)
        /\ fst (run (delete_score_form score_id) db)
           <> inl (HTTPException status_code detail)
  end.
Proof.
  intros _.
  change (delete_score_form score_id) with (delete_score score_id).
  destruct (find_score score_id (scores_table db)) as [old|] eqn:Hfind.
  - intros status_code detail.
    rewrite (delete_score_present _ _ _ Hfind). cbn [fst].
    split; [|split; discriminate].
    destruct (run (update_score _ _ _ _ _) db) as [[e|resp] db'] eqn:E;
      cbn [fst]; [|discriminate].
    rewrite (update_score_raises _ _ _ _ _ _ _ _ _ Hfind E). discriminate.
  - now rewrite update_score_missing, delete_score_missing.
Qed.

(** C8. A request to [update_score] either commits the whole recalculation
    (the edited row and every recomputed later row) or raises and leaves the
    database as it was: no part of the writes is kept on an error. *)
Theorem update_score_all_or_nothing
  (db : Database) (score_id player_id gameweek week_points week_cost : Z) :
  NoDup (map Score.id (scores_table db)) ->
  run (update_score score_id player_id gameweek week_points week_cost) db
  = (inr (RedirectResponse "/scores" 302),
     mkDatabase (players_table db)
       (recalculate score_id player_id gameweek week_points week_cost
          (scores_table db)))
  \/ exists e,
       run (update_score score_id player_id gameweek week_points week_cost) db
       = (inl e, db).
Proof.
  intro Hnd.
  destruct (find_score score_id (scores_table db)) as [old|] eqn:Hfind.
  - rewrite (update_score_run _ _ _ _ _ _ old Hnd Hfind). cbv zeta.
    destruct (rows_ok _ _); [now left | right; now exists IntegrityError].
  - right. eexists. now apply update_score_missing.
Qed.

(** C9. Running the same update again on the database the first run left
    changes nothing: the database after two runs is the database after one,
    and the second run answers as the first did. *)
Theorem update_score_idempotent
  (db : Database) (score_id player_id gameweek week_points week_cost : Z)
  (old : Score.t) :
  NoDup (map Score.id (scores_table db)) ->
  find_score score_id (scores_table db) = Some old ->
  let once :=
    run (update_score score_id player_id gameweek week_points week_cost) db in
  let twice :=
    run (update_score score_id player_id gameweek week_points week_cost)
      (snd once) in
  snd twice = snd once /\ fst twice = fst once.
Proof.
  intros Hnd Hfind. cbv zeta.
  rewrite (update_score_run _ _ _ _ _ _ old Hnd Hfind). cbv zeta.
  destruct (rows_ok _ _) eqn:Eok; cbn [snd fst].
  - pose proof (find_score_recalculate score_id player_id gameweek week_points
                  week_cost _ _ Hfind) as Hfind'.
    erewrite update_score_run; cbn [scores_table players_table].
    + cbv zeta. rewrite recalculate_idempotent, rows_ok_refl. split; reflexivity.
    + rewrite recalculate_ids. exact Hnd.
    + exact Hfind'.
  - rewrite (update_score_run _ _ _ _ _ _ old Hnd Hfind). cbv zeta.
    rewrite Eok. split; reflexivity.
Qed.

(** ** delete_score *)

Lemma split_row (l : list Score.t) (id : Z) (r : Score.t) :
  NoDup (map Score.id l) -> find_score id l = Some r ->
  exists before after,
    l = before ++ r :: after
    /\ forall x, In x (before ++ after) -> Score.id x <> id.
Proof.
  intros Hnd Hfind. destruct (find_score_In _ _ _ Hfind) as [Hin Hid].
  destruct (in_split _ _ Hin) as (before & after & ->).
  exists before, after. split; [reflexivity|].
  intros x Hx Heq. rewrite map_app in Hnd. cbn [map] in Hnd.
  apply NoDup_remove_2 in Hnd. apply Hnd.
  rewrite <- map_app, Hid, <- Heq. now apply in_map.
Qed.

Lemma filter_all (P : Score.t -> bool) (l : list Score.t) :
  (forall x, In x l -> P x = true) -> filter P l = l.
Proof.
  induction l as [|a l IH]; intro H; simpl.
  - reflexivity.
  - rewrite (H a) by now left. rewrite IH by (intros; apply H; now right).
    reflexivity.
Qed.

Lemma filter_none (P : Score.t -> bool) (l : list Score.t) :
  (forall x, In x l -> P x = false) -> filter P l = [].
Proof.
  induction l as [|a l IH]; intro H; simpl.
  - reflexivity.
  - rewrite (H a) by now left. apply IH. intros; apply H; now right.
Qed.

(** C6. Deleting an existing score takes exactly that row out of the table:
    the rows before it and the rows after it stay as they are, in place and
    in content, so no [overall_points] is recomputed; both delete handlers
    do so. *)
Theorem delete_score_removes_one (db : Database) (score_id : Z) (r : Score.t) :
  NoDup (map Score.id (scores_table db)) ->
  find_score score_id (scores_table db) = Some r ->
  exists before after,
    scores_table db = before ++ r :: after
    /\ run (delete_score score_id) db
       = (inr (RedirectResponse "/scores" 302),
          mkDatabase (players_table db) (before ++ after))
    /\ run (delete_score_form score_id) db
       = (inr (RedirectResponse "/scores" 302),
          mkDatabase (players_table db) (before ++ after)).
Proof.
  intros Hnd Hfind.
  destruct (split_row _ _ _ Hnd Hfind) as (before & after & Hl & Hother).
  exists before, after. split; [exact Hl|].
  change (delete_score_form score_id) with (delete_score score_id).
  rewrite (delete_score_present _ _ _ Hfind), Hl.
  assert (E : filter (fun x => negb (Score.id x =? score_id)) (before ++ r :: after)
              = before ++ after).
  { destruct (find_score_In _ _ _ Hfind) as [_ Hid].
    rewrite filter_app. cbn [filter]. rewrite Hid, Z.eqb_refl. cbn [negb].
    rewrite <- filter_app. apply filter_all.
    intros x Hx. apply negb_true_iff, Z.eqb_neq. now apply Hother. }
  rewrite E. split; reflexivity.
Qed.

(** ** scores *)

Lemma scores_run (db : Database) (player_id gameweek : option string) :
  exists ctx,
    run (scores player_id gameweek) db = (inr ctx, db)
    /\ ctx_player_id ctx = filter_value player_id
    /\ ctx_gameweek ctx = filter_value gameweek
    /\ ctx_scores ctx
       = filter (fun r => matches Score.player_id (filter_value player_id) r
                          && matches Score.gameweek (filter_value gameweek) r)
           (scores_table db).
Proof.
  destruct db as [pl l]. unfold run, scores, bind, exec, exec_players, ret.
  cbn [view scores_table players_table stored].
  eexists. split; [reflexivity|]. cbn [ctx_player_id ctx_gameweek ctx_scores].
  split; [reflexivity|]. split; [reflexivity|].
  apply filter_ext. intro r. unfold where_eq, matches.
  destruct (filter_value player_id), (filter_value gameweek); cbn;
    rewrite ?andb_true_r; reflexivity.
Qed.

Lemma lstrip_nil (l : list ascii) :
  lstrip l = [] -> Forall (fun c => isspace c = true) l.
Proof.
  induction l as [|c l IH]; intro H; [constructor|].
  cbn in H. destruct (isspace c) eqn:E; [|discriminate].
  constructor; [exact E | now apply IH].
Qed.

Lemma strip_blank (s : string) :
  strip s = "" -> Forall (fun c => isspace c = true) (list_ascii_of_string s).
Proof.
  unfold strip. intro H.
  apply (f_equal list_ascii_of_string) in H.
  rewrite list_ascii_of_string_of_list_ascii in H. cbn in H.
  apply (f_equal (@rev ascii)) in H. rewrite rev_involutive in H. cbn in H.
  apply lstrip_nil in H. apply Forall_rev in H. rewrite rev_involutive in H.
  apply lstrip_nil. destruct (lstrip (list_ascii_of_string s)) as [|c l] eqn:E;
    [reflexivity|].
  exfalso. apply Forall_inv in H.
  assert (Hc : isspace c = false).
  { clear H. revert E. generalize (list_ascii_of_string s) as l0.
    induction l0 as [|x l0 IH]; intro E; [discriminate|].
    cbn in E. destruct (isspace x) eqn:Ex; [now apply IH|].
    injection E as -> _. exact Ex. }
  congruence.
Qed.

Lemma int_lstrip_incl (l : list ascii) : incl (int_lstrip l) l.
Proof.
  induction l as [|c l IH]; [apply incl_refl|].
  cbn. destruct (int_isspace c); [now apply incl_tl | apply incl_refl].
Qed.

Lemma int_strip_incl (l : list ascii) : incl (int_strip l) l.
Proof.
  unfold int_strip. intros c Hc. apply in_rev in Hc.
  apply int_lstrip_incl in Hc. apply in_rev in Hc.
  now apply int_lstrip_incl in Hc.
Qed.

Lemma isspace_no_number (c : ascii) :
  isspace c = true ->
  Ascii.eqb c "-" = false /\ Ascii.eqb c "+" = false /\ digit_value c = None.
Proof.
  destruct c as [b0 b1 b2 b3 b4 b5 b6 b7].
  destruct b0, b1, b2, b3, b4, b5, b6, b7; vm_compute; intro H;
    (discriminate H || (repeat split; reflexivity)).
Qed.

(** A blank string is no integer. *)
Lemma blank_not_int (s : string) : strip s = "" -> parse_int s = None.
Proof.
  intro H. apply strip_blank in H. unfold parse_int. cbv zeta.
  destruct (max_str_digits <? _); [reflexivity|].
  pose proof (int_strip_incl (list_ascii_of_string s)) as Hincl.
  destruct (int_strip (list_ascii_of_string s)) as [|c l]; [reflexivity|].
  assert (Hc : isspace c = true).
  { apply (proj1 (Forall_forall _ _) H). apply Hincl. now left. }
  destruct (isspace_no_number c Hc) as (-> & -> & Hd).
  unfold parse_digits. now rewrite Hd.
Qed.

(** A query value filters by the integer [int] reads in it, if any. *)
Lemma filter_value_parse (s : string) : filter_value (Some s) = parse_int s.
Proof.
  unfold filter_value, truthy.
  destruct (String.eqb_spec s "") as [->|_]; [reflexivity|].
  destruct (String.eqb_spec (strip s) "") as [E|_]; [|reflexivity].
  cbn. symmetry. now apply blank_not_int.
Qed.

Lemma filter_value_invalid (s : string) :
  parse_int s = None -> filter_value (Some s) = None.
Proof. intro H. now rewrite filter_value_parse. Qed.

(** C10. A [player_id] or [gameweek] query value that [int] does not accept
    raises nothing and filters nothing: the page is the one served when that
    parameter is not supplied, its context carries no integer for it, and
    its scores are the rows whose other column is the integer the other
    parameter gives, all rows when the other parameter is not supplied or is
    no integer either.  The values are ASCII, and the integer of the other
    one is one SQLite can take. *)
Theorem scores_ignores_invalid_filter
  (db : Database) (other : option string) (s : string) :
  isascii s = true -> parse_int s = None -> bindable other ->
  let remaining :=
    match other with
    | Some w => parse_int w
    | None => None
    end in
  (exists ctx,
      run (scores (Some s) other) db = (inr ctx, db)
      /\ run (scores None other) db = (inr ctx, db)
      /\ ctx_player_id ctx = None
      /\ ctx_gameweek ctx = remaining
      /\ ctx_scores ctx
         = filter (fun r => match remaining with
                            | Some n => Score.gameweek r =? n
                            | None => true
                            end)
             (scores_table db))
  /\ (exists ctx,
        run (scores other (Some s)) db = (inr ctx, db)
        /\ run (scores other None) db = (inr ctx, db)
        /\ ctx_player_id ctx = remaining
        /\ ctx_gameweek ctx = None
        /\ ctx_scores ctx
           = filter (fun r => match remaining with
                              | Some n => Score.player_id r =? n
                              | None => true
                              end)
               (scores_table db)).
Proof.
  intros _ Hs _. cbv zeta. pose proof (filter_value_invalid s Hs) as Hv.
  assert (Ho : filter_value other
               = match other with Some w => parse_int w | None => None end).
  { destruct other as [w|]; [apply filter_value_parse | reflexivity]. }
  assert (E1 : scores (Some s) other = scores None other).
  { unfold scores. rewrite Hv. reflexivity. }
  assert (E2 : scores other (Some s) = scores other None).
  { unfold scores. rewrite Hv. reflexivity. }
  rewrite E1, E2. split.
  - destruct (scores_run db None other) as (ctx & Hrun & Hp & Hg & Hsc).
    exists ctx. split; [exact Hrun|]. split; [exact Hrun|].
    split; [exact Hp|]. split; [now rewrite Hg|].
    rewrite Hsc, Ho. apply filter_ext. intro r. reflexivity.
  - destruct (scores_run db other None) as (ctx & Hrun & Hp & Hg & Hsc).
    exists ctx. split; [exact Hrun|]. split; [exact Hrun|].
    split; [now rewrite Hp|]. split; [exact Hg|].
    rewrite Hsc, Ho. apply filter_ext. intro r. cbn. apply andb_true_r.
Qed.

(** ** create_scores_bulk *)

Lemma bulk_player_effect (form_data : FormData) (g : Z) (player : Player.t)
  (st : Database) (pl : list Player.t) (w : list Score.t) :
  match bulk_player form_data g player (mkSession st (mkDatabase pl w)) with
  | (inr _, s') =>
      exists w', s' = mkSession st (mkDatabase pl w')
                 /\ bulk_effect form_data g player w w'
  | (inl _, s') => stored s' = st
  end.
Proof.
  unfold bulk_player.
  destruct (form_get (week_points_key player) form_data) as [sp|] eqn:Ep.
  2:{ exists w. split; [reflexivity|]. apply bulk_skip.
      unfold supplied. now rewrite Ep. }
  destruct (form_get (week_cost_key player) form_data) as [sc|] eqn:Ec.
  2:{ exists w. split; [reflexivity|]. apply bulk_skip.
      unfold supplied. rewrite Ec. apply andb_false_r. }
  destruct (negb (truthy (Some sp)) || negb (truthy (Some sc))) eqn:Et.
  { exists w. split; [reflexivity|]. apply bulk_skip.
    unfold supplied. rewrite Ep, Ec.
    destruct (truthy (Some sp)), (truthy (Some sc)); try reflexivity; discriminate. }
  assert (Hsup : supplied form_data player = true).
  { unfold supplied. rewrite Ep, Ec.
    destruct (truthy (Some sp)), (truthy (Some sc)); try reflexivity; discriminate. }
  unfold bind at 1. unfold int at 1.
  destruct (parse_int sp) as [wp|] eqn:Epp; [|reflexivity].
  cbn [ret]. unfold bind at 1. unfold int at 1.
  destruct (parse_int sc) as [wc|] eqn:Epc; [|reflexivity].
  cbn [ret]. unfold bind at 1. unfold exec at 1. cbn [view scores_table].
  destruct (filter _ w) as [|e rest] eqn:Ef.
  - unfold bind, exec, insert. cbn [view scores_table].
    destruct (Score.check_insert _); [|reflexivity].
    eexists. split; [reflexivity|]. now apply (bulk_create _ _ _ _ sp sc).
  - unfold modify. cbn [view scores_table].
    destruct (update_ok _ _ _); [|reflexivity].
    eexists. split; [reflexivity|]. now apply (bulk_overwrite _ _ _ _ sp sc _ _ e rest).
Qed.

Lemma bulk_loop_effects (form_data : FormData) (g : Z) (ps : list Player.t) :
  forall (st : Database) (pl : list Player.t) (w : list Score.t),
  match for_each ps (bulk_player form_data g) (mkSession st (mkDatabase pl w)) with
  | (inr _, s') =>
      exists w', s' = mkSession st (mkDatabase pl w')
                 /\ bulk_effects form_data g ps w w'
  | (inl _, s') => stored s' = st
  end.
Proof.
  induction ps as [|q ps IH]; intros st pl w.
  - exists w. split; [reflexivity | constructor].
  - cbn [for_each]. unfold bind.
    pose proof (bulk_player_effect form_data g q st pl w) as Hq.
    destruct (bulk_player form_data g q _) as [[e|u] s1]; [exact Hq|].
    destruct Hq as (w1 & -> & Hw1).
    specialize (IH st pl w1).
    destruct (for_each ps _ _) as [[e|u'] s2]; [exact IH|].
    destruct IH as (w' & -> & Hw'). exists w'. split; [reflexivity|].
    now apply (bulk_next _ _ _ _ _ w1).
Qed.

(** What a bulk upload leaves: nothing on an error, otherwise the rows the
    rounds of the loop produced one after the other. *)
Lemma create_scores_bulk_run (form_data : FormData) (db : Database) :
  (exists e, run (create_scores_bulk form_data) db = (inl e, db))
  \/ (exists g w',
        form_gameweek form_data = Some g
        /\ bulk_effects form_data g (players_table db) (scores_table db) w'
        /\ run (create_scores_bulk form_data) db
           = (inr (RedirectResponse "/scores" 302),
              mkDatabase (players_table db) w')).
Proof.
  destruct db as [pl l]. cbn [players_table scores_table].
  set (s0 := mkSession (mkDatabase pl l) (mkDatabase pl l)).
  assert (E : create_scores_bulk form_data s0
              = match form_gameweek form_data with
                | None => (inl ValueError, s0)
                | Some g =>
                    match for_each pl (bulk_player form_data g) s0 with
                    | (inl e, s1) => (inl e, s1)
                    | (inr _, s1) =>
                        (inr (RedirectResponse "/scores" 302),
                         mkSession (view s1) (view s1))
                    end
                end).
  { unfold create_scores_bulk, bind.
    destruct (form_gameweek form_data); cbn; [|reflexivity].
    destruct (for_each pl _ s0) as [[e|u] s1]; reflexivity. }
  unfold run. fold s0. rewrite E. clear E.
  destruct (form_gameweek form_data) as [g|]; [|left; eexists; reflexivity].
  pose proof (bulk_loop_effects form_data g pl (mkDatabase pl l) pl l) as H.
  fold s0 in H.
  destruct (for_each pl _ s0) as [[e|u] s1].
  - left. exists e. now rewrite H.
  - right. destruct H as (w' & -> & Hw'). exists g, w'.
    split; [reflexivity|]. split; [exact Hw'|]. reflexivity.
Qed.

Lemma fold_max_ge (l : list Z) (a : Z) :
  a <= fold_left Z.max l a /\ forall x, In x l -> x <= fold_left Z.max l a.
Proof.
  revert a. induction l as [|y l IH]; intro a; simpl.
  - split; [lia | contradiction].
  - destruct (IH (Z.max a y)) as [H1 H2]. split; [lia|].
    intros x [<-|Hx]; [lia | now apply H2].
Qed.

Lemma next_id_fresh (l : list Score.t) (r : Score.t) :
  In r l -> Score.id r < next_id l.
Proof.
  destruct l as [|a l]; [contradiction|]. unfold next_id.
  destruct (fold_max_ge (map Score.id l) (Score.id a)) as [H1 H2].
  intros [<-|Hr]; [lia|].
  specialize (H2 (Score.id r) (in_map Score.id l r Hr)). lia.
Qed.

Lemma first_selected (P : Score.t -> bool) (l rest : list Score.t) (e : Score.t) :
  filter P l = e :: rest -> In e l /\ P e = true.
Proof.
  intro H. apply filter_In. rewrite H. now left.
Qed.

Lemma filter_map_frame (P : Score.t -> bool) (f : Score.t -> Score.t)
  (l : list Score.t) :
  (forall r, In r l -> P (f r) = P r /\ (P r = true -> f r = r)) ->
  filter P (map f l) = filter P l.
Proof.
  induction l as [|x l IH]; intro H; simpl.
  - reflexivity.
  - destruct (H x (or_introl eq_refl)) as [H1 H2]. rewrite H1.
    rewrite IH by (intros; apply H; now right).
    destruct (P x); [rewrite H2|]; reflexivity.
Qed.

Lemma filter_and (P Q : Score.t -> bool) (l : list Score.t) :
  filter (fun s => P s && Q s) l = filter Q (filter P l).
Proof.
  induction l as [|x l IH]; simpl; [reflexivity|].
  destruct (P x); simpl; [destruct (Q x)|]; now rewrite IH.
Qed.

Section BulkRound.

Variables (form_data : FormData) (g : Z).

Lemma bulk_effect_unique (player : Player.t) (w w' : list Score.t) :
  bulk_effect form_data g player w w' ->
  NoDup (map Score.id w) -> NoDup (map Score.id w').
Proof.
  intros H Hnd. destruct H.
  - assumption.
  - rewrite map_id_update_rows; [assumption | reflexivity].
  - rewrite map_app. apply NoDup_app; [assumption | repeat constructor; auto |].
    cbn. intros a Ha [<-|[]]. apply in_map_iff in Ha.
    destruct Ha as (r & Hid & Hr). apply next_id_fresh in Hr. lia.
Qed.

(** A round for one player leaves the rows of every other player alone. *)
Lemma bulk_effect_frame (player : Player.t) (w w' : list Score.t) (p : Z) :
  bulk_effect form_data g player w w' ->
  NoDup (map Score.id w) -> Player.id player <> p ->
  filter (fun s => Score.player_id s =? p) w'
  = filter (fun s => Score.player_id s =? p) w.
Proof.
  intros H Hnd Hp. destruct H as [| sp sc wp wc e rest _ _ _ _ _ Hsel | ].
  - reflexivity.
  - apply first_selected in Hsel. destruct Hsel as [He Hpe].
    apply andb_true_iff in Hpe. destruct Hpe as [Hpe _]. apply Z.eqb_eq in Hpe.
    unfold update_rows. apply filter_map_frame. intros r Hr.
    destruct (Z.eqb_spec (Score.id r) (Score.id e)) as [Hid|Hid].
    + split; [reflexivity|]. intro Hrp. apply Z.eqb_eq in Hrp.
      rewrite (unique_row w r e Hnd Hr He Hid) in Hrp. congruence.
    + split; reflexivity.
  - rewrite filter_app. cbn.
    replace (Player.id player =? p) with false
      by (symmetry; now apply Z.eqb_neq).
    apply app_nil_r.
Qed.

Lemma bulk_effects_frame (ps : list Player.t) (w w' : list Score.t) :
  bulk_effects form_data g ps w w' ->
  NoDup (map Score.id w) ->
  NoDup (map Score.id w')
  /\ forall p, ~ In p (map Player.id ps) ->
       filter (fun s => Score.player_id s =? p) w'
       = filter (fun s => Score.player_id s =? p) w.
Proof.
  induction 1 as [w | q ps w w1 w' Hq Hps IH]; intro Hnd.
  - split; [assumption | reflexivity].
  - pose proof (bulk_effect_unique _ _ _ Hq Hnd) as Hnd1.
    destruct (IH Hnd1) as [Hnd' Hframe]. split; [assumption|].
    intros p Hp. cbn in Hp. rewrite Hframe by tauto.
    apply (bulk_effect_frame q); [assumption | assumption | tauto].
Qed.

End BulkRound.

Lemma supplied_true (form_data : FormData) (player : Player.t) (sp sc : string) :
  form_get (week_points_key player) form_data = Some sp -> sp <> "" ->
  form_get (week_cost_key player) form_data = Some sc -> sc <> "" ->
  supplied form_data player = true.
Proof.
  intros Hp Hsp Hc Hsc. unfold supplied. rewrite Hp, Hc. cbn.
  apply String.eqb_neq in Hsp, Hsc. now rewrite Hsp, Hsc.
Qed.

Lemma player_of_id (ps : list Player.t) (q player : Player.t) :
  NoDup (map Player.id (q :: ps)) -> In player ps ->
  Player.id q <> Player.id player.
Proof.
  intros Hnd Hin Heq. cbn in Hnd. inversion Hnd as [|a l Hnot _]; subst.
  apply Hnot. rewrite Heq. now apply in_map.
Qed.

Lemma bulk_effects_overwrite
  (form_data : FormData) (g : Z) (player : Player.t) (sp sc : string)
  (wp wc : Z) (ps : list Player.t) (w w' : list Score.t) :
  form_get (week_points_key player) form_data = Some sp -> sp <> "" ->
  parse_int sp = Some wp ->
  form_get (week_cost_key player) form_data = Some sc -> sc <> "" ->
  parse_int sc = Some wc ->
  bulk_effects form_data g ps w w' ->
  NoDup (map Player.id ps) -> NoDup (map Score.id w) -> In player ps ->
  forall e rest,
  filter (fun s => (Score.player_id s =? Player.id player)
                   && (Score.gameweek s =? g)) w = e :: rest ->
  filter (fun s => Score.player_id s =? Player.id player) w'
  = map (fun r => if Score.id r =? Score.id e then Score.set_week wp wc r else r)
      (filter (fun s => Score.player_id s =? Player.id player) w).
Proof.
  intros Hp Hsp Hpp Hc Hsc Hpc Hchain.
  pose proof (supplied_true _ _ _ _ Hp Hsp Hc Hsc) as Hsup.
  induction Hchain as [w | q ps w w1 w' Hq Hps IH];
    intros Hndp Hnd Hin e rest Hsel.
  - contradiction.
  - pose proof (bulk_effect_unique _ _ _ _ _ Hq Hnd) as Hnd1.
    destruct Hin as [->|Hin].
    + assert (Hnot : ~ In (Player.id player) (map Player.id ps)).
      { cbn in Hndp. now inversion Hndp. }
      destruct (bulk_effects_frame _ _ _ _ _ Hps Hnd1) as [_ Hframe].
      rewrite (Hframe _ Hnot).
      destruct Hq as [Hskip | sp0 sc0 wp0 wc0 e0 rest0 _ Hp0 Hc0 Hpp0 Hpc0 Hsel0
                     | sp0 sc0 wp0 wc0 _ _ _ _ _ Hsel0].
      * congruence.
      * assert (e0 = e) by congruence. assert (wp0 = wp) by congruence.
        assert (wc0 = wc) by congruence. subst.
        unfold update_rows. rewrite filter_map_swap. f_equal.
        apply filter_ext. intro r.
        destruct (Score.id r =? Score.id e); reflexivity.
      * congruence.
    + pose proof (player_of_id _ _ _ Hndp Hin) as Hne.
      pose proof (bulk_effect_frame _ _ _ _ _ _ Hq Hnd Hne) as Hframe.
      rewrite <- Hframe.
      apply (IH ltac:(now inversion Hndp) Hnd1 Hin e rest).
      rewrite filter_and, Hframe, <- filter_and. exact Hsel.
Qed.

(** C4. In a bulk upload that goes through, a player of the players table
    with both fields supplied who has a score for the gameweek gets the
    points and the cost of that row overwritten and nothing else: the
    player's rows afterwards are the rows before, the one row with the two
    new values and its [overall_points] as it was. *)
Theorem bulk_overwrites_points_and_cost_only
  (db db' : Database) (form_data : FormData) (response : Response)
  (gameweek : Z) (player : Player.t) (sp sc : string) (week_points week_cost : Z)
  (existing_score : Score.t) (rest : list Score.t) :
  NoDup (map Player.id (players_table db)) ->
  NoDup (map Score.id (scores_table db)) ->
  run (create_scores_bulk form_data) db = (inr response, db') ->
  form_gameweek form_data = Some gameweek ->
  In player (players_table db) ->
  form_get (week_points_key player) form_data = Some sp -> sp <> "" ->
  parse_int sp = Some week_points ->
  form_get (week_cost_key player) form_data = Some sc -> sc <> "" ->
  parse_int sc = Some week_cost ->
  filter (fun s => (Score.player_id s =? Player.id player)
                   && (Score.gameweek s =? gameweek)) (scores_table db)
  = existing_score :: rest ->
  filter (fun s => Score.player_id s =? Player.id player) (scores_table db')
  = map (fun r => if Score.id r =? Score.id existing_score
                  then Score.mk (Score.id r) (Score.player_id r)
                         (Score.gameweek r) week_points week_cost
                         (Score.overall_points r)
                  else r)
      (filter (fun s => Score.player_id s =? Player.id player) (scores_table db)).
Proof.
  intros Hndp Hnd Hrun Hg Hin Hp Hsp Hpp Hc Hsc Hpc Hsel.
  destruct (create_scores_bulk_run form_data db) as [(e & He) | (g & w' & Hg' & Hchain & Hr)].
  - congruence.
  - rewrite Hr in Hrun. injection Hrun as _ <-. cbn [scores_table].
    assert (g = gameweek) by congruence. subst g.
    exact (bulk_effects_overwrite _ _ _ _ _ _ _ _ _ _ Hp Hsp Hpp Hc Hsc Hpc
             Hchain Hndp Hnd Hin _ _ Hsel).
Qed.

(** ** The running-total invariant *)

Lemma cumulative_split (l1 l2 : list Score.t) (x : Score.t) (p g : Z) :
  cumulative (l1 ++ x :: l2) p g
  = cumulative (l1 ++ l2) p g + (if up_to p g x then net x else 0).
Proof.
  unfold cumulative. rewrite !filter_app, !sum_net_app. cbn [filter].
  destruct (up_to p g x); rewrite ?sum_net_cons; lia.
Qed.

Lemma cumulative_snoc (l : list Score.t) (x : Score.t) (p g : Z) :
  cumulative (l ++ [x]) p g
  = cumulative l p g + (if up_to p g x then net x else 0).
Proof. rewrite cumulative_split, app_nil_r. reflexivity. Qed.

Lemma update_rows_split (id : Z) (f : Score.t -> Score.t)
  (l1 l2 : list Score.t) (old : Score.t) :
  (forall x, In x (l1 ++ l2) -> Score.id x <> id) -> Score.id old = id ->
  update_rows id f (l1 ++ old :: l2) = l1 ++ f old :: l2.
Proof.
  intros Hother Hid.
  assert (Hsame : forall l, (forall x, In x l -> Score.id x <> id) ->
                            update_rows id f l = l).
  { intros l Hl. unfold update_rows.
    transitivity (map (fun x => x) l); [|apply map_id].
    apply map_ext_in. intros x Hx.
    now rewrite (proj2 (Z.eqb_neq _ _) (Hl x Hx)). }
  unfold update_rows. rewrite map_app. cbn [map]. rewrite Hid, Z.eqb_refl.
  fold (update_rows id f l1) (update_rows id f l2).
  rewrite !Hsame; [reflexivity | |]; intros x Hx; apply Hother, in_or_app; auto.
Qed.

Lemma gathered_split (id p g : Z) (l1 l2 : list Score.t) (old : Score.t) :
  (forall x, In x (l1 ++ l2) -> Score.id x <> id) -> Score.id old = id ->
  sum_net (filter (fun s => up_to p g s && negb (Score.id s =? id))
             (l1 ++ old :: l2))
  = cumulative (l1 ++ l2) p g.
Proof.
  intros Hother Hid. unfold cumulative.
  rewrite filter_app. cbn [filter]. rewrite Hid, Z.eqb_refl, andb_false_r.
  rewrite <- filter_app. apply sum_net_filter_ext. intros r Hr.
  rewrite (proj2 (Z.eqb_neq _ _) (Hother r Hr)). now rewrite andb_true_r.
Qed.

(** An update that keeps the row's player, does not move the row to a later
    gameweek and meets no other row of the player at the target gameweek
    keeps the totals right. *)
Lemma recalculate_invariant
  (score_id p g wp wc : Z) (l : list Score.t) (old : Score.t) :
  NoDup (map Score.id l) ->
  find_score score_id l = Some old ->
  Score.player_id old = p -> g <= Score.gameweek old ->
  (forall r, In r l -> Score.player_id r = p -> Score.gameweek r = g ->
             Score.id r = score_id) ->
  invariant l -> invariant (recalculate score_id p g wp wc l).
Proof.
  intros Hnd Hfind Hpold Hgold Hclash Hinv r' Hr'.
  rewrite cumulative_recalculate.
  rewrite recalculate_rows in Hr'. apply in_map_iff in Hr'.
  destruct Hr' as (r & <- & Hr).
  destruct (split_row _ _ _ Hnd Hfind) as (l1 & l2 & Hl & Hother).
  destruct (find_score_In _ _ _ Hfind) as [_ Hid].
  assert (Hw : update_rows score_id (edited_row score_id p g wp wc l) l
               = l1 ++ edited_row score_id p g wp wc l old :: l2).
  { rewrite Hl at 2. now apply update_rows_split. }
  rewrite Hw, cumulative_split.
  unfold row_after.
  destruct (Z.eqb_spec (Score.id r) score_id) as [Hrid|Hrid].
  - unfold edited_row at 1 2 3 4. cbn. rewrite Hl at 1.
    rewrite gathered_split by assumption.
    unfold up_to, net. cbn. rewrite Z.eqb_refl, Z.leb_refl. cbn. lia.
  - destruct ((Score.player_id r =? p) && (g <? Score.gameweek r)) eqn:Esub.
    + apply andb_true_iff in Esub. destruct Esub as [Ep _].
      apply Z.eqb_eq in Ep. cbn. rewrite Hw, cumulative_split, Ep. reflexivity.
    + rewrite (Hinv r Hr). rewrite Hl at 1. rewrite cumulative_split. f_equal.
      unfold up_to, net, edited_row. cbn. rewrite Hpold.
      destruct (Z.eqb_spec p (Score.player_id r)) as [Ep|Ep]; [|reflexivity].
      cbn.
      assert (Hlt : Score.gameweek r < g).
      { apply andb_false_iff in Esub. destruct Esub as [E|E].
        - apply Z.eqb_neq in E. congruence.
        - apply Z.ltb_ge in E.
          destruct (Z.eq_dec (Score.gameweek r) g) as [Heq|Hne]; [|lia].
          exfalso. apply Hrid. apply Hclash; [assumption | congruence | assumption]. }
      replace (Score.gameweek old <=? Score.gameweek r) with false
        by (symmetry; apply Z.leb_gt; lia).
      replace (g <=? Score.gameweek r) with false
        by (symmetry; apply Z.leb_gt; lia).
      reflexivity.
Qed.

(** A round of the bulk loop for a player whose rows are all of earlier
    gameweeks keeps the totals right. *)
Lemma bulk_effect_invariant
  (form_data : FormData) (g : Z) (player : Player.t) (w w' : list Score.t) :
  bulk_effect form_data g player w w' ->
  (supplied form_data player = true ->
   forall r, In r w -> Score.player_id r = Player.id player ->
             Score.gameweek r < g) ->
  invariant w -> invariant w'.
Proof.
  intros H Hguard Hinv.
  destruct H as [| sp sc wp wc e rest Hsup _ _ _ _ Hsel
                 | sp sc wp wc Hsup _ _ _ _ _].
  - assumption.
  - exfalso. apply first_selected in Hsel. destruct Hsel as [He Hpe].
    apply andb_true_iff in Hpe. destruct Hpe as [Hp Hg].
    apply Z.eqb_eq in Hp, Hg. specialize (Hguard Hsup e He Hp). lia.
  - specialize (Hguard Hsup). intros r Hr. rewrite cumulative_snoc.
    apply in_app_or in Hr. destruct Hr as [Hr|[<-|[]]].
    + rewrite (Hinv r Hr). unfold up_to. cbn.
      destruct (Z.eqb_spec (Player.id player) (Score.player_id r)) as [Ep|Ep];
        cbn; [|lia].
      specialize (Hguard r Hr (eq_sym Ep)).
      replace (g <=? Score.gameweek r) with false
        by (symmetry; apply Z.leb_gt; lia).
      lia.
    + unfold up_to, net. cbn. rewrite Z.eqb_refl, Z.leb_refl. cbn.
      assert (E : cumulative w (Player.id player) g
                  = sum_net (filter (fun s => Score.player_id s =? Player.id player) w)).
      { unfold cumulative. apply sum_net_filter_ext. intros r Hr. unfold up_to.
        destruct (Z.eqb_spec (Score.player_id r) (Player.id player)) as [Ep|Ep];
          [|reflexivity].
        specialize (Hguard r Hr Ep). cbn. apply Z.leb_le. lia. }
      rewrite E. lia.
Qed.

Lemma bulk_effect_In
  (form_data : FormData) (g : Z) (player : Player.t) (w w' : list Score.t)
  (r' : Score.t) :
  bulk_effect form_data g player w w' -> In r' w' ->
  Score.player_id r' = Player.id player
  \/ exists r, In r w /\ Score.player_id r = Score.player_id r'
               /\ Score.gameweek r = Score.gameweek r'.
Proof.
  intros H Hr'. destruct H.
  - right. exists r'. auto.
  - right. unfold update_rows in Hr'. apply in_map_iff in Hr'.
    destruct Hr' as (r & <- & Hr). exists r. split; [assumption|].
    destruct (Score.id r =? Score.id e); split; reflexivity.
  - apply in_app_or in Hr'. destruct Hr' as [Hr'|[<-|[]]].
    + right. exists r'. auto.
    + left. reflexivity.
Qed.

Lemma bulk_effects_invariant
  (form_data : FormData) (g : Z) (ps : list Player.t) (w w' : list Score.t) :
  bulk_effects form_data g ps w w' ->
  NoDup (map Player.id ps) ->
  (forall player, In player ps -> supplied form_data player = true ->
     forall r, In r w -> Score.player_id r = Player.id player ->
               Score.gameweek r < g) ->
  invariant w -> invariant w'.
Proof.
  induction 1 as [w | q ps w w1 w' Hq Hps IH]; intros Hndp Hguard Hinv.
  - assumption.
  - apply IH.
    + now inversion Hndp.
    + intros player Hin Hsup r' Hr' Hp.
      destruct (bulk_effect_In _ _ _ _ _ _ Hq Hr') as [Hq'|(r & Hr & Hrp & Hrg)].
      * exfalso. apply (player_of_id _ _ _ Hndp Hin). congruence.
      * rewrite <- Hrg. apply (Hguard player); [now right | assumption | assumption | congruence].
    + apply (bulk_effect_invariant _ _ _ _ _ Hq); [|assumption].
      intros Hsup. apply Hguard; [now left | assumption].
Qed.

Lemma bulk_effects_players_unique
  (form_data : FormData) (g : Z) (ps : list Player.t) (w w' : list Score.t) :
  bulk_effects form_data g ps w w' ->
  NoDup (map Score.id w) -> NoDup (map Score.id w').
Proof. intros H Hnd. now destruct (bulk_effects_frame _ _ _ _ _ H Hnd). Qed.

(** One request under one of the two conditions keeps the ids unique and the
    totals right. *)
Lemma invariant_preserved (db : Database) :
  unique_ids db -> invariant (scores_table db) ->
  (forall score_id player_id gameweek week_points week_cost,
     keeps_order db score_id player_id gameweek ->
     let db' := snd (run (update_score score_id player_id gameweek week_points
                            week_cost) db) in
     unique_ids db' /\ invariant (scores_table db'))
  /\ (forall form_data,
        appends_gameweek db form_data ->
        let db' := snd (run (create_scores_bulk form_data) db) in
        unique_ids db' /\ invariant (scores_table db')).
Proof.
  intros [Hndp Hnd] Hinv. split.
  - intros score_id p g wp wc (old & Hfind & Hp & Hg & Hclash). cbv zeta.
    rewrite (update_score_run _ _ _ _ _ _ old Hnd Hfind). cbv zeta.
    destruct (rows_ok _ _); cbn [snd]; [|now split].
    split.
    + split; cbn [players_table scores_table]; [assumption|].
      now rewrite recalculate_ids.
    + cbn [scores_table]. now apply (recalculate_invariant _ _ _ _ _ _ old).
  - intros form_data Hguard. cbv zeta.
    destruct (create_scores_bulk_run form_data db)
      as [(e & ->) | (g & w' & Hg & Hchain & ->)]; cbn [snd]; [now split|].
    split.
    + split; cbn [players_table scores_table]; [assumption|].
      now apply (bulk_effects_players_unique _ _ _ _ _ Hchain).
    + cbn [scores_table].
      apply (bulk_effects_invariant _ _ _ _ _ Hchain); [assumption | | assumption].
      intros player Hin Hsup r Hr Hrp. now apply (Hguard g Hg player).
Qed.

(** ** The examples of the specification *)

Example bulk_builds_spec_example :
  snd (run (create_scores_bulk week2_form)
         (snd (run (create_scores_bulk week1_form) (mkDatabase league []))))
  = spec_example.
Proof. vm_compute. reflexivity. Qed.

Example edit_week1_cascades :
  run (update_score 1 1 1 60 0) spec_example
  = (inr (RedirectResponse "/scores" 302),
     mkDatabase league [Score.mk 1 1 1 60 0 60; Score.mk 2 1 2 40 5 95]).
Proof. vm_compute. reflexivity. Qed.

Example bulk_week3_seeds_105 :
  run (create_scores_bulk week3_form) spec_example
  = (inr (RedirectResponse "/scores" 302),
     mkDatabase league
       [Score.mk 1 1 1 50 0 50; Score.mk 2 1 2 40 5 85; Score.mk 3 1 3 30 10 105]).
Proof. vm_compute. reflexivity. Qed.

Example negative_total_is_rejected :
  run (update_score 1 1 1 0 60) spec_example = (inl IntegrityError, spec_example).
Proof. vm_compute. reflexivity. Qed.

Example int_examples :
  map parse_int ["12"; " 12 "; "-3"; "+4"; "1_000"; "1__0"; "_1"; ""; "abc"; "- 5"]
  = [Some 12; Some 12; Some (-3); Some 4; Some 1000; None; None; None; None; None].
Proof. vm_compute. reflexivity. Qed.

(** A tab or a line feed around the number is skipped, the unit separator
    (31) that [strip] removes is not; 4300 digits are read, 4301 are not. *)
Example int_white_space_and_limit :
  map parse_int
    [String "009" "5"; String "010" "5"; String "031" "5"; String "028" "5";
     String "5" (String "031" ""); String "5" (String "010" "");
     string_of_list_ascii (repeat "0"%char 4300);
     string_of_list_ascii (repeat "0"%char 4301)]
  = [Some 5; Some 5; None; None; None; Some 5; Some 0; None].
Proof. vm_compute. reflexivity. Qed.

(** ** C1: the invariant over the reachable databases *)

(** C1, as stated, fails: uploading gameweek 1 twice for the same player,
    with 50 and then 60 points, overwrites the points of the row and keeps
    its total, so a reachable database has a row whose [overall_points], 50,
    is not the sum, 60. *)
Lemma invariant_broken_by_second_upload :
  reachable uploaded_twice
  /\ scores_table uploaded_twice = [Score.mk 1 1 1 60 0 50]
  /\ ~ invariant (scores_table uploaded_twice).
Proof.
  split; [|split].
  - exact (reach_bulk _ week1_again_form
             (reach_bulk _ week1_form (reach_empty league))).
  - vm_compute. reflexivity.
  - intro H. specialize (H (Score.mk 1 1 1 60 0 50)). vm_compute in H.
    specialize (H (or_introl eq_refl)). discriminate.
Qed.

Lemma reachable_in_order_sound (db : Database) :
  reachable_in_order db -> unique_ids db /\ invariant (scores_table db).
Proof.
  induction 1 as [pl Hpl | db form_data _ IH Hguard
                  | db score_id p g wp wc _ IH Hguard].
  - split; [split; [assumption | constructor] | intros r []].
  - destruct IH as [Hu Hinv].
    exact (proj2 (invariant_preserved db Hu Hinv) form_data Hguard).
  - destruct IH as [Hu Hinv].
    exact (proj1 (invariant_preserved db Hu Hinv) score_id p g wp wc Hguard).
Qed.

(** C1, amended.  In every database reached from an empty scores table by
    bulk uploads for a gameweek later than every row of the players they
    supply, and by updates that keep the row's player, do not move the row
    to a later gameweek and meet no other row of that player at the target
    gameweek, each row's [overall_points] is the sum of
    [week_points - week_cost] over the rows of its player up to its
    gameweek. *)
Theorem invariant_reachable_in_order (db : Database) (r : Score.t) :
  reachable_in_order db -> In r (scores_table db) ->
  Score.overall_points r
  = sum_net (filter (fun s => (Score.player_id s =? Score.player_id r)
                              && (Score.gameweek s <=? Score.gameweek r))
               (scores_table db)).
Proof.
  intros Hreach Hr. destruct (reachable_in_order_sound db Hreach) as [_ Hinv].
  exact (Hinv r Hr).
Qed.

Lemma league_unique : NoDup (map Player.id league).
Proof. repeat constructor; cbn; intuition discriminate. Defined.

Lemma spec_example_in_order : reachable_in_order spec_example.
Proof.
  change spec_example
    with (snd (run (create_scores_bulk week2_form)
                 (snd (run (create_scores_bulk week1_form)
                         (mkDatabase league []))))).
  apply order_bulk; [apply order_bulk; [apply order_empty, league_unique|]|].
  - intros g _ player _ _ r [].
  - intros g Hg player _ _ r Hr _. vm_compute in Hg. injection Hg as <-.
    vm_compute in Hr. destruct Hr as [<-|[]]. reflexivity.
Defined.

Lemma invariant_reachable_in_order_witness :
  reachable_in_order
    (snd (run (update_score 1 1 1 60 0) spec_example))
  /\ Score.overall_points (Score.mk 2 1 2 40 5 95)
     = sum_net (filter (fun s => (Score.player_id s =? 1)
                                 && (Score.gameweek s <=? 2))
                  (scores_table (snd (run (update_score 1 1 1 60 0) spec_example)))).
Proof.
  assert (H : reachable_in_order (snd (run (update_score 1 1 1 60 0) spec_example))).
  { apply order_update; [exact spec_example_in_order|].
    exists (Score.mk 1 1 1 50 0 50). split; [reflexivity|].
    split; [reflexivity|]. split; [cbn; lia|].
    intros r [<-|[<-|[]]]; cbn; intros; [reflexivity | discriminate]. }
  split; [exact H|].
  apply (invariant_reachable_in_order _ (Score.mk 2 1 2 40 5 95) H).
  vm_compute. right. left. reflexivity.
Defined.

Lemma invariantb_iff (l : list Score.t) : invariantb l = true <-> invariant l.
Proof.
  unfold invariantb, invariant. rewrite forallb_forall.
  split; intros H r Hr; specialize (H r Hr); lia.
Qed.

(** Requests outside the two conditions can leave a stale total: an update
    that moves a row to a later gameweek, one that moves it onto a gameweek
    the player already has a row for, and one that hands it to another
    player. *)
Example moving_later_leaves_stale_total :
  invariant (scores_table spec_example)
  /\ ~ invariant (scores_table (snd (run (update_score 1 1 3 50 0) spec_example))).
Proof.
  split; [apply invariantb_iff; reflexivity|].
  intro H. apply invariantb_iff in H. vm_compute in H. discriminate.
Qed.

Example clash_leaves_stale_total :
  invariant (scores_table spec_example)
  /\ ~ invariant (scores_table (snd (run (update_score 2 1 1 40 5) spec_example))).
Proof.
  split; [apply invariantb_iff; reflexivity|].
  intro H. apply invariantb_iff in H. vm_compute in H. discriminate.
Qed.

Example reparenting_leaves_stale_total :
  invariant (scores_table two_players)
  /\ ~ invariant (scores_table (snd (run (update_score 1 2 1 50 0) two_players))).
Proof.
  split; [apply invariantb_iff; reflexivity|].
  intro H. apply invariantb_iff in H. vm_compute in H. discriminate.
Qed.

(** ** C3: the total a bulk upload seeds *)

(** What the create path of a bulk upload seeds: the player gets one more
    row, whose total is the sum over all the rows the player had before the
    upload, whatever their gameweek, plus the submitted net points. *)
Lemma bulk_effects_create
  (form_data : FormData) (g : Z) (player : Player.t) (sp sc : string)
  (wp wc : Z) (ps : list Player.t) (w w' : list Score.t) :
  form_get (week_points_key player) form_data = Some sp -> sp <> "" ->
  parse_int sp = Some wp ->
  form_get (week_cost_key player) form_data = Some sc -> sc <> "" ->
  parse_int sc = Some wc ->
  bulk_effects form_data g ps w w' ->
  NoDup (map Player.id ps) -> NoDup (map Score.id w) -> In player ps ->
  filter (fun s => (Score.player_id s =? Player.id player)
                   && (Score.gameweek s =? g)) w = [] ->
  exists id,
    filter (fun s => Score.player_id s =? Player.id player) w'
    = filter (fun s => Score.player_id s =? Player.id player) w
      ++ [Score.mk id (Player.id player) g wp wc
            (sum_net (filter (fun s => Score.player_id s =? Player.id player) w)
             + wp - wc)].
Proof.
  intros Hp Hsp Hpp Hc Hsc Hpc Hchain.
  pose proof (supplied_true _ _ _ _ Hp Hsp Hc Hsc) as Hsup.
  induction Hchain as [w | q ps w w1 w' Hq Hps IH];
    intros Hndp Hnd Hin Hsel.
  - contradiction.
  - pose proof (bulk_effect_unique _ _ _ _ _ Hq Hnd) as Hnd1.
    destruct Hin as [->|Hin].
    + assert (Hnot : ~ In (Player.id player) (map Player.id ps)).
      { cbn in Hndp. now inversion Hndp. }
      destruct (bulk_effects_frame _ _ _ _ _ Hps Hnd1) as [_ Hframe].
      rewrite (Hframe _ Hnot).
      destruct Hq as [Hskip | sp0 sc0 wp0 wc0 e0 rest0 _ Hp0 Hc0 Hpp0 Hpc0 Hsel0
                     | sp0 sc0 wp0 wc0 _ Hp0 Hc0 Hpp0 Hpc0 Hsel0].
      * congruence.
      * congruence.
      * assert (wp0 = wp) by congruence. assert (wc0 = wc) by congruence. subst.
        exists (next_id w). rewrite filter_app. cbn. rewrite Z.eqb_refl.
        reflexivity.
    + pose proof (player_of_id _ _ _ Hndp Hin) as Hne.
      pose proof (bulk_effect_frame _ _ _ _ _ _ Hq Hnd Hne) as Hframe.
      rewrite <- Hframe.
      apply (IH ltac:(now inversion Hndp) Hnd1 Hin).
      rewrite filter_and, Hframe, <- filter_and. exact Hsel.
Qed.

Lemma bulk_seed_total
  (db db' : Database) (form_data : FormData) (response : Response)
  (gameweek : Z) (player : Player.t) (sp sc : string) (week_points week_cost : Z) :
  NoDup (map Player.id (players_table db)) ->
  NoDup (map Score.id (scores_table db)) ->
  run (create_scores_bulk form_data) db = (inr response, db') ->
  form_gameweek form_data = Some gameweek ->
  In player (players_table db) ->
  form_get (week_points_key player) form_data = Some sp -> sp <> "" ->
  parse_int sp = Some week_points ->
  form_get (week_cost_key player) form_data = Some sc -> sc <> "" ->
  parse_int sc = Some week_cost ->
  filter (fun s => (Score.player_id s =? Player.id player)
                   && (Score.gameweek s =? gameweek)) (scores_table db) = [] ->
  exists id,
    filter (fun s => Score.player_id s =? Player.id player) (scores_table db')
    = filter (fun s => Score.player_id s =? Player.id player) (scores_table db)
      ++ [Score.mk id (Player.id player) gameweek week_points week_cost
            (sum_net (filter (fun s => Score.player_id s =? Player.id player)
                        (scores_table db))
             + week_points - week_cost)].
Proof.
  intros Hndp Hnd Hrun Hg Hin Hp Hsp Hpp Hc Hsc Hpc Hsel.
  destruct (create_scores_bulk_run form_data db)
    as [(e & He) | (g & w' & Hg' & Hchain & Hr)].
  - congruence.
  - rewrite Hr in Hrun. injection Hrun as _ <-. cbn [scores_table].
    assert (g = gameweek) by congruence. subst g.
    exact (bulk_effects_create _ _ _ _ _ _ _ _ _ _ Hp Hsp Hpp Hc Hsc Hpc
             Hchain Hndp Hnd Hin Hsel).
Qed.


Example late_start_is_reachable :
  snd (run (create_scores_bulk week2_form) (mkDatabase league [])) = late_start.
Proof. vm_compute. reflexivity. Qed.

(** C3 fails on the code.  Player 1 has a score for gameweek 2 only
    (40 points, cost 5); a bulk upload for gameweek 1 with 50 points and no
    cost creates a row whose [overall_points] is 85, the sum over all of the
    player's rows, where the sum over the rows up to gameweek 1 plus the
    submitted net points is 50. *)
Theorem bulk_seed_counts_later_gameweeks :
  run (create_scores_bulk week1_form) late_start
  = (inr (RedirectResponse "/scores" 302),
     mkDatabase league [Score.mk 1 1 2 40 5 35; Score.mk 2 1 1 50 0 85])
  /\ sum_net (filter (fun s => (Score.player_id s =? 1)
                               && (Score.gameweek s <=? 1))
                (scores_table late_start))
     + (50 - 0) = 50.
Proof. split; vm_compute; reflexivity. Qed.

(** ** Instances *)

Lemma spec_example_unique : NoDup (map Score.id (scores_table spec_example)).
Proof. repeat constructor; cbn; intuition discriminate. Defined.

Lemma two_players_unique : NoDup (map Score.id (scores_table two_players)).
Proof. repeat constructor; cbn; intuition discriminate. Defined.

Lemma update_score_cascade_witness :
  exists db',
    run (update_score 1 1 1 60 0) spec_example
    = (inr (RedirectResponse "/scores" 302), db')
    /\ (exists edited,
          find_score 1 (scores_table db') = Some edited
          /\ Score.player_id edited = 1
          /\ Score.gameweek edited = 1
          /\ Score.week_points edited = 60
          /\ Score.week_cost edited = 0
          /\ Score.overall_points edited
             = sum_net (filter (fun s => (Score.player_id s =? 1)
                                         && (Score.gameweek s <=? 1)
                                         && negb (Score.id s =? 1))
                          (scores_table db'))
               + (60 - 0))
    /\ (forall r, In r (scores_table db') ->
          Score.player_id r = 1 -> 1 < Score.gameweek r ->
          Score.overall_points r
          = sum_net (filter (fun s => (Score.player_id s =? 1)
                                      && (Score.gameweek s <=? Score.gameweek r))
                       (scores_table db'))).
Proof.
  destruct (update_score_cascade spec_example 1 1 1 60 0 (Score.mk 1 1 1 50 0 50)
              spec_example_unique eq_refl) as [Hgo Hafter].
  destruct Hgo as [db' Hrun].
  - lia.
  - lia.
  - intros r [<-|[<-|[]]]; cbn; lia.
  - repeat constructor; cbn; lia.
  - unfold sqlite_integer. lia.
  - unfold sqlite_integer. cbn. lia.
  - exists db'. split; [exact Hrun|]. exact (Hafter _ _ Hrun).
Defined.

Lemma score_not_found_witness :
  run (update_score 7 1 3 30 10) spec_example
  = (inl (HTTPException 404 "Score not found"), spec_example)
  /\ run (delete_score 7) spec_example
     = (inl (HTTPException 404 "Score not found"), spec_example)
  /\ run (delete_score_form 7) spec_example
     = (inl (HTTPException 404 "Score not found"), spec_example).
Proof.
  apply (score_not_found spec_example 7 1 3 30 10).
  unfold sqlite_integer. lia.
Defined.

Lemma bulk_overwrites_points_and_cost_only_witness :
  filter (fun s => Score.player_id s =? 1)
    (scores_table (snd (run (create_scores_bulk week2_again_form) spec_example)))
  = [Score.mk 1 1 1 50 0 50; Score.mk 2 1 2 45 5 85].
Proof.
  apply (bulk_overwrites_points_and_cost_only spec_example
           (snd (run (create_scores_bulk week2_again_form) spec_example))
           week2_again_form (RedirectResponse "/scores" 302) 2
           (Player.mk 1 "P" "Reds") "45" "5" 45 5 (Score.mk 2 1 2 40 5 85) []
           league_unique spec_example_unique eq_refl eq_refl
           (or_introl eq_refl)
           eq_refl ltac:(discriminate) eq_refl
           eq_refl ltac:(discriminate) eq_refl eq_refl).
Defined.

Lemma update_score_isolation_witness :
  nth_error (scores_table (snd (run (update_score 3 2 2 40 5) two_players))) 0
  = Some (Score.mk 1 1 1 50 0 50).
Proof.
  apply (proj1 (proj2 (update_score_isolation two_players 3 2 2 40 5
                         two_players_unique))
           0%nat (Score.mk 1 1 1 50 0 50)).
  - reflexivity.
  - cbn. lia.
  - cbn. lia.
Defined.

Lemma delete_score_removes_one_witness :
  exists before after,
    scores_table spec_example = before ++ Score.mk 1 1 1 50 0 50 :: after
    /\ run (delete_score 1) spec_example
       = (inr (RedirectResponse "/scores" 302),
          mkDatabase (players_table spec_example) (before ++ after))
    /\ run (delete_score_form 1) spec_example
       = (inr (RedirectResponse "/scores" 302),
          mkDatabase (players_table spec_example) (before ++ after)).
Proof.
  apply (delete_score_removes_one spec_example 1 (Score.mk 1 1 1 50 0 50)
           spec_example_unique eq_refl).
Defined.

Lemma update_score_all_or_nothing_witness :
  run (update_score 1 1 1 0 60) spec_example
  = (inr (RedirectResponse "/scores" 302),
     mkDatabase (players_table spec_example)
       (recalculate 1 1 1 0 60 (scores_table spec_example)))
  \/ exists e, run (update_score 1 1 1 0 60) spec_example = (inl e, spec_example).
Proof.
  apply (update_score_all_or_nothing spec_example 1 1 1 0 60 spec_example_unique).
Defined.

Lemma update_score_idempotent_witness :
  snd (run (update_score 1 1 1 60 0)
         (snd (run (update_score 1 1 1 60 0) spec_example)))
  = snd (run (update_score 1 1 1 60 0) spec_example).
Proof.
  apply (proj1 (update_score_idempotent spec_example 1 1 1 60 0
                  (Score.mk 1 1 1 50 0 50) spec_example_unique eq_refl)).
Defined.

Lemma scores_ignores_invalid_filter_witness :
  exists ctx,
    run (scores (Some "abc") (Some "2")) spec_example = (inr ctx, spec_example)
    /\ run (scores None (Some "2")) spec_example = (inr ctx, spec_example)
    /\ ctx_player_id ctx = None
    /\ ctx_gameweek ctx = Some 2
    /\ ctx_scores ctx = [Score.mk 2 1 2 40 5 85].
Proof.
  apply (proj1 (scores_ignores_invalid_filter spec_example (Some "2") "abc"
                  eq_refl eq_refl
                  ltac:(split;
                        [reflexivity
                        |intros n H; vm_compute in H; injection H as <-;
                         unfold sqlite_integer; lia]))).
Defined.

(** * Further properties of the handlers *)

(** ** The players handlers *)

Lemma next_player_id_fresh (l : list Player.t) (p : Player.t) :
  In p l -> Player.id p < next_player_id l.
Proof.
  destruct l as [|a l]; [contradiction|]. unfold next_player_id.
  destruct (fold_max_ge (map Player.id l) (Player.id a)) as [H1 H2].
  intros [<-|Hp]; [lia|].
  specialize (H2 (Player.id p) (in_map Player.id l p Hp)). lia.
Qed.

Lemma find_player_In (id : Z) (l : list Player.t) (p : Player.t) :
  find_player id l = Some p -> In p l /\ Player.id p = id.
Proof.
  unfold find_player. intro H. apply find_some in H.
  destruct H as [Hin Heq]. split; [assumption | lia].
Qed.

Lemma find_player_None (id : Z) (l : list Player.t) :
  find_player id l = None -> forall p, In p l -> Player.id p <> id.
Proof.
  unfold find_player. intros H p Hp Heq.
  pose proof (find_none _ _ H p Hp) as Hn. simpl in Hn. lia.
Qed.

Lemma find_player_app (id : Z) (l1 l2 : list Player.t) :
  find_player id (l1 ++ l2)
  = match find_player id l1 with
    | Some p => Some p
    | None => find_player id l2
    end.
Proof.
  unfold find_player. induction l1 as [|a l1 IH]; simpl.
  - reflexivity.
  - destruct (Player.id a =? id); [reflexivity | exact IH].
Qed.

Lemma find_player_fresh (l : list Player.t) :
  find_player (next_player_id l) l = None.
Proof.
  destruct (find_player (next_player_id l) l) as [p|] eqn:E; [|reflexivity].
  apply find_player_In in E. destruct E as [Hin Hid].
  apply next_player_id_fresh in Hin. lia.
Qed.

Lemma create_player_run (db : Database) (name team : string) :
  run (create_player name team) db
  = (inr (RedirectResponse "/players" 302),
     mkDatabase
       (players_table db
        ++ [Player.mk (next_player_id (players_table db)) name team])
       (scores_table db)).
Proof. reflexivity. Qed.

(** X1. [create_player] always goes through: the new player gets an id no
    player had, is found under that id with the submitted name and team,
    every other id finds what it found before, and the scores are as they
    were. *)
Theorem create_player_adds_one (db : Database) (name team : string) :
  let db' := snd (run (create_player name team) db) in
  let id := next_player_id (players_table db) in
  fst (run (create_player name team) db)
  = inr (RedirectResponse "/players" 302)
  /\ ~ In id (map Player.id (players_table db))
  /\ find_player id (players_table db') = Some (Player.mk id name team)
  /\ (forall other, other <> id ->
        find_player other (players_table db')
        = find_player other (players_table db))
  /\ List.length (players_table db') = S (List.length (players_table db))
  /\ scores_table db' = scores_table db.
Proof.
  cbv zeta. rewrite create_player_run. cbn [fst snd players_table scores_table].
  split; [reflexivity|]. split.
  { intro H. apply in_map_iff in H. destruct H as (p & Hid & Hp).
    apply next_player_id_fresh in Hp. lia. }
  split.
  { rewrite find_player_app, find_player_fresh. unfold find_player. cbn.
    now rewrite Z.eqb_refl. }
  split.
  { intros other Hne. rewrite find_player_app.
    destruct (find_player other (players_table db)); [reflexivity|].
    unfold find_player. cbn.
    now rewrite (proj2 (Z.eqb_neq _ _) (not_eq_sym Hne)). }
  split; [|reflexivity].
  rewrite length_app. cbn. lia.
Qed.

Lemma update_player_missing (db : Database) (id : Z) (name team : string) :
  find_player id (players_table db) = None ->
  run (update_player id name team) db
  = (inl (HTTPException 404 "Player not found"), db).
Proof.
  intro Hfind. unfold run, update_player, bind, session_get_player.
  cbn [view players_table]. rewrite Hfind. reflexivity.
Qed.

Lemma update_player_present (db : Database) (id : Z) (name team : string)
  (old : Player.t) :
  find_player id (players_table db) = Some old ->
  run (update_player id name team) db
  = (inr (RedirectResponse "/players" 302),
     mkDatabase
       (map (fun p => if Player.id p =? id
                      then Player.mk (Player.id p) name team else p)
          (players_table db))
       (scores_table db)).
Proof.
  intro Hfind. unfold run, update_player, bind, session_get_player.
  cbn [view players_table]. rewrite Hfind. reflexivity.
Qed.

Lemma find_player_map (f : Player.t -> Player.t) (id : Z) (l : list Player.t) :
  (forall p, Player.id (f p) = Player.id p) ->
  find_player id (map f l) = option_map f (find_player id l).
Proof.
  intro Hf. unfold find_player. induction l as [|x l IH]; simpl.
  - reflexivity.
  - rewrite Hf. destruct (Player.id x =? id); [reflexivity | exact IH].
Qed.

(** X2. [update_player] answers 404 and changes nothing when the id (an
    integer SQLite can take) is not in the table.  Otherwise it goes
    through: the id then finds the player with the submitted name and team,
    every other id finds what it found before, the ids stay in their order
    and the scores are as they were. *)
Theorem update_player_sets_name_and_team
  (db : Database) (player_id : Z) (name team : string) :
  sqlite_integer player_id ->
  match find_player player_id (players_table db) with
  | None =>
      run (update_player player_id name team) db
      = (inl (HTTPException 404 "Player not found"), db)
  | Some _ =>
      exists db',
        run (update_player player_id name team) db
        = (inr (RedirectResponse "/players" 302), db')
        /\ find_player player_id (players_table db')
           = Some (Player.mk player_id name team)
        /\ (forall other, other <> player_id ->
              find_player other (players_table db')
              = find_player other (players_table db))
        /\ map Player.id (players_table db') = map Player.id (players_table db)
        /\ scores_table db' = scores_table db
  end.
Proof.
  intros _.
  destruct (find_player player_id (players_table db)) as [old|] eqn:Hfind.
  2:{ now apply update_player_missing. }
  eexists. split; [now apply (update_player_present _ _ _ _ old)|].
  cbn [players_table scores_table].
  set (f := fun p => if Player.id p =? player_id
                     then Player.mk (Player.id p) name team else p).
  assert (Hf : forall p, Player.id (f p) = Player.id p).
  { intro p. unfold f. destruct (Player.id p =? player_id); reflexivity. }
  split.
  { rewrite (find_player_map f) by exact Hf. rewrite Hfind. cbn.
    destruct (find_player_In _ _ _ Hfind) as [_ Hid].
    unfold f. rewrite Hid, Z.eqb_refl. reflexivity. }
  split.
  { intros other Hne. rewrite (find_player_map f) by exact Hf.
    destruct (find_player other (players_table db)) as [p|] eqn:E; [|reflexivity].
    destruct (find_player_In _ _ _ E) as [_ Hid]. cbn. unfold f.
    rewrite (proj2 (Z.eqb_neq _ _)) by congruence. reflexivity. }
  split; [|reflexivity].
  rewrite map_map. apply map_ext. exact Hf.
Qed.

Lemma update_player_sets_name_and_team_witness :
  run (update_player 9 "Q" "Blues") spec_example
  = (inl (HTTPException 404 "Player not found"), spec_example).
Proof.
  apply (update_player_sets_name_and_team spec_example 9 "Q" "Blues").
  unfold sqlite_integer. lia.
Defined.

(** X3. Of two [update_player] requests for the same id the second one
    wins: the database and the answer are those of the second request
    alone. *)
Theorem update_player_last_wins
  (db : Database) (player_id : Z) (name1 team1 name2 team2 : string) :
  run (update_player player_id name2 team2)
    (snd (run (update_player player_id name1 team1) db))
  = run (update_player player_id name2 team2) db.
Proof.
  destruct (find_player player_id (players_table db)) as [old|] eqn:Hfind.
  2:{ now rewrite (update_player_missing _ _ name1 team1 Hfind). }
  rewrite (update_player_present _ _ name1 team1 old Hfind). cbn [snd].
  set (f1 := fun p => if Player.id p =? player_id
                      then Player.mk (Player.id p) name1 team1 else p).
  assert (Hfind1 : find_player player_id (map f1 (players_table db))
                   = Some (f1 old)).
  { rewrite find_player_map, Hfind; [reflexivity|].
    intro p. unfold f1. destruct (Player.id p =? player_id); reflexivity. }
  rewrite (update_player_present
             (mkDatabase (map f1 (players_table db)) (scores_table db))
             _ name2 team2 (f1 old) Hfind1).
  rewrite (update_player_present _ _ name2 team2 old Hfind).
  cbn [players_table scores_table]. do 2 f_equal.
  rewrite map_map. apply map_ext. intro p. unfold f1.
  destruct (Player.id p =? player_id) eqn:E; cbn; rewrite E; reflexivity.
Qed.

Lemma delete_player_missing (db : Database) (id : Z) :
  find_player id (players_table db) = None ->
  run (delete_player id) db
  = (inl (HTTPException 404 "Player not found"), db).
Proof.
  intro Hfind. unfold run, delete_player, bind, session_get_player.
  cbn [view players_table]. rewrite Hfind. reflexivity.
Qed.

Lemma delete_player_present (db : Database) (id : Z) (p : Player.t) :
  find_player id (players_table db) = Some p ->
  run (delete_player id) db
  = if existsb (fun r => Score.player_id r =? id) (scores_table db)
    then (inl IntegrityError, db)
    else (inr (RedirectResponse "/players" 302),
          mkDatabase
            (filter (fun p => negb (Player.id p =? id)) (players_table db))
            (scores_table db)).
Proof.
  intro Hfind. unfold run, delete_player, bind, session_get_player.
  cbn [view players_table]. rewrite Hfind.
  unfold delete_player_row. cbn [view scores_table].
  destruct (existsb _ _); reflexivity.
Qed.

(** X4. A player who still has a score is not deleted: both delete handlers
    raise and the database keeps its players and its scores. *)
Theorem delete_player_with_scores_refused
  (db : Database) (player_id : Z) (r : Score.t) :
  In r (scores_table db) -> Score.player_id r = player_id ->
  exists e,
    run (delete_player player_id) db = (inl e, db)
    /\ run (delete_player_form player_id) db = (inl e, db).
Proof.
  intros Hr Hp.
  change (delete_player_form player_id) with (delete_player player_id).
  destruct (find_player player_id (players_table db)) as [p|] eqn:Hfind.
  - exists IntegrityError. rewrite (delete_player_present _ _ p Hfind).
    replace (existsb _ _) with true; [now split|].
    symmetry. apply existsb_exists. exists r. split; [assumption|].
    now apply Z.eqb_eq.
  - eexists. rewrite (delete_player_missing _ _ Hfind). now split.
Qed.

Lemma delete_player_with_scores_refused_witness :
  exists e,
    run (delete_player 1) spec_example = (inl e, spec_example)
    /\ run (delete_player_form 1) spec_example = (inl e, spec_example).
Proof.
  apply (delete_player_with_scores_refused spec_example 1
           (Score.mk 1 1 1 50 0 50)).
  - cbn. left. reflexivity.
  - reflexivity.
Defined.

Lemma split_player (l : list Player.t) (id : Z) (p : Player.t) :
  NoDup (map Player.id l) -> find_player id l = Some p ->
  exists before after,
    l = before ++ p :: after
    /\ forall x, In x (before ++ after) -> Player.id x <> id.
Proof.
  intros Hnd Hfind. destruct (find_player_In _ _ _ Hfind) as [Hin Hid].
  destruct (in_split _ _ Hin) as (before & after & ->).
  exists before, after. split; [reflexivity|].
  intros x Hx Heq. rewrite map_app in Hnd. cbn [map] in Hnd.
  apply NoDup_remove_2 in Hnd. apply Hnd.
  rewrite <- map_app, Hid, <- Heq. now apply in_map.
Qed.

Lemma filter_players_all (P : Player.t -> bool) (l : list Player.t) :
  (forall x, In x l -> P x = true) -> filter P l = l.
Proof.
  induction l as [|a l IH]; intro H; simpl.
  - reflexivity.
  - rewrite (H a) by now left. rewrite IH by (intros; apply H; now right).
    reflexivity.
Qed.

(** X5. Deleting a player who has no score takes exactly that player out of
    the table: the players before and after stay in place, and so do all the
    scores; both delete handlers do so. *)
Theorem delete_player_removes_one (db : Database) (player_id : Z) (p : Player.t) :
  NoDup (map Player.id (players_table db)) ->
  find_player player_id (players_table db) = Some p ->
  (forall r, In r (scores_table db) -> Score.player_id r <> player_id) ->
  exists before after,
    players_table db = before ++ p :: after
    /\ run (delete_player player_id) db
       = (inr (RedirectResponse "/players" 302),
          mkDatabase (before ++ after) (scores_table db))
    /\ run (delete_player_form player_id) db
       = (inr (RedirectResponse "/players" 302),
          mkDatabase (before ++ after) (scores_table db)).
Proof.
  intros Hnd Hfind Hnone.
  destruct (split_player _ _ _ Hnd Hfind) as (before & after & Hl & Hother).
  exists before, after. split; [exact Hl|].
  change (delete_player_form player_id) with (delete_player player_id).
  rewrite (delete_player_present _ _ p Hfind).
  replace (existsb _ (scores_table db)) with false.
  2:{ symmetry. apply not_true_is_false. intro H. apply existsb_exists in H.
      destruct H as (r & Hr & Heq). apply Z.eqb_eq in Heq.
      exact (Hnone r Hr Heq). }
  assert (E : filter (fun x => negb (Player.id x =? player_id)) (players_table db)
              = before ++ after).
  { rewrite Hl. destruct (find_player_In _ _ _ Hfind) as [_ Hid].
    rewrite filter_app. cbn [filter]. rewrite Hid, Z.eqb_refl. cbn [negb].
    rewrite <- filter_app. apply filter_players_all.
    intros x Hx. apply negb_true_iff, Z.eqb_neq. now apply Hother. }
  rewrite E. split; reflexivity.
Qed.

Lemma delete_player_removes_one_witness :
  exists before after,
    players_table spec_example = before ++ Player.mk 2 "Q" "Blues" :: after
    /\ run (delete_player 2) spec_example
       = (inr (RedirectResponse "/players" 302),
          mkDatabase (before ++ after) (scores_table spec_example))
    /\ run (delete_player_form 2) spec_example
       = (inr (RedirectResponse "/players" 302),
          mkDatabase (before ++ after) (scores_table spec_example)).
Proof.
  apply (delete_player_removes_one spec_example 2 (Player.mk 2 "Q" "Blues")
           league_unique eq_refl).
  intros r [<-|[<-|[]]]; cbn; lia.
Defined.

(** X6. Creating a player and deleting it again gives the database back,
    when no score carries the id the new player gets. *)
Theorem create_then_delete_player (db : Database) (name team : string) :
  (forall r, In r (scores_table db) ->
             Score.player_id r <> next_player_id (players_table db)) ->
  run (delete_player (next_player_id (players_table db)))
    (snd (run (create_player name team) db))
  = (inr (RedirectResponse "/players" 302), db).
Proof.
  intro Hnone. rewrite create_player_run. cbn [snd].
  set (id := next_player_id (players_table db)).
  erewrite delete_player_present; cbn [players_table scores_table].
  2:{ rewrite find_player_app. unfold id. rewrite find_player_fresh.
      unfold find_player. cbn. now rewrite Z.eqb_refl. }
  replace (existsb _ (scores_table db)) with false.
  2:{ symmetry. apply not_true_is_false. intro H. apply existsb_exists in H.
      destruct H as (r & Hr & Heq). apply Z.eqb_eq in Heq.
      exact (Hnone r Hr Heq). }
  rewrite filter_app. cbn [filter]. rewrite Z.eqb_refl. cbn [negb].
  rewrite app_nil_r, filter_players_all.
  - destruct db; reflexivity.
  - intros x Hx. apply negb_true_iff, Z.eqb_neq.
    apply next_player_id_fresh in Hx. unfold id. lia.
Qed.

Lemma create_then_delete_player_witness :
  run (delete_player 3) (snd (run (create_player "R" "Reds") spec_example))
  = (inr (RedirectResponse "/players" 302), spec_example).
Proof.
  apply (create_then_delete_player spec_example "R" "Reds").
  intros r [<-|[<-|[]]]; cbn; lia.
Defined.

(** ** More on update_score and delete_score *)

(** X7. An update neither adds nor removes a row and keeps the ids in
    their order; of a row other than the edited one it can only rewrite
    [overall_points]: player, gameweek, points and cost stay. *)
Theorem update_score_keeps_shape
  (db : Database) (score_id player_id gameweek week_points week_cost : Z) :
  NoDup (map Score.id (scores_table db)) ->
  let db' :=
    snd (run (update_score score_id player_id gameweek week_points week_cost) db) in
  map Score.id (scores_table db') = map Score.id (scores_table db)
  /\ forall i r, nth_error (scores_table db) i = Some r ->
       Score.id r <> score_id ->
       exists r',
         nth_error (scores_table db') i = Some r'
         /\ Score.id r' = Score.id r
         /\ Score.player_id r' = Score.player_id r
         /\ Score.gameweek r' = Score.gameweek r
         /\ Score.week_points r' = Score.week_points r
         /\ Score.week_cost r' = Score.week_cost r.
Proof.
  intro Hnd. cbv zeta.
  assert (Hsame : forall i r, nth_error (scores_table db) i = Some r ->
            exists r',
              nth_error (scores_table db) i = Some r'
              /\ Score.id r' = Score.id r
              /\ Score.player_id r' = Score.player_id r
              /\ Score.gameweek r' = Score.gameweek r
              /\ Score.week_points r' = Score.week_points r
              /\ Score.week_cost r' = Score.week_cost r).
  { intros i r Hi. exists r. repeat split; auto. }
  destruct (find_score score_id (scores_table db)) as [old|] eqn:Hfind.
  2:{ rewrite (update_score_missing _ _ _ _ _ _ Hfind). cbn [snd].
      split; [reflexivity|]. intros i r Hi _. now apply Hsame. }
  rewrite (update_score_run _ _ _ _ _ _ old Hnd Hfind). cbv zeta.
  destruct (rows_ok _ _); cbn [snd scores_table].
  2:{ split; [reflexivity|]. intros i r Hi _. now apply Hsame. }
  split; [apply recalculate_ids|].
  intros i r Hi Hid. rewrite recalculate_rows, nth_error_map, Hi. cbn.
  eexists. split; [reflexivity|]. split; [apply row_after_id|].
  now apply row_after_other.
Qed.

Lemma update_score_keeps_shape_witness :
  map Score.id (scores_table (snd (run (update_score 1 1 1 60 0) spec_example)))
  = map Score.id (scores_table spec_example).
Proof.
  apply (proj1 (update_score_keeps_shape spec_example 1 1 1 60 0
                  spec_example_unique)).
Defined.

Lemma sum_net_filter_le (P : Score.t -> bool) (l : list Score.t) :
  (forall r, In r l -> 0 <= net r) -> sum_net (filter P l) <= sum_net l.
Proof.
  induction l as [|x l IH]; intro H; [cbn; lia|].
  pose proof (H x (or_introl eq_refl)) as Hx.
  specialize (IH (fun r Hr => H r (or_intror Hr))).
  cbn [filter]. destruct (P x); rewrite ?sum_net_cons; lia.
Qed.

Lemma sum_net_update_rows_le
  (id : Z) (f : Score.t -> Score.t) (v : Z) (l : list Score.t) :
  (forall r, In r l -> 0 <= net r) -> 0 <= v ->
  (forall r, net (f r) = v) ->
  NoDup (map Score.id l) ->
  sum_net (update_rows id f l) <= sum_net l + v.
Proof.
  intros Hl Hv Hf. induction l as [|x l IH]; intro Hnd; [cbn; lia|].
  pose proof (Hl x (or_introl eq_refl)) as Hx.
  inversion Hnd as [|a l' Hnot Hnd']; subst.
  unfold update_rows. cbn [map]. fold (update_rows id f l).
  rewrite !sum_net_cons.
  destruct (Z.eqb_spec (Score.id x) id) as [E|E].
  - assert (Hsame : update_rows id f l = l).
    { unfold update_rows. transitivity (map (fun r => r) l); [|apply map_id].
      apply map_ext_in. intros r Hr.
      destruct (Z.eqb_spec (Score.id r) id) as [Er|_]; [|reflexivity].
      exfalso. apply Hnot. rewrite E, <- Er. now apply in_map. }
    rewrite Hsame, Hf. lia.
  - specialize (IH (fun r Hr => Hl r (or_intror Hr)) Hnd'). lia.
Qed.

(** X8. An update of an existing score goes through, and stores the
    recalculated table, whenever the new gameweek is between 1 and 38, the
    new cost is not negative and not above the new points, no row of the
    table costs more than it scores (no recomputed total can then be
    negative), and the integers of the rows, the new player and the largest
    total that can come up are integers SQLite can take; those of the rows
    it stores are again such integers. *)
Theorem update_score_goes_through
  (db : Database) (score_id player_id gameweek week_points week_cost : Z)
  (old : Score.t) :
  NoDup (map Score.id (scores_table db)) ->
  find_score score_id (scores_table db) = Some old ->
  1 <= gameweek <= 38 -> 0 <= week_cost <= week_points ->
  (forall r, In r (scores_table db) -> Score.week_cost r <= Score.week_points r) ->
  Forall sqlite_score (scores_table db) ->
  sqlite_integer player_id ->
  sqlite_integer (sum_net (scores_table db) + week_points) ->
  run (update_score score_id player_id gameweek week_points week_cost) db
  = (inr (RedirectResponse "/scores" 302),
     mkDatabase (players_table db)
       (recalculate score_id player_id gameweek week_points week_cost
          (scores_table db)))
  /\ Forall sqlite_score
       (recalculate score_id player_id gameweek week_points week_cost
          (scores_table db)).
Proof.
  intros Hnd Hfind Hg Hw Hnet Hrows Hp Hsum.
  split; [exact (update_score_accepted _ _ _ _ _ _ old Hnd Hfind Hg Hw Hnet)|].
  assert (Hl : forall x, In x (scores_table db) -> 0 <= net x).
  { intros x Hx. specialize (Hnet x Hx). unfold net. lia. }
  pose proof (sum_net_nonneg _ Hl) as Hall.
  set (E := edited_row score_id player_id gameweek week_points week_cost
              (scores_table db)).
  assert (HE : forall r, net (E r) = week_points - week_cost) by reflexivity.
  assert (Hl' : forall x, In x (update_rows score_id E (scores_table db)) ->
                          0 <= net x).
  { intros x Hx. unfold update_rows in Hx. apply in_map_iff in Hx.
    destruct Hx as (y & <- & Hy).
    destruct (Score.id y =? score_id); [rewrite HE; lia | now apply Hl]. }
  pose proof (sum_net_update_rows_le score_id E (week_points - week_cost)
                (scores_table db) Hl ltac:(lia) HE Hnd) as Hup.
  unfold sqlite_integer in Hp, Hsum.
  rewrite recalculate_rows. apply Forall_map, Forall_forall. intros r Hr.
  pose proof (proj1 (Forall_forall _ _) Hrows r Hr) as (Hi & Hpl & Hgw & Hwp & Hwc & Ho).
  unfold sqlite_integer in Hi, Hpl, Hgw, Hwp, Hwc, Ho.
  unfold row_after. fold E. destruct (Score.id r =? score_id).
  - pose proof (sum_net_filter_le
                  (fun s => up_to player_id gameweek s
                            && negb (Score.id s =? score_id))
                  (scores_table db) Hl) as Hle.
    assert (0 <= sum_net
                    (filter (fun s => up_to player_id gameweek s
                                      && negb (Score.id s =? score_id))
                       (scores_table db))).
    { apply sum_net_nonneg. intros x Hx. apply filter_In in Hx. now apply Hl. }
    unfold E, edited_row, sqlite_score, sqlite_integer. cbn. lia.
  - destruct (_ && _).
    + pose proof (sum_net_filter_le (up_to player_id (Score.gameweek r))
                    (update_rows score_id E (scores_table db)) Hl') as Hle.
      assert (0 <= cumulative (update_rows score_id E (scores_table db))
                     player_id (Score.gameweek r)).
      { apply sum_net_nonneg. intros x Hx. apply filter_In in Hx. now apply Hl'. }
      unfold cumulative in *. unfold sqlite_score, sqlite_integer. cbn. lia.
    + unfold sqlite_score, sqlite_integer. lia.
Qed.

Lemma update_score_goes_through_witness :
  run (update_score 1 1 1 60 0) spec_example
  = (inr (RedirectResponse "/scores" 302),
     mkDatabase (players_table spec_example)
       (recalculate 1 1 1 60 0 (scores_table spec_example))).
Proof.
  apply (update_score_goes_through spec_example 1 1 1 60 0
           (Score.mk 1 1 1 50 0 50) spec_example_unique eq_refl).
  - lia.
  - lia.
  - intros r [<-|[<-|[]]]; cbn; lia.
  - repeat constructor; cbn; lia.
  - unfold sqlite_integer. lia.
  - unfold sqlite_integer. cbn. lia.
Defined.

(** X9. On a table whose totals are right, submitting a score's own player,
    gameweek, points and cost again changes nothing. *)
Theorem update_score_with_own_values
  (db : Database) (score_id : Z) (old : Score.t) :
  NoDup (map Score.id (scores_table db)) ->
  find_score score_id (scores_table db) = Some old ->
  invariant (scores_table db) ->
  run (update_score score_id (Score.player_id old) (Score.gameweek old)
         (Score.week_points old) (Score.week_cost old)) db
  = (inr (RedirectResponse "/scores" 302), db).
Proof.
  intros Hnd Hfind Hinv.
  rewrite (update_score_run _ _ _ _ _ _ old Hnd Hfind). cbv zeta.
  assert (E : recalculate score_id (Score.player_id old) (Score.gameweek old)
                (Score.week_points old) (Score.week_cost old) (scores_table db)
              = scores_table db).
  { destruct (split_row _ _ _ Hnd Hfind) as (l1 & l2 & Hl & Hother).
    destruct (find_score_In _ _ _ Hfind) as [Hin Hid].
    assert (Hold : edited_row score_id (Score.player_id old) (Score.gameweek old)
                     (Score.week_points old) (Score.week_cost old)
                     (scores_table db) old = old).
    { unfold edited_row, Score.set_all. rewrite Hl at 1.
      rewrite gathered_split by assumption.
      pose proof (Hinv old Hin) as Ho. rewrite Hl in Ho at 1.
      rewrite cumulative_split in Ho. unfold up_to in Ho.
      rewrite Z.eqb_refl, Z.leb_refl in Ho. cbn in Ho. unfold net in Ho.
      destruct old; cbn in *. f_equal. lia. }
    rewrite recalculate_rows.
    transitivity (map (fun x => x) (scores_table db)); [|apply map_id].
    apply map_ext_in. intros r Hr. unfold row_after.
    assert (Hw : update_rows score_id
                   (edited_row score_id (Score.player_id old) (Score.gameweek old)
                      (Score.week_points old) (Score.week_cost old)
                      (scores_table db)) (scores_table db)
                 = scores_table db).
    { rewrite Hl at 2 3. rewrite update_rows_split by assumption.
      now rewrite Hold. }
    rewrite Hw.
    destruct (Z.eqb_spec (Score.id r) score_id) as [Hrid|Hrid].
    - rewrite <- (unique_row _ old r Hnd Hin Hr) by congruence. exact Hold.
    - destruct ((Score.player_id r =? Score.player_id old)
                && (Score.gameweek old <? Score.gameweek r)) eqn:Esub;
        [|reflexivity].
      apply andb_true_iff in Esub. destruct Esub as [Ep _].
      apply Z.eqb_eq in Ep. rewrite <- Ep, <- (Hinv r Hr).
      destruct r; reflexivity. }
  rewrite E, rows_ok_refl. destruct db; reflexivity.
Qed.

Lemma spec_example_invariant : invariant (scores_table spec_example).
Proof. apply invariantb_iff. reflexivity. Defined.

Lemma update_score_with_own_values_witness :
  run (update_score 2 1 2 40 5) spec_example
  = (inr (RedirectResponse "/scores" 302), spec_example).
Proof.
  apply (update_score_with_own_values spec_example 2 (Score.mk 2 1 2 40 5 85)
           spec_example_unique eq_refl spec_example_invariant).
Defined.

Lemma find_score_filter_other (id other : Z) (l : list Score.t) :
  other <> id ->
  find_score other (filter (fun r => negb (Score.id r =? id)) l)
  = find_score other l.
Proof.
  intro Hne. unfold find_score. induction l as [|x l IH]; simpl.
  - reflexivity.
  - destruct (Z.eqb_spec (Score.id x) id) as [E|E]; cbn.
    + rewrite IH. rewrite (proj2 (Z.eqb_neq _ _)) by congruence. reflexivity.
    + destruct (Score.id x =? other); [reflexivity | exact IH].
Qed.

Lemma find_score_filter_same (id : Z) (l : list Score.t) :
  find_score id (filter (fun r => negb (Score.id r =? id)) l) = None.
Proof.
  destruct (find_score id (filter _ l)) as [r|] eqn:E; [|reflexivity].
  apply find_score_In in E. destruct E as [Hin Hid].
  apply filter_In in Hin. destruct Hin as [_ Hneg].
  rewrite Hid, Z.eqb_refl in Hneg. discriminate.
Qed.

(** X10. Once a score is deleted its id (an integer SQLite can take) is
    gone: the id finds nothing, a second delete and an update of it answer
    404 and change nothing, and every other id finds what it found
    before. *)
Theorem delete_score_then_lookup
  (db : Database) (score_id player_id gameweek week_points week_cost : Z) :
  sqlite_integer score_id ->
  let db' := snd (run (delete_score score_id) db) in
  find_score score_id (scores_table db') = None
  /\ run (delete_score score_id) db'
     = (inl (HTTPException 404 "Score not found"), db')
  /\ run (update_score score_id player_id gameweek week_points week_cost) db'
     = (inl (HTTPException 404 "Score not found"), db')
  /\ (forall other, other <> score_id ->
        find_score other (scores_table db') = find_score other (scores_table db))
  /\ players_table db' = players_table db.
Proof.
  intros _. cbv zeta.
  assert (Hgone : find_score score_id
                    (scores_table (snd (run (delete_score score_id) db))) = None).
  { destruct (find_score score_id (scores_table db)) as [r|] eqn:Hfind.
    - rewrite (delete_score_present _ _ _ Hfind). apply find_score_filter_same.
    - now rewrite (delete_score_missing _ _ Hfind). }
  split; [exact Hgone|].
  split; [now apply delete_score_missing|].
  split; [now apply update_score_missing|].
  destruct (find_score score_id (scores_table db)) as [r|] eqn:Hfind.
  - rewrite (delete_score_present _ _ _ Hfind). cbn [snd scores_table players_table].
    split; [|reflexivity]. intros other Hne. now apply find_score_filter_other.
  - rewrite (delete_score_missing _ _ Hfind). split; reflexivity.
Qed.

Lemma delete_score_then_lookup_witness :
  run (delete_score 1) (snd (run (delete_score 1) spec_example))
  = (inl (HTTPException 404 "Score not found"),
     snd (run (delete_score 1) spec_example)).
Proof.
  apply (proj1 (proj2 (delete_score_then_lookup spec_example 1 1 1 0 0
                         ltac:(unfold sqlite_integer; lia)))).
Defined.

(** ** Every writing route *)

Lemma keeps_stored_bind {A B : Type} (m : M A) (k : A -> M B) :
  keeps_stored m -> (forall a, keeps_stored (k a)) -> keeps_stored (bind m k).
Proof.
  intros Hm Hk s. unfold bind. specialize (Hm s).
  destruct (m s) as [[e|a] s1]; cbn in *; [assumption|].
  rewrite (Hk a s1). exact Hm.
Qed.

Lemma keeps_stored_for_each {A : Type} (l : list A) (body : A -> M unit) :
  (forall x, keeps_stored (body x)) -> keeps_stored (for_each l body).
Proof.
  intro Hbody. induction l as [|x l IH].
  - intro s. reflexivity.
  - cbn [for_each]. apply keeps_stored_bind; [apply Hbody | intro; exact IH].
Qed.

Lemma keeps_stored_modify (id : Z) (f : Score.t -> Score.t) :
  keeps_stored (modify id f).
Proof. intro s. unfold modify. destruct (update_ok _ _ _); reflexivity. Qed.

Lemma keeps_stored_insert (p g wp wc o : Z) : keeps_stored (insert p g wp wc o).
Proof. intro s. unfold insert. destruct (Score.check_insert _); reflexivity. Qed.

Lemma keeps_stored_int (v : string) : keeps_stored (int v).
Proof. intro s. unfold int. destruct (parse_int v); reflexivity. Qed.

Lemma keeps_stored_recompute (p : Z) (x : Score.t) :
  keeps_stored (recompute_subsequent p x).
Proof.
  unfold recompute_subsequent. apply keeps_stored_bind.
  - intro s. reflexivity.
  - intro l. apply keeps_stored_modify.
Qed.

Lemma keeps_stored_bulk_player (form_data : FormData) (g : Z) (player : Player.t) :
  keeps_stored (bulk_player form_data g player).
Proof.
  unfold bulk_player.
  destruct (form_get (week_points_key player) form_data) as [sp|];
    [|intro s; reflexivity].
  destruct (form_get (week_cost_key player) form_data) as [sc|];
    [|intro s; reflexivity].
  destruct (_ || _); [intro s; reflexivity|].
  apply keeps_stored_bind; [apply keeps_stored_int|]. intro wp.
  apply keeps_stored_bind; [apply keeps_stored_int|]. intro wc.
  apply keeps_stored_bind; [intro s; reflexivity|]. intros [|e rest].
  - apply keeps_stored_bind; [intro s; reflexivity|]. intro l.
    apply keeps_stored_insert.
  - apply keeps_stored_modify.
Qed.

Lemma keeps_stored_delete_player_row (id : Z) : keeps_stored (delete_player_row id).
Proof. intro s. unfold delete_player_row. destruct (existsb _ _); reflexivity. Qed.

Lemma raises_before_commit_bind {A B : Type} (m : M A) (k : A -> M B) :
  keeps_stored m -> (forall a, raises_before_commit (k a)) ->
  raises_before_commit (bind m k).
Proof.
  intros Hm Hk s e s'. unfold bind. specialize (Hm s).
  destruct (m s) as [[e1|a] s1]; cbn in Hm.
  - intros [= _ <-]. exact Hm.
  - intro H. rewrite (Hk a s1 e s' H). exact Hm.
Qed.

Lemma raises_before_commit_end (response : Response) :
  raises_before_commit (commit ;; ret response).
Proof. intros s e s' H. discriminate. Qed.

Lemma raises_before_commit_raise {A : Type} (e : exn) :
  raises_before_commit (@raise A e).
Proof. intros s e' s' [= _ <-]. reflexivity. Qed.

Lemma raises_before_commit_required (fields : list string) (handler : M Response) :
  raises_before_commit handler -> raises_before_commit (required fields handler).
Proof.
  intro H. unfold required.
  destruct (existsb _ fields); [apply raises_before_commit_raise | exact H].
Qed.

Lemma required_run (fields : list string) (handler : M Response) (db : Database) :
  run (required fields handler) db = run handler db
  \/ run (required fields handler) db = (inl RequestValidationError, db).
Proof.
  unfold required. destruct (existsb _ fields); [right | left]; reflexivity.
Qed.

Lemma route_raises_before_commit (request : Request) :
  raises_before_commit (route request).
Proof.
  destruct request; cbn [route].
  - apply raises_before_commit_required.
    apply raises_before_commit_bind; [intro s; reflexivity|]. intros [].
    apply raises_before_commit_end.
  - apply raises_before_commit_required.
    apply raises_before_commit_bind; [intro s; reflexivity|]. intros [p|].
    + apply raises_before_commit_bind; [intro s; reflexivity|]. intros [].
      apply raises_before_commit_end.
    + apply raises_before_commit_raise.
  - apply raises_before_commit_bind; [intro s; reflexivity|]. intros [p|].
    + apply raises_before_commit_bind; [apply keeps_stored_delete_player_row|].
      intros []. apply raises_before_commit_end.
    + apply raises_before_commit_raise.
  - apply raises_before_commit_bind; [intro s; reflexivity|]. intros [p|].
    + apply raises_before_commit_bind; [apply keeps_stored_delete_player_row|].
      intros []. apply raises_before_commit_end.
    + apply raises_before_commit_raise.
  - apply raises_before_commit_bind.
    { destruct (form_gameweek form_data); intro s; reflexivity. }
    intro g. apply raises_before_commit_bind; [intro s; reflexivity|]. intro pl.
    apply raises_before_commit_bind.
    { apply keeps_stored_for_each. intro x. apply keeps_stored_bulk_player. }
    intros []. apply raises_before_commit_end.
  - apply raises_before_commit_bind; [intro s; reflexivity|]. intros [old|].
    + apply raises_before_commit_bind; [intro s; reflexivity|]. intro others.
      apply raises_before_commit_bind; [apply keeps_stored_modify|]. intros [].
      apply raises_before_commit_bind; [intro s; reflexivity|]. intro subs.
      apply raises_before_commit_bind.
      { apply keeps_stored_for_each. intro x. apply keeps_stored_recompute. }
      intros []. apply raises_before_commit_end.
    + apply raises_before_commit_raise.
  - apply raises_before_commit_bind; [intro s; reflexivity|]. intros [old|].
    + apply raises_before_commit_bind; [intro s; reflexivity|]. intros [].
      apply raises_before_commit_end.
    + apply raises_before_commit_raise.
  - apply raises_before_commit_bind; [intro s; reflexivity|]. intros [old|].
    + apply raises_before_commit_bind; [intro s; reflexivity|]. intros [].
      apply raises_before_commit_end.
    + apply raises_before_commit_raise.
Qed.

(** X11. Whatever a writing route raises (a 404, a 422, a [ValueError] of
    [int], an [IntegrityError] of a constraint), and however far it had got,
    the database is left exactly as it was. *)
Theorem error_changes_nothing
  (request : Request) (db db' : Database) (e : exn) :
  run (route request) db = (inl e, db') -> db' = db.
Proof.
  unfold run. destruct (route request (mkSession db db)) as [r s] eqn:E.
  intros [= -> <-].
  exact (route_raises_before_commit request _ _ _ E).
Qed.

Lemma error_changes_nothing_witness :
  mkDatabase league [Score.mk 1 1 1 50 0 50; Score.mk 2 1 2 40 5 85]
  = spec_example.
Proof.
  apply (error_changes_nothing
           (PostScores [("gameweek", "2"); ("week_points_1", "45");
                        ("week_cost_1", "5"); ("week_points_2", "x");
                        ("week_cost_2", "0")])
           spec_example _ ValueError).
  vm_compute. reflexivity.
Defined.

Lemma NoDup_map_filter {A : Type} (f : A -> Z) (P : A -> bool) (l : list A) :
  NoDup (map f l) -> NoDup (map f (filter P l)).
Proof.
  induction l as [|x l IH]; cbn; intro H.
  - constructor.
  - inversion H as [|a l' Hnot Hnd]; subst.
    destruct (P x); cbn; [|now apply IH].
    constructor; [|now apply IH].
    intro Hin. apply Hnot. apply in_map_iff in Hin.
    destruct Hin as (y & Hy & Hyin). apply filter_In in Hyin.
    rewrite <- Hy. apply in_map. tauto.
Qed.

(** X12. Primary keys stay unique: no writing route, whether it goes
    through or raises, leaves two players or two scores with the same id. *)
Theorem route_keeps_ids_unique (request : Request) (db : Database) :
  unique_ids db -> unique_ids (snd (run (route request) db)).
Proof.
  intros [Hp Hs]. destruct request; cbn [route].
  - destruct (required_run [name; team] (create_player name team) db)
      as [-> | ->]; [|now split].
    rewrite create_player_run. split; cbn [snd players_table scores_table];
      [|assumption].
    rewrite map_app. apply NoDup_app; [assumption | repeat constructor; auto|].
    cbn. intros a Ha [<-|[]]. apply in_map_iff in Ha.
    destruct Ha as (p & Hid & Hin). apply next_player_id_fresh in Hin. lia.
  - destruct (required_run [name; team] (update_player player_id name team) db)
      as [-> | ->]; [|now split].
    destruct (find_player player_id (players_table db)) as [old|] eqn:Hfind.
    + rewrite (update_player_present _ _ _ _ old Hfind).
      split; cbn [snd players_table scores_table]; [|assumption].
      rewrite map_map.
      replace (map _ (players_table db)) with (map Player.id (players_table db));
        [assumption|].
      apply map_ext. intro p. destruct (Player.id p =? player_id); reflexivity.
    + rewrite (update_player_missing _ _ _ _ Hfind). now split.
  - destruct (find_player player_id (players_table db)) as [old|] eqn:Hfind.
    + rewrite (delete_player_present _ _ old Hfind).
      destruct (existsb _ _); [now split|].
      split; cbn [snd players_table scores_table]; [|assumption].
      now apply NoDup_map_filter.
    + rewrite (delete_player_missing _ _ Hfind). now split.
  - change (delete_player_form player_id) with (delete_player player_id).
    destruct (find_player player_id (players_table db)) as [old|] eqn:Hfind.
    + rewrite (delete_player_present _ _ old Hfind).
      destruct (existsb _ _); [now split|].
      split; cbn [snd players_table scores_table]; [|assumption].
      now apply NoDup_map_filter.
    + rewrite (delete_player_missing _ _ Hfind). now split.
  - destruct (create_scores_bulk_run form_data db)
      as [(e & ->) | (g & w' & Hg & Hchain & ->)]; cbn [snd]; [now split|].
    split; cbn [players_table scores_table]; [assumption|].
    now apply (bulk_effects_players_unique _ _ _ _ _ Hchain).
  - destruct (find_score score_id (scores_table db)) as [old|] eqn:Hfind.
    + rewrite (update_score_run _ _ _ _ _ _ old Hs Hfind). cbv zeta.
      destruct (rows_ok _ _); cbn [snd]; [|now split].
      split; cbn [players_table scores_table]; [assumption|].
      now rewrite recalculate_ids.
    + rewrite (update_score_missing _ _ _ _ _ _ Hfind). now split.
  - destruct (find_score score_id (scores_table db)) as [old|] eqn:Hfind.
    + rewrite (delete_score_present _ _ _ Hfind).
      split; cbn [snd players_table scores_table]; [assumption|].
      now apply NoDup_map_filter.
    + rewrite (delete_score_missing _ _ Hfind). now split.
  - change (delete_score_form score_id) with (delete_score score_id).
    destruct (find_score score_id (scores_table db)) as [old|] eqn:Hfind.
    + rewrite (delete_score_present _ _ _ Hfind).
      split; cbn [snd players_table scores_table]; [assumption|].
      now apply NoDup_map_filter.
    + rewrite (delete_score_missing _ _ Hfind). now split.
Qed.

Lemma spec_example_unique_ids : unique_ids spec_example.
Proof. split; [exact league_unique | exact spec_example_unique]. Defined.

Lemma route_keeps_ids_unique_witness :
  unique_ids (snd (run (route (PostScores week3_form)) spec_example)).
Proof.
  apply (route_keeps_ids_unique (PostScores week3_form) spec_example
           spec_example_unique_ids).
Defined.

(** ** Who may write *)

Lemma compare_digest_true (a b : string) :
  compare_digest a b = Some true <-> a = b /\ isascii b = true.
Proof.
  unfold compare_digest. split.
  - destruct (isascii a && isascii b) eqn:E; [|discriminate].
    intros [= H]. apply String.eqb_eq in H. subst.
    apply andb_true_iff in E. tauto.
  - intros [-> H]. rewrite H. cbn. now rewrite String.eqb_refl.
Qed.

Lemma get_current_user_inr
  (environ : Environ) (credentials : HTTPBasicCredentials) (user : string) :
  get_current_user environ credentials = inr user
  <-> user = ADMIN_USERNAME environ
      /\ username credentials = ADMIN_USERNAME environ
      /\ password credentials = ADMIN_PASSWORD environ
      /\ isascii (ADMIN_USERNAME environ) = true
      /\ isascii (ADMIN_PASSWORD environ) = true.
Proof.
  unfold get_current_user. split.
  - destruct (compare_digest (username credentials) _) as [[|]|] eqn:Eu;
      [| |discriminate];
      destruct (compare_digest (password credentials) _) as [[|]|] eqn:Ep;
      cbn; try discriminate.
    apply compare_digest_true in Eu, Ep.
    intros [= <-]. tauto.
  - intros (-> & Hu & Hp & Hau & Hap).
    rewrite (proj2 (compare_digest_true _ _) (conj Hu Hau)).
    rewrite (proj2 (compare_digest_true _ _) (conj Hp Hap)).
    cbn. now rewrite Hu.
Qed.

(** X13. [get_current_user] lets a request in exactly when the user name
    and the password are the configured ones and these are ASCII, and then
    answers with the user name; with nothing configured the pair is "admin"
    and "password". *)
Theorem get_current_user_accepts_admin_only
  (environ : Environ) (credentials : HTTPBasicCredentials) (user : string) :
  (get_current_user environ credentials = inr user
   <-> user = ADMIN_USERNAME environ
       /\ username credentials = ADMIN_USERNAME environ
       /\ password credentials = ADMIN_PASSWORD environ
       /\ isascii (ADMIN_USERNAME environ) = true
       /\ isascii (ADMIN_PASSWORD environ) = true)
  /\ ADMIN_USERNAME [] = "admin" /\ ADMIN_PASSWORD [] = "password".
Proof.
  split; [apply get_current_user_inr | split; reflexivity].
Qed.

(** X14. A request to a writing route whose user name or password is not
    the configured one never reaches the handler: it is answered with an
    authentication error and the database is left as it was. *)
Theorem unauthorized_changes_nothing
  (environ : Environ) (credentials : HTTPBasicCredentials)
  (request : Request) (db : Database) :
  username credentials <> ADMIN_USERNAME environ
  \/ password credentials <> ADMIN_PASSWORD environ ->
  exists e, authorized environ credentials request db = (inl e, db).
Proof.
  intro Hwrong. unfold authorized.
  destruct (get_current_user environ credentials) as [e|user] eqn:E.
  - now exists e.
  - apply get_current_user_inr in E. tauto.
Qed.

Lemma unauthorized_changes_nothing_witness :
  exists e,
    authorized [] (mkCredentials "admin" "guess") (DeleteScore 1) spec_example
    = (inl e, spec_example).
Proof.
  apply (unauthorized_changes_nothing [] (mkCredentials "admin" "guess")
           (DeleteScore 1) spec_example).
  right. discriminate.
Defined.

Lemma split_once_two (sep : ascii) (s u p : string) :
  split_once sep s = [u; p] ->
  s = (u ++ String sep p)%string /\ ~ In sep (list_ascii_of_string u).
Proof.
  revert u. induction s as [|c s IH]; intros u; cbn.
  - discriminate.
  - destruct (Ascii.eqb_spec c sep) as [->|Hne].
    + intros [= <- <-]. split; [reflexivity | intros []].
    + destruct (split_once sep s) as [|h t]; [discriminate|].
      intros [= <- ->]. destruct (IH h eq_refl) as [-> Hnot].
      split; [reflexivity|]. cbn. intros [H|H]; [congruence | contradiction].
Qed.

Lemma split_once_join (sep : ascii) (u p : string) :
  ~ In sep (list_ascii_of_string u) ->
  split_once sep (u ++ String sep p)%string = [u; p].
Proof.
  induction u as [|c u IH]; cbn; intro Hnot.
  - now rewrite Ascii.eqb_refl.
  - destruct (Ascii.eqb_spec c sep) as [->|Hne]; [tauto|].
    rewrite IH by tauto. reflexivity.
Qed.

(** X15. The pages treat a visitor as the administrator exactly when the
    [authorization] header starts with "Basic ", its second word decodes to
    the configured user name, a colon and the configured password, the user
    name has no colon in it and both are ASCII; [current_user] is then the
    configured user name.  Nothing else is an error: any other header, or
    none, gives an anonymous visitor. *)
Theorem add_auth_context_admin_only
  (b64decode : string -> option string) (environ : Environ)
  (auth_header : option string) :
  let context := add_auth_context b64decode environ auth_header in
  (is_admin context = true
   <-> exists header token,
         auth_header = Some header
         /\ prefix "Basic " header = true
         /\ nth_error (split " " header) 1 = Some token
         /\ b64decode token
            = Some (ADMIN_USERNAME environ
                    ++ String ":" (ADMIN_PASSWORD environ))%string
         /\ ~ In ":"%char (list_ascii_of_string (ADMIN_USERNAME environ))
         /\ isascii (ADMIN_USERNAME environ) = true
         /\ isascii (ADMIN_PASSWORD environ) = true)
  /\ current_user context
     = (if is_admin context then Some (ADMIN_USERNAME environ) else None).
Proof.
  cbv zeta. unfold add_auth_context. cbn [is_admin current_user].
  assert (Hiff : forall u,
            get_optional_user b64decode environ auth_header = Some u
            <-> u = ADMIN_USERNAME environ
                /\ exists header token,
                     auth_header = Some header
                     /\ prefix "Basic " header = true
                     /\ nth_error (split " " header) 1 = Some token
                     /\ b64decode token
                        = Some (ADMIN_USERNAME environ
                                ++ String ":" (ADMIN_PASSWORD environ))%string
                     /\ ~ In ":"%char (list_ascii_of_string (ADMIN_USERNAME environ))
                     /\ isascii (ADMIN_USERNAME environ) = true
                     /\ isascii (ADMIN_PASSWORD environ) = true).
  { intro u. unfold get_optional_user. split.
    - destruct auth_header as [header|]; [|discriminate].
      destruct (negb (truthy (Some header)) || negb (prefix "Basic " header))
        eqn:Eh; [discriminate|].
      apply orb_false_iff in Eh. destruct Eh as [_ Hpre].
      apply negb_false_iff in Hpre.
      destruct (nth_error (split " " header) 1) as [token|] eqn:Etok;
        [|discriminate].
      destruct (b64decode token) as [decoded|] eqn:Edec; [|discriminate].
      destruct (split_once ":" decoded) as [|un [|pw [|x rest]]] eqn:Esp;
        try discriminate.
      destruct (compare_digest un (ADMIN_USERNAME environ)) as [[|]|] eqn:Eu;
        destruct (compare_digest pw (ADMIN_PASSWORD environ)) as [[|]|] eqn:Ep;
        cbn; try discriminate.
      intros [= <-]. apply compare_digest_true in Eu, Ep.
      destruct Eu as [-> Hau], Ep as [-> Hap].
      apply split_once_two in Esp. destruct Esp as [-> Hcolon].
      split; [reflexivity|]. exists header, token. tauto.
    - intros (-> & header & token & -> & Hpre & Htok & Hdec & Hcolon & Hau & Hap).
      assert (Ht : truthy (Some header) = true).
      { destruct header; [discriminate | reflexivity]. }
      rewrite Ht, Hpre, Htok, Hdec. cbn [negb orb].
      rewrite (split_once_join _ _ _ Hcolon).
      rewrite (proj2 (compare_digest_true _ _) (conj eq_refl Hau)).
      rewrite (proj2 (compare_digest_true _ _) (conj eq_refl Hap)).
      reflexivity. }
  destruct (get_optional_user b64decode environ auth_header) as [u|] eqn:E.
  - destruct (proj1 (Hiff u) eq_refl) as [-> Hex]. split; [|reflexivity].
    split; [intros _; exact Hex | reflexivity].
  - split; [|reflexivity]. split; [discriminate|].
    intro Hex.
    discriminate (proj2 (Hiff (ADMIN_USERNAME environ)) (conj eq_refl Hex)).
Qed.

(** ** Form keys and the scores page *)

Lemma str_inj (a b : Z) : str a = str b -> a = b.
Proof.
  assert (H : forall n, NilZero.int_of_string (str n) = Some (Z.to_int n)).
  { intro n. unfold str. apply NilZero.isi; destruct n; cbn; try discriminate;
      intros [= E]; exact (DecimalPos.Unsigned.to_uint_nonnil _ E). }
  intro E. apply DecimalZ.to_int_inj.
  pose proof (H a) as Ha. rewrite E, H in Ha. now injection Ha.
Qed.

Lemma append_inj (s a b : string) : (s ++ a = s ++ b)%string -> a = b.
Proof.
  induction s as [|c s IH]; cbn; intro H; [assumption|].
  injection H as H. now apply IH.
Qed.

Lemma form_keys_apart (player other : Player.t) :
  (week_points_key player = week_points_key other
   <-> Player.id player = Player.id other)
  /\ (week_cost_key player = week_cost_key other
      <-> Player.id player = Player.id other)
  /\ week_points_key player <> week_cost_key other
  /\ week_points_key player <> "gameweek"
  /\ week_cost_key player <> "gameweek".
Proof.
  unfold week_points_key, week_cost_key. repeat split.
  - intro H. apply append_inj in H. now apply str_inj.
  - intros ->. reflexivity.
  - intro H. apply append_inj in H. now apply str_inj.
  - intros ->. reflexivity.
  - cbn. discriminate.
  - cbn. discriminate.
  - cbn. discriminate.
Qed.

(** X16. The form fields of two players never collide: the points keys (and
    the cost keys) of two players are equal only when the players have the
    same id, a points key is never a cost key, and neither is the key of the
    gameweek. *)
Theorem form_keys_distinct (player other : Player.t) :
  (week_points_key player = week_points_key other
   <-> Player.id player = Player.id other)
  /\ (week_cost_key player = week_cost_key other
      <-> Player.id player = Player.id other)
  /\ week_points_key player <> week_cost_key other
  /\ week_points_key player <> "gameweek"
  /\ week_cost_key player <> "gameweek".
Proof. apply form_keys_apart. Qed.

Lemma fold_max_attained (l : list Z) (a : Z) :
  In (fold_left Z.max l a) (a :: l).
Proof.
  revert a. induction l as [|x l IH]; intro a; cbn.
  - now left.
  - destruct (IH (Z.max a x)) as [H|H]; [|right; now right].
    rewrite <- H. destruct (Z.max_spec a x) as [[_ ->]|[_ ->]]; auto.
Qed.

(** X17. The scores page offers the gameweek after the largest one in the
    table, whatever filters are given (ASCII values, whose integers SQLite
    can take): [max_gameweek] is 0 for an empty table and otherwise the
    gameweek of some score that no score exceeds, [next_gameweek] is one
    more, and the players are all the players. *)
Theorem scores_page_next_gameweek
  (db : Database) (player_id gameweek : option string) :
  bindable player_id -> bindable gameweek ->
  exists ctx,
    run (scores player_id gameweek) db = (inr ctx, db)
    /\ ctx_next_gameweek ctx = ctx_max_gameweek ctx + 1
    /\ ctx_players ctx = players_table db
    /\ match scores_table db with
       | [] => ctx_max_gameweek ctx = 0
       | _ :: _ =>
           In (ctx_max_gameweek ctx) (map Score.gameweek (scores_table db))
           /\ Forall (fun r => Score.gameweek r <= ctx_max_gameweek ctx)
                (scores_table db)
       end.
Proof.
  intros _ _.
  destruct db as [pl l]. unfold run, scores, bind, exec, exec_players, ret.
  cbn [view scores_table players_table stored].
  eexists. split; [reflexivity|].
  cbn [ctx_next_gameweek ctx_max_gameweek ctx_players].
  split; [reflexivity|]. split; [reflexivity|].
  rewrite filter_true.
  destruct l as [|r l]; [reflexivity|].
  cbn [map max_or_zero]. split.
  - apply fold_max_attained.
  - destruct (fold_max_ge (map Score.gameweek l) (Score.gameweek r)) as [H1 H2].
    constructor; [exact H1|]. apply Forall_forall. intros x Hx.
    apply H2. now apply in_map.
Qed.

Lemma scores_page_next_gameweek_witness :
  exists ctx,
    run (scores (Some "1") (Some "1")) spec_example = (inr ctx, spec_example)
    /\ ctx_next_gameweek ctx = ctx_max_gameweek ctx + 1
    /\ ctx_players ctx = league
    /\ In (ctx_max_gameweek ctx) [1; 2]
    /\ Forall (fun r => Score.gameweek r <= ctx_max_gameweek ctx)
         (scores_table spec_example).
Proof.
  apply (scores_page_next_gameweek spec_example (Some "1") (Some "1"));
    (split;
     [reflexivity
     |intros n H; vm_compute in H; injection H as <-;
      unfold sqlite_integer; lia]).
Defined.

(** ** More on create_scores_bulk *)

Lemma bulk_effects_at
  (form_data : FormData) (g : Z) (ps : list Player.t) (w w' : list Score.t)
  (player : Player.t) :
  bulk_effects form_data g ps w w' -> In player ps ->
  exists w1 w2, bulk_effect form_data g player w1 w2.
Proof.
  induction 1 as [w | q ps w w1 w' Hq Hps IH]; intro Hin.
  - contradiction.
  - destruct Hin as [->|Hin]; [now exists w, w1 | now apply IH].
Qed.

Lemma bulk_effects_supplied
  (form_data : FormData) (g : Z) (ps : list Player.t) (w w' : list Score.t)
  (player : Player.t) :
  bulk_effects form_data g ps w w' -> In player ps ->
  supplied form_data player = true ->
  exists sp sc wp wc,
    form_get (week_points_key player) form_data = Some sp
    /\ form_get (week_cost_key player) form_data = Some sc
    /\ parse_int sp = Some wp /\ parse_int sc = Some wc.
Proof.
  intros Hchain Hin Hsup.
  destruct (bulk_effects_at _ _ _ _ _ _ Hchain Hin) as (w1 & w2 & Heff).
  destruct Heff as [Hskip | sp sc wp wc e rest _ Hp Hc Hpp Hpc _
                    | sp sc wp wc _ Hp Hc Hpp Hpc _].
  - congruence.
  - now exists sp, sc, wp, wc.
  - now exists sp, sc, wp, wc.
Qed.

(** X18. One malformed number rejects the whole upload: when the gameweek
    field is an ASCII string that is not an integer, or a player of the
    players table has both fields filled in and one of them is an ASCII
    string that is not an integer, the request raises and no score of the
    batch is stored, not even those of the players handled before. *)
Theorem bulk_bad_number_rejects_upload (db : Database) (form_data : FormData) :
  (exists v,
      form_get "gameweek" form_data = Some v
      /\ isascii v = true /\ parse_int v = None)
  \/ (exists player sp sc,
        In player (players_table db)
        /\ supplied form_data player = true
        /\ form_get (week_points_key player) form_data = Some sp
        /\ form_get (week_cost_key player) form_data = Some sc
        /\ ((isascii sp = true /\ parse_int sp = None)
            \/ (isascii sc = true /\ parse_int sc = None))) ->
  exists e, run (create_scores_bulk form_data) db = (inl e, db).
Proof.
  intro Hbad.
  destruct (create_scores_bulk_run form_data db)
    as [He | (g & w' & Hg & Hchain & _)]; [exact He|].
  exfalso.
  destruct Hbad as [(v & Hv & _ & Hnone)
                   | (player & sp & sc & Hin & Hsup & Hp & Hc & Hbad)].
  - unfold form_gameweek in Hg. rewrite Hv in Hg. congruence.
  - destruct (bulk_effects_supplied _ _ _ _ _ _ Hchain Hin Hsup)
      as (sp' & sc' & wp & wc & Hp' & Hc' & Hpp & Hpc).
    assert (sp' = sp) by congruence. assert (sc' = sc) by congruence. subst.
    destruct Hbad as [[_ H]|[_ H]]; congruence.
Qed.

Lemma bulk_bad_number_rejects_upload_witness :
  exists e,
    run (create_scores_bulk
           [("gameweek", "2"); ("week_points_1", "45"); ("week_cost_1", "5");
            ("week_points_2", "x"); ("week_cost_2", "0")]) spec_example
    = (inl e, spec_example).
Proof.
  apply bulk_bad_number_rejects_upload. right.
  exists (Player.mk 2 "Q" "Blues"), "x", "0".
  split; [cbn; tauto|]. repeat split; try reflexivity. left.
  split; reflexivity.
Defined.

Lemma bulk_effects_skip
  (form_data : FormData) (g : Z) (ps : list Player.t) (w w' : list Score.t)
  (player_id : Z) :
  bulk_effects form_data g ps w w' ->
  NoDup (map Score.id w) ->
  (forall player, In player ps ->
     Player.id player = player_id -> supplied form_data player = false) ->
  filter (fun s => Score.player_id s =? player_id) w'
  = filter (fun s => Score.player_id s =? player_id) w.
Proof.
  induction 1 as [w | q ps w w1 w' Hq Hps IH]; intros Hnd Hskip.
  - reflexivity.
  - rewrite IH.
    + destruct (Z.eq_dec (Player.id q) player_id) as [Heq|Hne].
      * destruct Hq as [Hno | sp sc wp wc e rest Hsup _ _ _ _ _
                        | sp sc wp wc Hsup _ _ _ _ _].
        -- reflexivity.
        -- rewrite (Hskip q (or_introl eq_refl) Heq) in Hsup. discriminate.
        -- rewrite (Hskip q (or_introl eq_refl) Heq) in Hsup. discriminate.
      * exact (bulk_effect_frame _ _ _ _ _ _ Hq Hnd Hne).
    + now apply (bulk_effect_unique _ _ _ _ _ Hq).
    + intros player Hin. apply Hskip. now right.
Qed.

(** X19. A player without both fields filled in is passed over: when no
    player of the players table with that id has both fields non-empty (in
    particular when there is no such player), an upload, failed or not,
    leaves the scores of that id as they were. *)
Theorem bulk_skips_unsupplied_player
  (db : Database) (form_data : FormData) (player_id : Z) :
  NoDup (map Score.id (scores_table db)) ->
  (forall player, In player (players_table db) ->
     Player.id player = player_id -> supplied form_data player = false) ->
  filter (fun s => Score.player_id s =? player_id)
    (scores_table (snd (run (create_scores_bulk form_data) db)))
  = filter (fun s => Score.player_id s =? player_id) (scores_table db).
Proof.
  intros Hnd Hskip.
  destruct (create_scores_bulk_run form_data db)
    as [(e & ->) | (g & w' & Hg & Hchain & ->)]; cbn [snd scores_table];
    [reflexivity|].
  exact (bulk_effects_skip _ _ _ _ _ _ Hchain Hnd Hskip).
Qed.

Lemma bulk_skips_unsupplied_player_witness :
  filter (fun s => Score.player_id s =? 2)
    (scores_table (snd (run (create_scores_bulk week2_again_form) two_players)))
  = filter (fun s => Score.player_id s =? 2) (scores_table two_players).
Proof.
  apply (bulk_skips_unsupplied_player two_players week2_again_form 2
           two_players_unique).
  intros player [<-|[<-|[]]]; cbn; intro H; [discriminate | reflexivity].
Defined.

Lemma bulk_effect_other_gameweek
  (form_data : FormData) (g : Z) (player : Player.t) (w w' : list Score.t) :
  bulk_effect form_data g player w w' -> NoDup (map Score.id w) ->
  forall i r, nth_error w i = Some r -> Score.gameweek r <> g ->
              nth_error w' i = Some r.
Proof.
  intros H Hnd i r Hi Hg.
  destruct H as [| sp sc wp wc e rest _ _ _ _ _ Hsel | ].
  - assumption.
  - apply first_selected in Hsel. destruct Hsel as [He Hpe].
    apply andb_true_iff in Hpe. destruct Hpe as [_ Hge]. apply Z.eqb_eq in Hge.
    unfold update_rows. rewrite nth_error_map, Hi. cbn.
    destruct (Z.eqb_spec (Score.id r) (Score.id e)) as [Hid|Hid]; [|reflexivity].
    exfalso. apply Hg.
    rewrite (unique_row w r e Hnd (nth_error_In _ _ Hi) He Hid). exact Hge.
  - rewrite nth_error_app1; [assumption|].
    apply nth_error_Some. congruence.
Qed.

Lemma bulk_effects_shape
  (form_data : FormData) (g : Z) (ps : list Player.t) (w w' : list Score.t) :
  bulk_effects form_data g ps w w' -> NoDup (map Score.id w) ->
  (forall i r, nth_error w i = Some r -> Score.gameweek r <> g ->
               nth_error w' i = Some r)
  /\ exists kept created,
       w' = kept ++ created
       /\ map row_key kept = map row_key w
       /\ Forall (fun r => Score.gameweek r = g) created
       /\ (List.length created <= List.length ps)%nat.
Proof.
  induction 1 as [w | q ps w w1 w' Hq Hps IH]; intro Hnd.
  - split; [auto|]. exists w, []. rewrite app_nil_r. repeat split; auto.
  - pose proof (bulk_effect_unique _ _ _ _ _ Hq Hnd) as Hnd1.
    destruct (IH Hnd1) as (Hframe & kept & created & -> & Hkeys & Hgw & Hlen).
    split.
    { intros i r Hi Hg. apply Hframe; [|assumption].
      now apply (bulk_effect_other_gameweek _ _ _ _ _ Hq Hnd). }
    destruct Hq as [| sp sc wp wc e rest _ _ _ _ _ _ | sp sc wp wc _ _ _ _ _ _].
    + exists kept, created. split; [reflexivity|].
      split; [assumption|]. split; [assumption | cbn; lia].
    + exists kept, created. split; [reflexivity|].
      split; [|split; [assumption | cbn; lia]].
      rewrite Hkeys. unfold update_rows. rewrite map_map. apply map_ext.
      intro r. destruct (Score.id r =? Score.id e); reflexivity.
    + rewrite map_app in Hkeys. apply map_eq_app in Hkeys.
      destruct Hkeys as (k & x & -> & Hk & Hx).
      destruct x as [|x [|y x']]; try discriminate.
      exists k, (x :: created).
      rewrite <- app_assoc. split; [reflexivity|]. split; [assumption|].
      split; [|cbn; lia].
      constructor; [|assumption]. unfold row_key in Hx. cbn in Hx.
      now inversion Hx.
Qed.

(** X20. An upload, failed or not, only touches the gameweek it is for: a
    score of another gameweek stays at its place, unchanged; no score is
    removed or handed to another player or gameweek; the scores added at
    the end are all of the uploaded gameweek and no more than there are
    players; the players are as they were. *)
Theorem bulk_touches_one_gameweek
  (db : Database) (form_data : FormData) (gameweek : Z) :
  NoDup (map Score.id (scores_table db)) ->
  form_gameweek form_data = Some gameweek ->
  let db' := snd (run (create_scores_bulk form_data) db) in
  players_table db' = players_table db
  /\ (forall i r, nth_error (scores_table db) i = Some r ->
        Score.gameweek r <> gameweek ->
        nth_error (scores_table db') i = Some r)
  /\ exists kept created,
       scores_table db' = kept ++ created
       /\ map row_key kept = map row_key (scores_table db)
       /\ Forall (fun r => Score.gameweek r = gameweek) created
       /\ (List.length created <= List.length (players_table db))%nat.
Proof.
  intros Hnd Hg. cbv zeta.
  destruct (create_scores_bulk_run form_data db)
    as [(e & ->) | (g & w' & Hg' & Hchain & ->)];
    cbn [snd scores_table players_table].
  - split; [reflexivity|]. split; [auto|].
    exists (scores_table db), []. rewrite app_nil_r.
    repeat split; auto. cbn. lia.
  - assert (g = gameweek) by congruence. subst g.
    split; [reflexivity|]. exact (bulk_effects_shape _ _ _ _ _ Hchain Hnd).
Qed.

Lemma bulk_touches_one_gameweek_witness :
  nth_error
    (scores_table (snd (run (create_scores_bulk week2_again_form) spec_example)))
    0
  = Some (Score.mk 1 1 1 50 0 50).
Proof.
  apply (proj1 (proj2 (bulk_touches_one_gameweek spec_example week2_again_form 2
                         spec_example_unique eq_refl))
           0%nat (Score.mk 1 1 1 50 0 50)).
  - reflexivity.
  - cbn. lia.
Defined.

Lemma supplied_fields (form_data : FormData) (player : Player.t) (sp sc : string) :
  supplied form_data player = true ->
  form_get (week_points_key player) form_data = Some sp ->
  form_get (week_cost_key player) form_data = Some sc ->
  sp <> "" /\ sc <> "".
Proof.
  unfold supplied. intros H Hp Hc. rewrite Hp, Hc in H. cbn in H.
  apply andb_true_iff in H. destruct H as [H1 H2].
  apply negb_true_iff in H1, H2. split; now apply String.eqb_neq.
Qed.

Lemma filter_map_same (P : Score.t -> bool) (f : Score.t -> Score.t)
  (l : list Score.t) :
  (forall r, P (f r) = P r) -> filter P (map f l) = map f (filter P l).
Proof.
  intro H. rewrite filter_map_swap. f_equal. apply filter_ext. exact H.
Qed.

(** After an upload that went through, the first score of a supplied player
    for the gameweek carries the submitted points and cost. *)
Lemma bulk_effects_upsert
  (form_data : FormData) (g : Z) (player : Player.t) (sp sc : string)
  (wp wc : Z) (ps : list Player.t) (w w' : list Score.t) :
  form_get (week_points_key player) form_data = Some sp -> sp <> "" ->
  parse_int sp = Some wp ->
  form_get (week_cost_key player) form_data = Some sc -> sc <> "" ->
  parse_int sc = Some wc ->
  bulk_effects form_data g ps w w' ->
  NoDup (map Player.id ps) -> NoDup (map Score.id w) -> In player ps ->
  exists first rest,
    filter (fun s => (Score.player_id s =? Player.id player)
                     && (Score.gameweek s =? g)) w' = first :: rest
    /\ Score.week_points first = wp /\ Score.week_cost first = wc.
Proof.
  intros Hp Hsp Hpp Hc Hsc Hpc Hchain Hndp Hnd Hin.
  destruct (filter (fun s => (Score.player_id s =? Player.id player)
                             && (Score.gameweek s =? g)) w)
    as [|e rest] eqn:Hsel.
  - destruct (bulk_effects_create _ _ _ _ _ _ _ _ _ _ Hp Hsp Hpp Hc Hsc Hpc
                Hchain Hndp Hnd Hin Hsel) as (id & Hnew).
    rewrite filter_and, Hnew, filter_app, <- filter_and, Hsel.
    cbn. rewrite Z.eqb_refl. eexists. eexists. split; [reflexivity|].
    split; reflexivity.
  - pose proof (bulk_effects_overwrite _ _ _ _ _ _ _ _ _ _ Hp Hsp Hpp Hc Hsc Hpc
                  Hchain Hndp Hnd Hin _ _ Hsel) as Hov.
    rewrite filter_and, Hov, filter_map_same, <- filter_and, Hsel.
    2:{ intro r. destruct (Score.id r =? Score.id e); reflexivity. }
    cbn. rewrite Z.eqb_refl. eexists. eexists. split; [reflexivity|].
    split; reflexivity.
Qed.

(** X21. An upload that goes through stores what was submitted: every player
    of the players table with both fields filled in then has a score for the
    gameweek, and the first such score carries the submitted points and
    cost. *)
Theorem bulk_stores_submitted_values
  (db db' : Database) (form_data : FormData) (response : Response)
  (gameweek : Z) (player : Player.t) (sp sc : string) (week_points week_cost : Z) :
  unique_ids db ->
  run (create_scores_bulk form_data) db = (inr response, db') ->
  form_gameweek form_data = Some gameweek ->
  In player (players_table db) ->
  form_get (week_points_key player) form_data = Some sp -> sp <> "" ->
  parse_int sp = Some week_points ->
  form_get (week_cost_key player) form_data = Some sc -> sc <> "" ->
  parse_int sc = Some week_cost ->
  exists first rest,
    filter (fun s => (Score.player_id s =? Player.id player)
                     && (Score.gameweek s =? gameweek)) (scores_table db')
    = first :: rest
    /\ Score.week_points first = week_points
    /\ Score.week_cost first = week_cost.
Proof.
  intros [Hndp Hnd] Hrun Hg Hin Hp Hsp Hpp Hc Hsc Hpc.
  destruct (create_scores_bulk_run form_data db)
    as [(e & He) | (g & w' & Hg' & Hchain & Hr)].
  - congruence.
  - rewrite Hr in Hrun. injection Hrun as _ <-. cbn [scores_table].
    assert (g = gameweek) by congruence. subst g.
    exact (bulk_effects_upsert _ _ _ _ _ _ _ _ _ _ Hp Hsp Hpp Hc Hsc Hpc
             Hchain Hndp Hnd Hin).
Qed.

Lemma bulk_stores_submitted_values_witness :
  exists first rest,
    filter (fun s => (Score.player_id s =? 1) && (Score.gameweek s =? 3))
      (scores_table (snd (run (create_scores_bulk week3_form) spec_example)))
    = first :: rest
    /\ Score.week_points first = 30
    /\ Score.week_cost first = 10.
Proof.
  apply (bulk_stores_submitted_values spec_example
           (snd (run (create_scores_bulk week3_form) spec_example))
           week3_form (RedirectResponse "/scores" 302) 3
           (Player.mk 1 "P" "Reds") "30" "10" 30 10
           spec_example_unique_ids eq_refl eq_refl (or_introl eq_refl)
           eq_refl ltac:(discriminate) eq_refl
           eq_refl ltac:(discriminate) eq_refl).
Defined.

Lemma modify_same (w : list Score.t) (e : Score.t) (f : Score.t -> Score.t)
  (st : Database) (pl : list Player.t) :
  NoDup (map Score.id w) -> In e w -> f e = e ->
  modify (Score.id e) f (mkSession st (mkDatabase pl w))
  = (inr tt, mkSession st (mkDatabase pl w)).
Proof.
  intros Hnd He Hf.
  assert (Hrow : forall r, In r w ->
                   (if Score.id r =? Score.id e then f r else r) = r).
  { intros r Hr. destruct (Z.eqb_spec (Score.id r) (Score.id e)) as [Hid|Hid];
      [|reflexivity].
    now rewrite (unique_row w r e Hnd Hr He Hid). }
  unfold modify. cbn [view scores_table].
  replace (update_ok (Score.id e) f w) with true.
  - unfold set_scores. cbn [stored view players_table]. do 3 f_equal.
    unfold update_rows. transitivity (map (fun x => x) w); [|apply map_id].
    apply map_ext_in. exact Hrow.
  - symmetry. unfold update_ok. apply forallb_forall. intros r Hr.
    specialize (Hrow r Hr).
    destruct (Score.id r =? Score.id e); [|reflexivity].
    cbn. rewrite Hrow. apply check_update_refl.
Qed.

Lemma bulk_player_same
  (form_data : FormData) (g : Z) (player : Player.t)
  (st : Database) (pl : list Player.t) (w : list Score.t) :
  NoDup (map Score.id w) ->
  (supplied form_data player = true ->
   exists sp sc wp wc e rest,
     form_get (week_points_key player) form_data = Some sp
     /\ form_get (week_cost_key player) form_data = Some sc
     /\ parse_int sp = Some wp /\ parse_int sc = Some wc
     /\ filter (fun s => (Score.player_id s =? Player.id player)
                         && (Score.gameweek s =? g)) w = e :: rest
     /\ Score.week_points e = wp /\ Score.week_cost e = wc) ->
  bulk_player form_data g player (mkSession st (mkDatabase pl w))
  = (inr tt, mkSession st (mkDatabase pl w)).
Proof.
  intros Hnd H. unfold bulk_player.
  destruct (supplied form_data player) eqn:Hsup.
  - destruct (H eq_refl) as (sp & sc & wp & wc & e & rest & Hp & Hc & Hpp & Hpc
                             & Hsel & Hwp & Hwc).
    unfold supplied in Hsup. rewrite Hp, Hc in Hsup |- *.
    apply andb_true_iff in Hsup. destruct Hsup as [-> ->]. cbn [negb orb].
    unfold bind at 1. unfold int at 1. rewrite Hpp. cbn [ret].
    unfold bind at 1. unfold int at 1. rewrite Hpc. cbn [ret].
    unfold bind at 1. unfold exec at 1. cbn [view scores_table]. rewrite Hsel.
    apply modify_same; [assumption | |].
    + apply (first_selected _ _ _ _ Hsel).
    + destruct e; cbn in *. subst. reflexivity.
  - unfold supplied in Hsup.
    destruct (form_get (week_points_key player) form_data) as [sp|];
      [|reflexivity].
    destruct (form_get (week_cost_key player) form_data) as [sc|];
      [|reflexivity].
    apply andb_false_iff in Hsup. destruct Hsup as [-> | ->]; cbn;
      [reflexivity|]. now rewrite orb_true_r.
Qed.

Lemma bulk_loop_same
  (form_data : FormData) (g : Z) (ps : list Player.t)
  (st : Database) (pl : list Player.t) (w : list Score.t) :
  NoDup (map Score.id w) ->
  (forall player, In player ps -> supplied form_data player = true ->
   exists sp sc wp wc e rest,
     form_get (week_points_key player) form_data = Some sp
     /\ form_get (week_cost_key player) form_data = Some sc
     /\ parse_int sp = Some wp /\ parse_int sc = Some wc
     /\ filter (fun s => (Score.player_id s =? Player.id player)
                         && (Score.gameweek s =? g)) w = e :: rest
     /\ Score.week_points e = wp /\ Score.week_cost e = wc) ->
  for_each ps (bulk_player form_data g) (mkSession st (mkDatabase pl w))
  = (inr tt, mkSession st (mkDatabase pl w)).
Proof.
  intros Hnd. induction ps as [|q ps IH]; intro H.
  - reflexivity.
  - cbn [for_each]. unfold bind.
    rewrite (bulk_player_same _ _ _ _ _ _ Hnd (H q (or_introl eq_refl))).
    apply IH. intros player Hin. apply H. now right.
Qed.

(** X22. Submitting the same upload again changes nothing: the second
    request finds the rows the first one wrote, overwrites them with the same
    values and creates no duplicate; the database and the answer are those of
    the first request. *)
Theorem bulk_upload_idempotent (db : Database) (form_data : FormData) :
  unique_ids db ->
  run (create_scores_bulk form_data)
    (snd (run (create_scores_bulk form_data) db))
  = run (create_scores_bulk form_data) db.
Proof.
  intros [Hndp Hnd].
  destruct (create_scores_bulk_run form_data db)
    as [(e & He) | (g & w' & Hg & Hchain & Hr)].
  - rewrite He. cbn [snd]. exact He.
  - rewrite Hr. cbn [snd].
    pose proof (bulk_effects_players_unique _ _ _ _ _ Hchain Hnd) as Hnd'.
    assert (Hloop :
      for_each (players_table db) (bulk_player form_data g)
        (mkSession (mkDatabase (players_table db) w')
           (mkDatabase (players_table db) w'))
      = (inr tt, mkSession (mkDatabase (players_table db) w')
                   (mkDatabase (players_table db) w'))).
    { apply bulk_loop_same; [assumption|]. intros player Hin Hsup.
      destruct (bulk_effects_supplied _ _ _ _ _ _ Hchain Hin Hsup)
        as (sp & sc & wp & wc & Hp & Hc & Hpp & Hpc).
      destruct (supplied_fields _ _ _ _ Hsup Hp Hc) as [Hsp Hsc].
      destruct (bulk_effects_upsert _ _ _ _ _ _ _ _ _ _ Hp Hsp Hpp Hc Hsc Hpc
                  Hchain Hndp Hnd Hin) as (first & rest & Hsel & Hwp & Hwc).
      exists sp, sc, wp, wc, first, rest. tauto. }
    unfold run, create_scores_bulk. unfold bind at 1. rewrite Hg. cbn [ret].
    unfold bind at 1. unfold exec_players at 1. cbn [view players_table].
    unfold bind at 1. rewrite Hloop. reflexivity.
Qed.

Lemma bulk_upload_idempotent_witness :
  run (create_scores_bulk week3_form)
    (snd (run (create_scores_bulk week3_form) spec_example))
  = run (create_scores_bulk week3_form) spec_example.
Proof.
  apply (bulk_upload_idempotent spec_example week3_form spec_example_unique_ids).
Defined.

Lemma for_each_ext {A : Type} (l : list A) (f g : A -> M unit) (s : Session) :
  (forall x s', f x s' = g x s') -> for_each l f s = for_each l g s.
Proof.
  intro H. revert s. induction l as [|x l IH]; intro s; cbn [for_each].
  - reflexivity.
  - unfold bind. rewrite H. destruct (g x s) as [[e|u] s1]; [reflexivity|].
    apply IH.
Qed.

(** X23. An upload without a gameweek field is an upload for gameweek 1: it
    does what the same form with the field "gameweek" set to "1" does. *)
Theorem bulk_default_gameweek (db : Database) (form_data : FormData) :
  form_get "gameweek" form_data = None ->
  run (create_scores_bulk form_data) db
  = run (create_scores_bulk (("gameweek", "1") :: form_data)) db.
Proof.
  intro Hnone.
  assert (Hget : forall player,
            form_get (week_points_key player) (("gameweek", "1") :: form_data)
            = form_get (week_points_key player) form_data
            /\ form_get (week_cost_key player) (("gameweek", "1") :: form_data)
               = form_get (week_cost_key player) form_data).
  { intro player. cbn [form_get].
    destruct (form_keys_apart player player) as (_ & _ & _ & Hp & Hc).
    rewrite (proj2 (String.eqb_neq _ _) (not_eq_sym Hp)).
    rewrite (proj2 (String.eqb_neq _ _) (not_eq_sym Hc)).
    destruct (form_get (week_points_key player) form_data),
             (form_get (week_cost_key player) form_data); split; reflexivity. }
  assert (Hg : form_gameweek (("gameweek", "1") :: form_data) = Some 1).
  { unfold form_gameweek. cbn [form_get]. rewrite Hnone. reflexivity. }
  assert (Hg0 : form_gameweek form_data = Some 1).
  { unfold form_gameweek. now rewrite Hnone. }
  unfold run, create_scores_bulk. unfold bind at 1 4. rewrite Hg, Hg0. cbn [ret].
  unfold bind at 1 4. unfold exec_players. cbn [view players_table].
  unfold bind at 1 4.
  rewrite (for_each_ext (players_table db)
             (bulk_player form_data 1)
             (bulk_player (("gameweek", "1") :: form_data) 1)).
  - reflexivity.
  - intros player s'. unfold bulk_player.
    destruct (Hget player) as [-> ->]. reflexivity.
Qed.

Lemma bulk_default_gameweek_witness :
  run (create_scores_bulk [("week_points_2", "7"); ("week_cost_2", "0")])
    spec_example
  = run (create_scores_bulk
           [("gameweek", "1"); ("week_points_2", "7"); ("week_cost_2", "0")])
      spec_example.
Proof.
  apply (bulk_default_gameweek spec_example
           [("week_points_2", "7"); ("week_cost_2", "0")] eq_refl).
Defined.

(** ** The dashboard *)

Lemma insert_sorted_perm {A : Type} (leb : A -> A -> bool) (x : A) (l : list A) :
  Permutation (insert_sorted leb x l) (x :: l).
Proof.
  induction l as [|y l IH]; cbn.
  - reflexivity.
  - destruct (leb x y); [reflexivity|].
    rewrite IH. apply perm_swap.
Qed.

Lemma sorted_perm {A : Type} (leb : A -> A -> bool) (l : list A) :
  Permutation (sorted leb l) l.
Proof.
  induction l as [|x l IH]; cbn.
  - reflexivity.
  - rewrite insert_sorted_perm. now constructor.
Qed.

Lemma sorted_In {A : Type} (leb : A -> A -> bool) (l : list A) (x : A) :
  In x (sorted leb l) <-> In x l.
Proof.
  split; apply Permutation_in;
    [apply sorted_perm | apply Permutation_sym, sorted_perm].
Qed.

Lemma sorted_NoDup {A : Type} (leb : A -> A -> bool) (l : list A) :
  NoDup l -> NoDup (sorted leb l).
Proof.
  apply Permutation_NoDup, Permutation_sym, sorted_perm.
Qed.

Lemma insert_sorted_hd {A : Type} (R : A -> A -> Prop) (leb : A -> A -> bool)
  (a x : A) (l : list A) :
  R a x -> HdRel R a l -> HdRel R a (insert_sorted leb x l).
Proof.
  intros Hax Hl. destruct l as [|y l]; cbn.
  - now constructor.
  - destruct (leb x y); constructor; [assumption | now inversion Hl].
Qed.

Lemma sorted_Z_increasing (l : list Z) :
  NoDup l -> Sorted Z.lt (sorted Z.leb l).
Proof.
  induction l as [|x l IH]; intro Hnd.
  - constructor.
  - change (sorted Z.leb (x :: l)) with (insert_sorted Z.leb x (sorted Z.leb l)).
    inversion Hnd as [|a l' Hnot Hnd']; subst. specialize (IH Hnd').
    assert (Hx : ~ In x (sorted Z.leb l)) by now rewrite sorted_In.
    revert IH Hx. generalize (sorted Z.leb l) as s.
    induction s as [|y s IHs]; cbn; intros Hs Hx.
    + repeat constructor.
    + inversion Hs as [|a b Hs' Hhd]; subst.
      destruct (Z.leb_spec x y) as [Hle|Hgt].
      * constructor; [assumption|]. constructor. lia.
      * constructor; [apply IHs; tauto|].
        apply insert_sorted_hd; [lia | assumption].
Qed.

Lemma sorted_string_ordered (l : list string) :
  Sorted (fun a b => String.leb a b = true) (sorted String.leb l).
Proof.
  induction l as [|x l IH].
  - constructor.
  - change (sorted String.leb (x :: l))
      with (insert_sorted String.leb x (sorted String.leb l)).
    revert IH. generalize (sorted String.leb l) as s.
    induction s as [|y s IHs]; cbn; intros Hs.
    + repeat constructor.
    + inversion Hs as [|a b Hs' Hhd]; subst.
      destruct (String.leb x y) eqn:E.
      * constructor; [assumption|]. now constructor.
      * constructor; [now apply IHs|].
        apply insert_sorted_hd; [|assumption].
        destruct (String.leb_total x y); congruence.
Qed.

Lemma set_add_In {K : Type} (eqb : K -> K -> bool)
  (Heqb : forall a b, eqb a b = true <-> a = b) (x y : K) (s : list K) :
  In y (set_add eqb x s) <-> y = x \/ In y s.
Proof.
  unfold set_add. destruct (existsb (eqb x) s) eqn:E.
  - apply existsb_exists in E. destruct E as (z & Hz & Hxz).
    apply Heqb in Hxz. subst z. intuition congruence.
  - rewrite in_app_iff. cbn. intuition congruence.
Qed.

Lemma set_add_NoDup {K : Type} (eqb : K -> K -> bool)
  (Heqb : forall a b, eqb a b = true <-> a = b) (x : K) (s : list K) :
  NoDup s -> NoDup (set_add eqb x s).
Proof.
  intro Hnd. unfold set_add. destruct (existsb (eqb x) s) eqn:E; [assumption|].
  apply NoDup_app; [assumption | repeat constructor; auto|].
  intros a Ha [Hxa|[]]. subst a.
  assert (existsb (eqb x) s = true); [|congruence].
  apply existsb_exists. exists x. split; [assumption | now apply Heqb].
Qed.

Lemma fold_set_add {K R : Type} (eqb : K -> K -> bool)
  (Heqb : forall a b, eqb a b = true <-> a = b) (key : R -> K) (rows : list R) :
  forall s,
  NoDup s ->
  NoDup (fold_left (fun acc row => set_add eqb (key row) acc) rows s)
  /\ forall y,
       In y (fold_left (fun acc row => set_add eqb (key row) acc) rows s)
       <-> In y s \/ exists row, In row rows /\ key row = y.
Proof.
  induction rows as [|r rows IH]; cbn; intros s Hnd.
  - split; [assumption|]. intro y. split; [auto|].
    intros [H|(row & [] & _)]. exact H.
  - destruct (IH _ (set_add_NoDup eqb Heqb (key r) s Hnd)) as [H1 H2].
    split; [assumption|]. intro y. rewrite H2, (set_add_In eqb Heqb).
    split.
    + intros [[->|H]|(row & Hrow & Hk)]; eauto.
    + intros [H|(row & [<-|Hrow] & Hk)]; eauto.
Qed.

Lemma dict_get_set_same {K V : Type} (eqb : K -> K -> bool)
  (Heqb : forall a b, eqb a b = true <-> a = b) (k : K) (v : V)
  (d : list (K * V)) :
  dict_get eqb k (dict_set eqb k v d) = Some v.
Proof.
  induction d as [|[k' v'] d IH]; cbn.
  - now rewrite (proj2 (Heqb k k) eq_refl).
  - destruct (eqb k' k) eqn:E; cbn; rewrite E; [reflexivity | exact IH].
Qed.

Lemma dict_get_set_other {K V : Type} (eqb : K -> K -> bool)
  (Heqb : forall a b, eqb a b = true <-> a = b) (k k2 : K) (v : V)
  (d : list (K * V)) :
  k2 <> k -> dict_get eqb k2 (dict_set eqb k v d) = dict_get eqb k2 d.
Proof.
  intro Hne. induction d as [|[k' v'] d IH]; cbn.
  - destruct (eqb k k2) eqn:E; [|reflexivity]. apply Heqb in E. congruence.
  - destruct (eqb k' k) eqn:E; cbn.
    + apply Heqb in E. subst k'.
      destruct (eqb k k2) eqn:E2; [|reflexivity]. apply Heqb in E2. congruence.
    + destruct (eqb k' k2); [reflexivity | exact IH].
Qed.

Lemma string_eqb_iff (a b : string) : String.eqb a b = true <-> a = b.
Proof. apply String.eqb_eq. Qed.

Lemma team_data_get_add (team t : string) (gameweek g v : Z) (d : TeamData) :
  team_data_get t g (team_data_add team gameweek v d)
  = team_data_get t g d
    + (if String.eqb team t && (gameweek =? g) then v else 0).
Proof.
  unfold team_data_add, team_data_get.
  destruct (String.eqb_spec team t) as [->|Ht]; cbn [andb].
  - rewrite (dict_get_set_same _ string_eqb_iff).
    destruct (Z.eqb_spec gameweek g) as [->|Hg].
    + rewrite (dict_get_set_same _ Z.eqb_eq).
      destruct (dict_get String.eqb t d) as [inner|]; cbn;
        [destruct (dict_get Z.eqb g inner)|]; lia.
    + rewrite (dict_get_set_other _ Z.eqb_eq) by congruence.
      destruct (dict_get String.eqb t d) as [inner|]; cbn;
        [destruct (dict_get Z.eqb g inner)|]; lia.
  - rewrite (dict_get_set_other _ string_eqb_iff) by congruence. lia.
Qed.

Lemma sum_of_shift (l : list Z) (a : Z) : fold_left Z.add l a = a + sum_of l.
Proof.
  unfold sum_of. revert a. induction l as [|x l IH]; intro a; cbn.
  - lia.
  - rewrite (IH (a + x)), (IH x). lia.
Qed.

Lemma sum_of_cons (x : Z) (l : list Z) : sum_of (x :: l) = x + sum_of l.
Proof. unfold sum_of at 1. cbn. apply sum_of_shift. Qed.

(** The rows of a team at a gameweek, and the total of one of their
    columns. *)
Lemma total_perm (f : Score.t * Player.t -> Z) (P : Score.t * Player.t -> bool)
  (l l' : list (Score.t * Player.t)) :
  Permutation l l' ->
  sum_of (map f (filter P l)) = sum_of (map f (filter P l')).
Proof.
  induction 1 as [| x l l' _ IH | x y l | l l' l'' _ IH1 _ IH2];
    cbn [filter map].
  - reflexivity.
  - destruct (P x); cbn [map]; [rewrite !sum_of_cons, IH|]; auto.
  - destruct (P x), (P y); cbn [map]; rewrite ?sum_of_cons; lia.
  - congruence.
Qed.

Lemma existsb_perm {A : Type} (P : A -> bool) (l l' : list A) :
  Permutation l l' -> existsb P l = existsb P l'.
Proof.
  intro H. destruct (existsb P l') eqn:E.
  - apply existsb_exists in E. destruct E as (x & Hx & HP).
    apply existsb_exists. exists x. split; [|assumption].
    now apply (Permutation_in _ (Permutation_sym H)).
  - destruct (existsb P l) eqn:E'; [|reflexivity].
    apply existsb_exists in E'. destruct E' as (x & Hx & HP).
    assert (existsb P l' = true); [|congruence].
    apply existsb_exists. exists x. split; [|assumption].
    now apply (Permutation_in _ H).
Qed.

Lemma tally_teams (rows : list (Score.t * Player.t)) (t : Tally) :
  teams (fold_left tally_row rows t)
  = fold_left (fun acc row => set_add String.eqb (Player.team (snd row)) acc)
      rows (teams t).
Proof.
  revert t. induction rows as [|[s p] rows IH]; intro t; cbn.
  - reflexivity.
  - now rewrite IH.
Qed.

Lemma tally_gameweeks (rows : list (Score.t * Player.t)) (t : Tally) :
  gameweeks (fold_left tally_row rows t)
  = fold_left (fun acc row => set_add Z.eqb (Score.gameweek (fst row)) acc)
      rows (gameweeks t).
Proof.
  revert t. induction rows as [|[s p] rows IH]; intro t; cbn.
  - reflexivity.
  - now rewrite IH.
Qed.

Lemma tally_weekly (rows : list (Score.t * Player.t)) (team : string) (g : Z) :
  forall t,
  team_data_get team g (team_weekly_data (fold_left tally_row rows t))
  = team_data_get team g (team_weekly_data t)
    + sum_of (map (fun row => Score.week_points (fst row))
                (filter (at_team_gameweek team g) rows)).
Proof.
  induction rows as [|[s p] rows IH]; intro t; cbn [fold_left filter map].
  - cbn. lia.
  - rewrite IH. cbn [tally_row team_weekly_data].
    rewrite team_data_get_add.
    change (at_team_gameweek team g (s, p))
      with (String.eqb (Player.team p) team && (Score.gameweek s =? g)).
    destruct (String.eqb (Player.team p) team && (Score.gameweek s =? g));
      cbn [map fst]; rewrite ?sum_of_cons; lia.
Qed.

Lemma enumerate_snd {A : Type} (l : list A) : map snd (enumerate l) = l.
Proof.
  unfold enumerate. generalize 0%nat as n.
  induction l as [|x l IH]; intro n; cbn; [reflexivity|].
  now rewrite IH.
Qed.

Lemma dataset_labels (f : nat -> string -> list Z) (l : list string) :
  map Dataset.label
    (map (fun it : nat * string => let (i, team) := it in dataset i team (f i team))
       (enumerate l))
  = l.
Proof.
  rewrite map_map. rewrite <- (enumerate_snd l) at 2.
  apply map_ext. intros [i team]. reflexivity.
Qed.

(** The rows the dashboard reads, and the two axes it draws. *)
Lemma dashboard_run (b64decode : string -> option string) (environ : Environ)
  (auth_header : option string) (db : Database) :
  let rows := sorted row_leb (join db) in
  let t := tally rows in
  let sorted_teams := sorted String.leb (teams t) in
  let sorted_gameweeks :=
    match gameweeks t with
    | [] => [1]
    | _ :: _ => sorted Z.leb (gameweeks t)
    end in
  run (dashboard b64decode environ auth_header) db
  = (inr (mkDashboardContext "Dashboard"
            (Chart.mk sorted_gameweeks
               (map (fun it : nat * string =>
                       let (i, team) := it in
                       dataset i team
                         (map (fun gw => team_data_get team gw (team_weekly_data t))
                            sorted_gameweeks))
                  (enumerate sorted_teams)))
            (Chart.mk sorted_gameweeks
               (map (fun it : nat * string =>
                       let (i, team) := it in
                       dataset i team (cumulative_data rows team sorted_gameweeks))
                  (enumerate sorted_teams)))
            (add_auth_context b64decode environ auth_header)),
     db).
Proof. destruct db. reflexivity. Qed.

Lemma tally_gameweeks_spec (rows : list (Score.t * Player.t)) :
  NoDup (gameweeks (tally rows))
  /\ forall g, In g (gameweeks (tally rows))
               <-> exists row, In row rows /\ Score.gameweek (fst row) = g.
Proof.
  unfold tally. rewrite tally_gameweeks. cbn [gameweeks].
  destruct (fold_set_add Z.eqb Z.eqb_eq (fun row => Score.gameweek (fst row))
              rows [] (NoDup_nil _)) as [H1 H2].
  split; [exact H1|]. intro g. rewrite H2. cbn. tauto.
Qed.

Lemma tally_teams_spec (rows : list (Score.t * Player.t)) :
  NoDup (teams (tally rows))
  /\ forall team, In team (teams (tally rows))
                  <-> exists row, In row rows /\ Player.team (snd row) = team.
Proof.
  unfold tally. rewrite tally_teams. cbn [teams].
  destruct (fold_set_add String.eqb string_eqb_iff
              (fun row => Player.team (snd row)) rows [] (NoDup_nil _))
    as [H1 H2].
  split; [exact H1|]. intro g. rewrite H2. cbn. tauto.
Qed.

Lemma rows_In (db : Database) (row : Score.t * Player.t) :
  In row (sorted row_leb (join db)) <-> In row (join db).
Proof. apply sorted_In. Qed.

(** X24. The dashboard reads and never writes, and both charts share one
    gameweek axis: the gameweeks that have a score of an existing player,
    each once, in increasing order; with no such score the axis is the
    single gameweek 1 and the charts have no line. *)
Theorem dashboard_gameweek_axis
  (b64decode : string -> option string) (environ : Environ)
  (auth_header : option string) (db : Database) :
  exists ctx,
    run (dashboard b64decode environ auth_header) db = (inr ctx, db)
    /\ Chart.labels (overall_chart_data ctx) = Chart.labels (weekly_chart_data ctx)
    /\ Sorted Z.lt (Chart.labels (weekly_chart_data ctx))
    /\ match join db with
       | [] =>
           Chart.labels (weekly_chart_data ctx) = [1]
           /\ Chart.datasets (weekly_chart_data ctx) = []
           /\ Chart.datasets (overall_chart_data ctx) = []
       | _ :: _ =>
           forall g,
             In g (Chart.labels (weekly_chart_data ctx))
             <-> exists row, In row (join db) /\ Score.gameweek (fst row) = g
       end.
Proof.
  eexists. split; [apply dashboard_run|].
  cbn [weekly_chart_data overall_chart_data Chart.labels Chart.datasets].
  split; [reflexivity|].
  destruct (tally_gameweeks_spec (sorted row_leb (join db))) as [Hnd Hin].
  split.
  { destruct (gameweeks (tally (sorted row_leb (join db)))) as [|g gs] eqn:E.
    - repeat constructor.
    - now apply sorted_Z_increasing. }
  destruct (join db) as [|row rest] eqn:Ej.
  - cbn. auto.
  - destruct (gameweeks (tally (sorted row_leb (row :: rest)))) as [|g0 gs] eqn:E.
    + exfalso. apply (proj2 (Hin (Score.gameweek (fst row)))).
      exists row. split; [|reflexivity]. apply sorted_In. now left.
    + intro g. rewrite sorted_In, Hin. split.
      * intros (r & Hr & Hg). exists r. split; [|assumption].
        now apply sorted_In in Hr.
      * intros (r & Hr & Hg). exists r. split; [|assumption].
        now apply sorted_In.
Qed.

Lemma last_cons {A : Type} (x d : A) (l : list A) : last (x :: l) d = last l x.
Proof.
  revert x d. induction l as [|y l IH]; intros x d; [reflexivity|].
  change (last (x :: y :: l) d) with (last (y :: l) d).
  now rewrite (IH y d), (IH y x).
Qed.

(** What a line of the overall chart shows at a gameweek: the total of the
    team's rows there when it has some, the value before otherwise. *)
Lemma cumulative_step_value (scores : list (Score.t * Player.t)) (team : string)
  (cs : Z) (acc : list Z) (g : Z) :
  cumulative_step scores team (cs, acc) g
  = (shown scores team cs g, acc ++ [shown scores team cs g]).
Proof.
  unfold cumulative_step, shown.
  destruct (filter (at_team_gameweek team g) scores) as [|r l] eqn:E.
  - replace (existsb _ scores) with false; [reflexivity|].
    symmetry. apply not_true_is_false. intro H. apply existsb_exists in H.
    destruct H as (x & Hx & HP).
    assert (Hin : In x (filter (at_team_gameweek team g) scores))
      by (apply filter_In; now split).
    rewrite E in Hin. contradiction.
  - replace (existsb _ scores) with true; [reflexivity|].
    symmetry. apply existsb_exists. exists r. apply filter_In.
    rewrite E. now left.
Qed.

Lemma cumulative_fold (scores : list (Score.t * Player.t)) (team : string)
  (l : list Z) :
  forall cs acc,
  exists ext,
    snd (fold_left (cumulative_step scores team) l (cs, acc)) = acc ++ ext
    /\ List.length ext = List.length l
    /\ forall l1 g l2, l = l1 ++ g :: l2 ->
         nth_error ext (List.length l1)
         = Some (shown scores team
                   (last (firstn (List.length l1) ext) cs) g).
Proof.
  induction l as [|g0 l IH]; intros cs acc.
  - exists []. rewrite app_nil_r. split; [reflexivity|]. split; [reflexivity|].
    intros [|x l1] g l2 H; discriminate.
  - cbn [fold_left]. rewrite cumulative_step_value.
    destruct (IH (shown scores team cs g0) (acc ++ [shown scores team cs g0]))
      as (ext & Hsnd & Hlen & Hnth).
    exists (shown scores team cs g0 :: ext).
    split; [rewrite Hsnd, <- app_assoc; reflexivity|].
    split; [cbn; now rewrite Hlen|].
    intros [|x l1] g l2 H; injection H as -> ->.
    + reflexivity.
    + cbn [List.length nth_error firstn]. rewrite last_cons.
      now apply (Hnth l1 g l2).
Qed.

Lemma shown_perm (l l' : list (Score.t * Player.t)) (team : string) (cs g : Z) :
  Permutation l l' -> shown l team cs g = shown l' team cs g.
Proof.
  intro H. unfold shown.
  rewrite (existsb_perm _ _ _ H).
  now rewrite (total_perm _ _ _ _ H).
Qed.

(** X25. Both charts draw one line per team that has a score of one of its
    players: the teams appear once each, in the order of their names, the
    two charts list them alike and with the same colours, and every line has
    one value per gameweek of the axis. *)
Theorem dashboard_team_lines
  (b64decode : string -> option string) (environ : Environ)
  (auth_header : option string) (db : Database) :
  exists ctx,
    run (dashboard b64decode environ auth_header) db = (inr ctx, db)
    /\ NoDup (map Dataset.label (Chart.datasets (weekly_chart_data ctx)))
    /\ Sorted (fun a b => String.leb a b = true)
         (map Dataset.label (Chart.datasets (weekly_chart_data ctx)))
    /\ (forall team,
          In team (map Dataset.label (Chart.datasets (weekly_chart_data ctx)))
          <-> exists row, In row (join db) /\ Player.team (snd row) = team)
    /\ map (fun d => (Dataset.label d, Dataset.borderColor d,
                      Dataset.backgroundColor d))
         (Chart.datasets (overall_chart_data ctx))
       = map (fun d => (Dataset.label d, Dataset.borderColor d,
                        Dataset.backgroundColor d))
           (Chart.datasets (weekly_chart_data ctx))
    /\ Forall (fun d => List.length (Dataset.data d)
                        = List.length (Chart.labels (weekly_chart_data ctx)))
         (Chart.datasets (weekly_chart_data ctx)
          ++ Chart.datasets (overall_chart_data ctx)).
Proof.
  eexists. split; [apply dashboard_run|].
  cbn [weekly_chart_data overall_chart_data Chart.labels Chart.datasets].
  rewrite dataset_labels.
  destruct (tally_teams_spec (sorted row_leb (join db))) as [Hnd Hin].
  split; [now apply sorted_NoDup|].
  split; [apply sorted_string_ordered|].
  split.
  { intro team. rewrite sorted_In, Hin. split.
    - intros (r & Hr & Hg). exists r. split; [|assumption].
      now apply sorted_In in Hr.
    - intros (r & Hr & Hg). exists r. split; [|assumption].
      now apply sorted_In. }
  split.
  { rewrite !map_map. apply map_ext. intros [i team]. reflexivity. }
  apply Forall_app. split; apply Forall_forall; intros d Hd;
    apply in_map_iff in Hd; destruct Hd as ([i team] & <- & _);
    cbn [dataset Dataset.data].
  - apply length_map.
  - unfold cumulative_data.
    destruct (cumulative_fold (sorted row_leb (join db)) team
                (match gameweeks (tally (sorted row_leb (join db))) with
                 | [] => [1]
                 | _ :: _ => sorted Z.leb (gameweeks (tally (sorted row_leb (join db))))
                 end) 0 []) as (ext & -> & Hlen & _).
    exact Hlen.
Qed.

(** X26. A line of the weekly chart shows, at each gameweek of the axis,
    the sum of the week points of the scores that players of the team have
    for that gameweek (0 when they have none). *)
Theorem dashboard_weekly_values
  (b64decode : string -> option string) (environ : Environ)
  (auth_header : option string) (db : Database) :
  exists ctx,
    run (dashboard b64decode environ auth_header) db = (inr ctx, db)
    /\ Forall
         (fun d =>
            Dataset.data d
            = map (fun g =>
                     sum_of (map (fun row => Score.week_points (fst row))
                               (filter (at_team_gameweek (Dataset.label d) g)
                                  (join db))))
                (Chart.labels (weekly_chart_data ctx)))
         (Chart.datasets (weekly_chart_data ctx)).
Proof.
  eexists. split; [apply dashboard_run|].
  cbn [weekly_chart_data Chart.labels Chart.datasets].
  apply Forall_forall. intros d Hd. apply in_map_iff in Hd.
  destruct Hd as ([i team] & <- & _). cbn [dataset Dataset.data Dataset.label].
  apply map_ext. intro g. unfold tally. rewrite tally_weekly.
  cbn [team_weekly_data]. unfold team_data_get at 1. cbn [dict_get].
  rewrite (total_perm _ _ _ _ (sorted_perm row_leb (join db))). lia.
Qed.

(** X27. A line of the overall chart shows, at a gameweek of the axis for
    which players of the team have scores, the sum of the overall points of
    those scores only; at a gameweek for which they have none it repeats the
    value before (0 at the start of the axis). *)
Theorem dashboard_overall_values
  (b64decode : string -> option string) (environ : Environ)
  (auth_header : option string) (db : Database) :
  exists ctx,
    run (dashboard b64decode environ auth_header) db = (inr ctx, db)
    /\ Forall
         (fun d =>
            forall before g after,
              Chart.labels (overall_chart_data ctx) = before ++ g :: after ->
              nth_error (Dataset.data d) (List.length before)
              = Some
                  (if existsb (at_team_gameweek (Dataset.label d) g) (join db)
                   then sum_of (map (fun row => Score.overall_points (fst row))
                                  (filter (at_team_gameweek (Dataset.label d) g)
                                     (join db)))
                   else last (firstn (List.length before) (Dataset.data d)) 0))
         (Chart.datasets (overall_chart_data ctx)).
Proof.
  eexists. split; [apply dashboard_run|].
  cbn [overall_chart_data Chart.labels Chart.datasets].
  apply Forall_forall. intros d Hd. apply in_map_iff in Hd.
  destruct Hd as ([i team] & <- & _). cbn [dataset Dataset.data Dataset.label].
  intros before g after Hl. unfold cumulative_data.
  destruct (cumulative_fold (sorted row_leb (join db)) team
              (match gameweeks (tally (sorted row_leb (join db))) with
               | [] => [1]
               | _ :: _ => sorted Z.leb (gameweeks (tally (sorted row_leb (join db))))
               end) 0 []) as (ext & -> & _ & Hnth).
  cbn [app]. rewrite (Hnth before g after Hl).
  f_equal. apply shown_perm, sorted_perm.
Qed.
